(** * The NPV calculator of [app.py]

    A shallow embedding of the Dash callback [calculate_npv] of [app.py]:
    input validation, the parsing of the comma-separated cash flows, the
    discounting loop, the cumulative series and the viability verdict; and of
    the rest of the application: the random cash flows of
    [generate_random_cash_flows], the callback [reset_cash_flows], the initial
    values of the form, and the figures and the alert [calculate_npv] returns.

    The callback computes with Python numbers.  The embedding is written once,
    over an interface [Arith] of the operations the callback uses, and is run
    in two arithmetics:
    - [Binary64]: IEEE 754 double precision, what CPython computes with
      (Rocq's primitive floats);
    - [Exact]: the rationals, the arithmetic in which the formulas of the
      specification are written. *)

From Stdlib Require Import Bool List Arith ZArith Lia Lqa.
From Stdlib Require Import Ascii String.
From Stdlib Require Import QArith Qcanon.
From Stdlib Require Import Floats.
From Stdlib Require DecimalString DecimalPos Qabs.
Import ListNotations.

Close Scope Qc_scope.
Close Scope Q_scope.

Set Implicit Arguments.

(** ** Python strings

    A [string] is read as a sequence of characters with code points below
    256.  [str.strip] and [float] treat as white space the characters for
    which [str.isspace] holds; below 256 these are the ones listed here. *)

Module PyStr.

Definition is_space (c : ascii) : bool :=
  let n := N_of_ascii c in
  ((9 <=? n) && (n <=? 13) || (28 <=? n) && (n <=? 32)
   || (n =? 133) || (n =? 160))%N.

(** [s.lstrip()] *)
Fixpoint lstrip (s : string) : string :=
  match s with
  | EmptyString => EmptyString
  | String c rest => if is_space c then lstrip rest else s
  end.

(** [s.rstrip()] *)
Fixpoint rstrip (s : string) : string :=
  match s with
  | EmptyString => EmptyString
  | String c rest =>
      match rstrip rest with
      | EmptyString => if is_space c then EmptyString else String c EmptyString
      | kept => String c kept
      end
  end.

(** [s.strip()] *)
Definition strip (s : string) : string := rstrip (lstrip s).

(** [s.split(sep)] for a separator of one character. *)
Fixpoint split (sep : ascii) (s : string) : list string :=
  match s with
  | EmptyString => [EmptyString]
  | String c rest =>
      if Ascii.eqb c sep then EmptyString :: split sep rest
      else match split sep rest with
           | [] => [String c EmptyString]
           | tok :: toks => String c tok :: toks
           end
  end.

(** [sep.join(parts)], used to state what [split] returns. *)
Fixpoint join (sep : ascii) (parts : list string) : string :=
  match parts with
  | [] => EmptyString
  | [p] => p
  | p :: ps => (p ++ String sep (join sep ps))%string
  end.

(** Strings of white space, and the characters at the two ends of a string,
    used to state what [strip] returns. *)
Fixpoint all_space (s : string) : bool :=
  match s with
  | EmptyString => true
  | String c rest => is_space c && all_space rest
  end.

Definition first_char (s : string) : option ascii :=
  match s with
  | EmptyString => None
  | String c _ => Some c
  end.

Fixpoint last_char (s : string) : option ascii :=
  match s with
  | EmptyString => None
  | String c EmptyString => Some c
  | String _ rest => last_char rest
  end.

(** [s.lower()] on the letters [A]-[Z]. *)
Definition lower_char (c : ascii) : ascii :=
  let n := N_of_ascii c in
  if ((65 <=? n) && (n <=? 90))%N then ascii_of_N (n + 32) else c.

Fixpoint lower (s : string) : string :=
  match s with
  | EmptyString => EmptyString
  | String c rest => String (lower_char c) (lower rest)
  end.

End PyStr.

(** ** The argument of [float(...)]

    [float] accepts, after stripping white space, the grammar of the Python
    language reference:
<<
    floatvalue ::= [sign] (floatnumber | "inf" | "infinity" | "nan")
    floatnumber ::= number [exponent]
    number      ::= [digitpart] "." digitpart | digitpart ["."]
    exponent    ::= ("e" | "E") [sign] digitpart
    digitpart   ::= digit (["_"] digit)*
>>
    with [inf], [infinity] and [nan] in any mix of upper and lower case.
    Anything else raises [ValueError]. *)

Module FloatSyntax.

(** What a well-formed argument denotes: a decimal numeral
    [(-1)^negative * mantissa * 10^exponent], an infinity or a NaN. *)
Inductive float_literal : Type :=
  | Decimal (negative : bool) (mantissa : N) (exponent : Z)
  | Infinity (negative : bool)
  | NotANumber.

Definition digit_of (c : ascii) : option N :=
  let n := N_of_ascii c in
  if ((48 <=? n) && (n <=? 57))%N then Some (n - 48)%N else None.

(** The rest of a [digitpart] whose first digit has been read: further
    digits, each optionally preceded by one underscore.  Returns the digits
    read and the unread rest. *)
Fixpoint digit_run (s : string) : list N * string :=
  match s with
  | String c rest =>
      match digit_of c with
      | Some d => let (ds, unread) := digit_run rest in (d :: ds, unread)
      | None =>
          if Ascii.eqb c "_" then
            match rest with
            | String c' rest' =>
                match digit_of c' with
                | Some d =>
                    let (ds, unread) := digit_run rest' in (d :: ds, unread)
                | None => ([], s)
                end
            | EmptyString => ([], s)
            end
          else ([], s)
      end
  | EmptyString => ([], s)
  end.

(** An optional [digitpart]: no digit is read when [s] does not start with
    one. *)
Definition digitpart (s : string) : list N * string :=
  match s with
  | String c rest =>
      match digit_of c with
      | Some d => let (ds, unread) := digit_run rest in (d :: ds, unread)
      | None => ([], s)
      end
  | EmptyString => ([], s)
  end.

Definition sign (s : string) : bool * string :=
  match s with
  | String "-" rest => (true, rest)
  | String "+" rest => (false, rest)
  | _ => (false, s)
  end.

(** The value of a string of decimal digits, most significant first. *)
Definition digits_value (ds : list N) : N :=
  fold_left (fun acc d => (10 * acc + d)%N) ds 0%N.

(** [exponent], when present, must be followed by the end of the string. *)
Definition exponent (s : string) : option Z :=
  match s with
  | EmptyString => Some 0%Z
  | String c rest =>
      if Ascii.eqb c "e" || Ascii.eqb c "E" then
        let (neg, after_sign) := sign rest in
        match digitpart after_sign with
        | ((_ :: _) as ds, EmptyString) =>
            let e := Z.of_N (digits_value ds) in
            Some (if neg then (- e)%Z else e)
        | _ => None
        end
      else None
  end.

(** [floatnumber]: integer digits, an optional point with fraction digits,
    at least one digit in all, then the optional exponent. *)
Definition floatnumber (negative : bool) (s : string) : option float_literal :=
  let (int_digits, after_int) := digitpart s in
  let (frac_digits, after_frac) :=
    match after_int with
    | String "." rest => digitpart rest
    | _ => ([], after_int)
    end in
  match int_digits ++ frac_digits with
  | [] => None
  | all_digits =>
      match exponent after_frac with
      | Some e =>
          Some (Decimal negative (digits_value all_digits)
                  (e - Z.of_nat (List.length frac_digits)))
      | None => None
      end
  end.

Definition parse (s : string) : option float_literal :=
  let (negative, body) := sign (PyStr.strip s) in
  let word := PyStr.lower body in
  if String.eqb word "inf" || String.eqb word "infinity"
  then Some (Infinity negative)
  else if String.eqb word "nan" then Some NotANumber
  else floatnumber negative body.

End FloatSyntax.

(** ** Exceptions

    The arithmetic of the callback can raise: a float division by zero raises
    [ZeroDivisionError], a float power whose result leaves the range of the
    doubles raises [OverflowError].  The callback catches neither. *)

Inductive exception : Type := ZeroDivisionError | OverflowError.

Inductive result (A : Type) : Type :=
  | Ok (a : A)
  | Raise (e : exception).
Arguments Ok {A} a.
Arguments Raise {A} e.

Definition bind {A B : Type} (r : result A) (k : A -> result B) : result B :=
  match r with
  | Ok a => k a
  | Raise e => Raise e
  end.

Declare Scope py_scope.
Delimit Scope py_scope with py.
Notation "x <- e ;; k" := (bind e (fun x => k))
  (at level 61, e at next level, right associativity) : py_scope.
Notation "' p <- e ;; k" := (bind e (fun p => k))
  (at level 61, p pattern, e at next level, right associativity) : py_scope.

(** [[f(x) for x in xs]] where [f] may raise: the first exception wins. *)
Fixpoint traverse {A B : Type} (f : A -> result B) (xs : list A)
  : result (list B) :=
  match xs with
  | [] => Ok []
  | x :: rest =>
      (y <- f x ;; ys <- traverse f rest ;; Ok (y :: ys))%py
  end.

(** [enumerate(xs, start)] *)
Definition enumerate {A : Type} (start : nat) (xs : list A) : list (nat * A) :=
  combine (seq start (List.length xs)) xs.

(** ** The numbers of the callback

    [discount_rate] and [initial_investment] come from [type='number']
    inputs and the cash flows from [float(...)]; the callback applies to them
    the operations below.  The literals [0], [1] and [100] of the source are
    Python integers, converted to the type of the other operand. *)

Class Arith (num : Type) : Type := {
  num_0 : num;
  num_1 : num;
  num_100 : num;
  (** [x + y] *)
  num_add : num -> num -> num;
  (** [-x] *)
  num_neg : num -> num;
  (** [x / y] *)
  num_div : num -> num -> result num;
  (** [x ** n] for an integer [n] *)
  num_pow : num -> nat -> result num;
  (** [x < y] *)
  num_ltb : num -> num -> bool
}.

(** [float(s)] for a well-formed [s]: the number a literal denotes. *)
Class Literals (num : Type) : Type :=
  num_of_literal : FloatSyntax.float_literal -> num.

(** ** The callback, over any arithmetic *)

Inductive validation_error : Type :=
  | InvalidDiscountRate
  | InvalidInvestment
  | EmptyCashFlows
  | InvalidCashFlows.

(** The text of the alert (accents of the source left out). *)
Definition error_message (e : validation_error) : string :=
  match e with
  | InvalidDiscountRate =>
      "Por favor, ingresa una tasa de descuento valida (no negativa)."
  | InvalidInvestment =>
      "Por favor, ingresa una inversion inicial valida (no negativa)."
  | EmptyCashFlows => "Por favor, ingresa al menos un flujo de caja."
  | InvalidCashFlows =>
      "Por favor, ingresa flujos de caja validos separados por comas."
  end.

Section Calculator.

Context {num : Type} {arith : Arith num}.

Local Notation "x + y" := (num_add x y) : py_scope.
Local Notation "- x" := (num_neg x) : py_scope.
Local Notation "x / y" := (num_div x y) : py_scope.
Local Notation "x ** n" := (num_pow x n) (at level 30) : py_scope.
Local Notation "x <? y" := (num_ltb x y) : py_scope.
Local Open Scope py_scope.

(** [sum(xs)]: the items added from left to right, starting from [0], as
    the library reference has it and as CPython does up to version 3.11.
    (From version 3.12 on CPython adds floats with a compensated summation,
    whose result can differ from this one in the last bits.) *)
Definition py_sum (xs : list num) : num := fold_left num_add xs num_0.

(** [x is None or x < 0] *)
Definition missing_or_negative (x : option num) : bool :=
  match x with
  | None => true
  | Some v => v <? num_0
  end.

Section Validation.

Context {literals : Literals num}.

(** [float(s)]: [None] stands for [ValueError]. *)
Definition py_float (s : string) : option num :=
  option_map num_of_literal (FloatSyntax.parse s).

(** [[float(c.strip()) for c in tokens]]; [None] when some [float] raises
    [ValueError]. *)
Fixpoint floats_of_tokens (tokens : list string) : option (list num) :=
  match tokens with
  | [] => Some []
  | c :: rest =>
      match py_float (PyStr.strip c) with
      | None => None
      | Some x =>
          match floats_of_tokens rest with
          | None => None
          | Some xs => Some (x :: xs)
          end
      end
  end.

Inductive validated : Type :=
  | Rejected (e : validation_error)
  | Accepted (discount_rate initial_investment : num)
             (cash_flows_list : list num).

(** Lines 117-128: the validation of the three inputs. *)
Definition validate (discount_rate initial_investment : option num)
    (cash_flows : string) : validated :=
  match discount_rate with
  | None => Rejected InvalidDiscountRate
  | Some rate =>
      if rate <? num_0 then Rejected InvalidDiscountRate
      else
        match initial_investment with
        | None => Rejected InvalidInvestment
        | Some investment =>
            if investment <? num_0 then Rejected InvalidInvestment
            else
              match floats_of_tokens (PyStr.split "," cash_flows) with
              | Some cash_flows_list =>
                  if (List.length cash_flows_list =? 0)%nat
                  then Rejected EmptyCashFlows
                  else Accepted rate investment cash_flows_list
              | None => Rejected InvalidCashFlows
              end
        end
  end.

End Validation.

(** Line 143: [cash_flow / ((1 + discount_rate_decimal) ** (i + 1))], with
    [base] for [1 + discount_rate_decimal]. *)
Definition discount (base : num) (i : nat) (cash_flow : num) : result num :=
  factor <- base ** (i + 1) ;;
  cash_flow / factor.

(** Lines 142-145: the discounting loop.  [i] is the index [enumerate] has
    reached, [npv] and [discounted_cash_flows] the variables of the same
    names. *)
Fixpoint discount_loop (base : num) (i : nat) (cash_flows_list : list num)
    (npv : num) (discounted_cash_flows : list num)
  : result (num * list num) :=
  match cash_flows_list with
  | [] => Ok (npv, discounted_cash_flows)
  | cash_flow :: rest =>
      discounted <- discount base i cash_flow ;;
      discount_loop base (S i) rest (npv + discounted)
        (discounted_cash_flows ++ [discounted])
  end.

(** What the callback hands to the two figures and to the alert. *)
Record calculation : Type := {
  (** [x] of both figures, without the leading [0] of the line chart *)
  years : list nat;
  (** [y] of the bar chart *)
  bars : list num;
  discounted_cash_flows : list num;
  (** [y] of the line chart *)
  cumulative_values : list num;
  npv : num;
  (** [true] for the [success] alert, [false] for the [danger] one *)
  viable : bool
}.

(** Lines 139-182: the computation on validated inputs. *)
Definition compute_npv (discount_rate initial_investment : num)
    (cash_flows_list : list num) : result calculation :=
  discount_rate_decimal <- discount_rate / num_100 ;;
  ' (npv, discounted_cash_flows) <-
    discount_loop (num_1 + discount_rate_decimal) 0 cash_flows_list
      (- initial_investment) [] ;;
  let years := seq 1 (List.length cash_flows_list) in
  let cumulative_cash_flows := (- initial_investment) :: discounted_cash_flows in
  let cumulative_values :=
    map (fun i => py_sum (firstn (i + 1) cumulative_cash_flows))
      (seq 0 (List.length cumulative_cash_flows)) in
  Ok {| years := years;
        bars := cash_flows_list;
        discounted_cash_flows := discounted_cash_flows;
        cumulative_values := cumulative_values;
        npv := npv;
        viable := num_0 <? npv |}.

Inductive outcome : Type :=
  (** [raise dash.exceptions.PreventUpdate] *)
  | PreventUpdate
  (** two empty figures and a [danger] alert with the message *)
  | ErrorAlert (e : validation_error)
  (** the bar chart, the line chart and the viability alert *)
  | Charts (c : calculation)
  (** an exception of the arithmetic, which the callback does not catch *)
  | Uncaught (e : exception).

Definition calculate_npv {literals : Literals num} (n_clicks : option nat)
    (discount_rate initial_investment : option num) (cash_flows : string)
  : outcome :=
  match n_clicks with
  | None => PreventUpdate
  | Some _ =>
      match validate discount_rate initial_investment cash_flows with
      | Rejected e => ErrorAlert e
      | Accepted rate investment cash_flows_list =>
          match compute_npv rate investment cash_flows_list with
          | Ok c => Charts c
          | Raise e => Uncaught e
          end
      end
  end.

End Calculator.

(** ** Exact arithmetic: the rationals

    No rounding and no overflow: the only exception left is the division by
    zero. *)

Module Exact.

Definition ltb (x y : Qc) : bool :=
  match (x ?= y)%Qc with
  | Lt => true
  | _ => false
  end.

Definition div (x y : Qc) : result Qc :=
  match (y ?= 0)%Qc with
  | Eq => Raise ZeroDivisionError
  | _ => Ok (x / y)%Qc
  end.

Definition pow (x : Qc) (n : nat) : result Qc := Ok (x ^ n)%Qc.

#[global] Instance arith : Arith Qc := {
  num_0 := 0%Qc;
  num_1 := 1%Qc;
  num_100 := Q2Qc 100;
  num_add := Qcplus;
  num_neg := Qcopp;
  num_div := div;
  num_pow := pow;
  num_ltb := ltb
}.

(** A valid [CalculationInput] of the specification. *)
Definition valid_input (discount_rate initial_investment : Qc)
    (cash_flows_list : list Qc) : Prop :=
  (0 <= discount_rate)%Qc /\ (0 <= initial_investment)%Qc /\
  cash_flows_list <> [].

(** The sum of a list, as the specification writes it. *)
Definition total (xs : list Qc) : Qc := fold_right Qcplus 0%Qc xs.

(** The discounted cash flows, as the specification writes them:
    [c_i / (1 + r)^i] with [r = discount_rate / 100], for the periods
    [i = 1, 2, ...]. *)
Definition discounted_values (discount_rate : Qc) (cash_flows_list : list Qc)
  : list Qc :=
  map (fun ic => (snd ic / (1 + discount_rate / Q2Qc 100) ^ fst ic)%Qc)
    (enumerate 1 cash_flows_list).

End Exact.

(** ** Double precision: Rocq's primitive floats

    Addition, negation, division and comparison are the IEEE 754 operations
    of the processor.  Two operations are not: the conversion of a decimal
    literal and the power, which CPython takes from the C library.  Both are
    modelled as correctly rounded (to nearest, ties to even), as CPython's
    [float] is and as the C library's [pow] is up to its last bit. *)

Module Binary64.

(** The double nearest to the ratio [n / d] of two positive integers, with
    the sign [negative]; an infinity when the ratio is beyond the range. *)
Definition round_ratio (negative : bool) (n d : positive) : float :=
  let '(q, e, l) := SFdiv_core_binary prec emax (Zpos n) 0 (Zpos d) 0 in
  SF2Prim (binary_round_aux prec emax negative q e l).

(** [float(s)] for a well-formed [s]. *)
Definition of_literal (l : FloatSyntax.float_literal) : float :=
  match l with
  | FloatSyntax.Decimal negative mantissa exponent =>
      match mantissa with
      | N0 => if negative then neg_zero else zero
      | Npos m =>
          match exponent with
          | Zneg e => round_ratio negative m (10 ^ e)
          | Z0 => round_ratio negative m 1
          | Zpos e => round_ratio negative (m * 10 ^ e) 1
          end
      end
  | FloatSyntax.Infinity negative =>
      if negative then neg_infinity else infinity
  | FloatSyntax.NotANumber => nan
  end.

(** [x / y]: Python raises on a zero divisor where IEEE 754 returns an
    infinity or a NaN. *)
Definition div (x y : float) : result float :=
  if is_zero y then Raise ZeroDivisionError else Ok (x / y)%float.

(** [x ** n] for a float [x] and an integer [n >= 0] ([float_pow] of
    CPython): the special values are handled first, a finite result is the
    rounded power, and a result that overflows raises [OverflowError]. *)
Definition pow (x : float) (n : nat) : result float :=
  match n with
  | O => Ok one
  | S _ =>
      match Prim2SF x with
      | S754_nan => Ok nan
      | S754_zero s => Ok (if s && Nat.odd n then neg_zero else zero)
      | S754_infinity s =>
          Ok (if s && Nat.odd n then neg_infinity else infinity)
      | S754_finite s m e =>
          let negative := s && Nat.odd n in
          let mn := (m ^ Pos.of_nat n)%positive in
          let r :=
            match (e * Z.of_nat n)%Z with
            | Zneg k => round_ratio negative mn (2 ^ k)
            | Z0 => round_ratio negative mn 1
            | Zpos k => round_ratio negative (mn * 2 ^ k) 1
            end in
          if is_infinity r then Raise OverflowError else Ok r
      end
  end.

#[global] Instance arith : Arith float := {
  num_0 := zero;
  num_1 := one;
  num_100 := 100%float;
  num_add := PrimFloat.add;
  num_neg := PrimFloat.opp;
  num_div := div;
  num_pow := pow;
  num_ltb := PrimFloat.ltb
}.

#[global] Instance literals : Literals float := of_literal.

(** A double of at least 1, plus infinity included, by its mantissa and
    exponent: [m * 2^e >= 1]. *)
Definition at_least_one (f : spec_float) : Prop :=
  match f with
  | S754_infinity false => True
  | S754_finite false m e => (2 ^ (- e) <= Zpos m)%Z
  | _ => False
  end.

(** A base the discounting cannot divide by zero with: a NaN, or a double
    of at least 1. *)
Definition safe_base (x : float) : Prop :=
  Prim2SF x = S754_nan \/ at_least_one (Prim2SF x).

Definition nonnegative (f : spec_float) : Prop :=
  match f with
  | S754_zero _ | S754_infinity false | S754_finite false _ _ => True
  | _ => False
  end.

Definition nonnegative_or_nan (f : spec_float) : Prop :=
  match f with
  | S754_zero _ | S754_nan | S754_infinity false | S754_finite false _ _ => True
  | _ => False
  end.

(** Two doubles that are the same, or are both a zero ([0.0] and [-0.0]
    differ in their sign only, and are equal for Python's [==]). *)
Definition same_value (x y : float) : Prop :=
  x = y \/ (is_zero x = true /\ is_zero y = true).

End Binary64.

(** ** The specification's reading of the cash-flow string

    The specification accepts a string that parses into one or more finite
    numbers after splitting on commas and trimming white space around each
    token.  A token is a finite number when it is a decimal numeral. *)

Module SpecReading.

Definition finite_number (token : string) : bool :=
  match FloatSyntax.parse (PyStr.strip token) with
  | Some (FloatSyntax.Decimal _ _ _) => true
  | _ => false
  end.

Definition finite_numbers (cash_flows : string) : bool :=
  let tokens := PyStr.split "," cash_flows in
  (1 <=? List.length tokens)%nat && forallb finite_number tokens.

End SpecReading.

(** ** The text the application writes

    [str(n)] for an integer and [sep.join(parts)] for a separator of any
    length, with which the application writes the cash flows it draws at
    random into the text field. *)

Module PyText.

(** [str(n)] for an [int]: the decimal digits, after a minus sign when [n]
    is negative.  (CPython refuses to convert an integer of more than 4300
    digits; the application converts integers of three and four digits.) *)
Definition str (n : Z) : string :=
  DecimalString.NilZero.string_of_int (Z.to_int n).

(** [sep.join(parts)] *)
Fixpoint join (sep : string) (parts : list string) : string :=
  match parts with
  | [] => EmptyString
  | [p] => p
  | p :: ps => (p ++ sep ++ join sep ps)%string
  end.

(** [s.count(c)] for one character [c]. *)
Fixpoint count (c : ascii) (s : string) : nat :=
  match s with
  | EmptyString => 0
  | String a rest => if Ascii.eqb a c then S (count c rest) else count c rest
  end.

(** What [float] reads in [str(n)]: the numeral [n], with no exponent. *)
Definition literal_of_int (n : Z) : FloatSyntax.float_literal :=
  FloatSyntax.Decimal (n <? 0)%Z (Z.abs_N n) 0.

End PyText.

(** ** Decimal digits

    The digits of the numerals [str] writes, as [float] reads them. *)

Module DecimalDigits.

Import Decimal.

(** The digits of a decimal numeral, most significant first. *)
Fixpoint uint_digits (d : uint) : list N :=
  match d with
  | Nil => []
  | D0 l => 0%N :: uint_digits l
  | D1 l => 1%N :: uint_digits l
  | D2 l => 2%N :: uint_digits l
  | D3 l => 3%N :: uint_digits l
  | D4 l => 4%N :: uint_digits l
  | D5 l => 5%N :: uint_digits l
  | D6 l => 6%N :: uint_digits l
  | D7 l => 7%N :: uint_digits l
  | D8 l => 8%N :: uint_digits l
  | D9 l => 9%N :: uint_digits l
  end.

(** The characters [0] to [9], and the strings made of them. *)
Definition is_digit (c : ascii) : bool :=
  match FloatSyntax.digit_of c with Some _ => true | None => false end.

Fixpoint all_digits (s : string) : bool :=
  match s with
  | EmptyString => true
  | String c rest => is_digit c && all_digits rest
  end.

End DecimalDigits.

(** ** The random cash flows

    [random.randint(a, b)] draws from the generator of the module [random],
    which every call advances.  The generator is a state passed along; of
    [randint] only the contract of the library reference is used: for
    [a <= b] it returns an integer [N] with [a <= N <= b]. *)

Class RandomSource (rng : Type) : Type :=
  randint : Z -> Z -> rng -> Z * rng.

Definition randint_in_range {rng : Type} (source : RandomSource rng) : Prop :=
  forall (a b : Z) (g : rng),
    (a <= b)%Z -> (a <= fst (randint a b g) <= b)%Z.

(** A linear congruential generator, as an example of a source. *)
Module Lcg.

Definition next (g : N) : N := ((1103515245 * g + 12345) mod 2147483648)%N.

Definition randint (a b : Z) (g : N) : Z * N :=
  ((a + Z.of_N g mod (b - a + 1))%Z, next g).

#[global] Instance source : RandomSource N := randint.

End Lcg.

Section RandomCashFlows.

Context {rng : Type} {source : RandomSource rng}.

(** Lines 17-19: [[random.randint(500, 5000) for _ in range(num_flows)]] *)
Fixpoint generate_random_cash_flows (num_flows : nat) (g : rng)
  : list Z * rng :=
  match num_flows with
  | O => ([], g)
  | S n =>
      let (flow, g1) := randint 500 5000 g in
      let (flows, g2) := generate_random_cash_flows n g1 in
      (flow :: flows, g2)
  end.

(** [', '.join(map(str, flows))], the text of lines 67 and 95. *)
Definition cash_flows_text (flows : list Z) : string :=
  PyText.join ", " (map PyText.str flows).

Inductive reset_outcome : Type :=
  (** [raise dash.exceptions.PreventUpdate] *)
  | ResetPreventUpdate
  (** the new value of the text field [cash-flows] *)
  | NewCashFlows (value : string).

(** Lines 91-96.  [if n_clicks:] holds for a count other than [None] and
    [0]; the default [num_flows=5] is written out. *)
Definition reset_cash_flows (n_clicks : option nat) (g : rng)
  : reset_outcome * rng :=
  match n_clicks with
  | None | Some O => (ResetPreventUpdate, g)
  | Some (S _) =>
      let (random_flows, g') := generate_random_cash_flows 5 g in
      (NewCashFlows (cash_flows_text random_flows), g')
  end.

End RandomCashFlows.

(** ** The form

    The three fields of the layout that [calculate_npv] reads, and the values
    the layout gives them when the application starts (lines 22-24, 43, 56
    and 67). *)

Section Form.

Context {num : Type} {literals : Literals num}.
Context {rng : Type} {source : RandomSource rng}.

Record form : Type := {
  discount_rate_value : option num;
  initial_investment_value : option num;
  cash_flows_value : string
}.

(** [initial_discount_rate = 10.0] *)
Definition initial_discount_rate : num :=
  num_of_literal (FloatSyntax.Decimal false 100 (-1)).

(** [initial_investment = 5000.0] *)
Definition initial_investment : num :=
  num_of_literal (FloatSyntax.Decimal false 50000 (-1)).

(** [initial_cash_flows = generate_random_cash_flows()] and the layout. *)
Definition initial_form (g : rng) : form * rng :=
  let (initial_cash_flows, g') := generate_random_cash_flows 5 g in
  ({| discount_rate_value := Some initial_discount_rate;
      initial_investment_value := Some initial_investment;
      cash_flows_value := cash_flows_text initial_cash_flows |}, g').

End Form.

(** ** The value of a finite double

    The positive double with mantissa [m] and exponent [e] is [m * 2^e]: the
    ratio of the two positive integers below. *)

Module Binary64Ratio.

Definition numerator (m : positive) (e : Z) : positive :=
  match e with
  | Zpos k => (m * 2 ^ k)%positive
  | _ => m
  end.

Definition denominator (e : Z) : positive :=
  match e with
  | Zneg k => (2 ^ k)%positive
  | _ => 1%positive
  end.

End Binary64Ratio.

(** ** The amount of the message

    [f'{npv:,.2f}']: a finite number is rounded to the nearest hundredth
    (CPython converts the exact value of the double, ties go to the even
    hundredth), written with two decimals and with commas between the groups
    of three digits of its integer part; the sign is the sign of the number,
    also when the hundredths round to zero.  An infinity is written [inf] or
    [-inf] and a NaN [nan]. *)

Module PyFormat.

Definition digit_char (d : N) : ascii := ascii_of_N (48 + d).

(** The digits of an integer with a comma before every group of three,
    counted from the right. *)
Fixpoint group_thousands (digits : string) : string :=
  match digits with
  | EmptyString => EmptyString
  | String c rest =>
      let n := String.length rest in
      if (0 <? n)%nat && (n mod 3 =? 0)%nat
      then String c (String "," (group_thousands rest))
      else String c (group_thousands rest)
  end.

(** The integer nearest to [n / d], the even one of the two when [n / d] is
    half way. *)
Definition round_half_even (n d : N) : N :=
  let q := (n / d)%N in
  let r := (n mod d)%N in
  match (2 * r ?= d)%N with
  | Lt => q
  | Gt => (q + 1)%N
  | Eq => if N.even q then q else (q + 1)%N
  end.

(** The number [(-1)^negative * n / d] in the format [,.2f]. *)
Definition fixed_2 (negative : bool) (n d : N) : string :=
  let hundredths := round_half_even (100 * n) d in
  ((if negative then "-" else EmptyString) ++
   group_thousands (PyText.str (Z.of_N (hundredths / 100))) ++
   String "."
     (String (digit_char (hundredths mod 100 / 10))
        (String (digit_char (hundredths mod 10)) EmptyString)))%string.

(** [format(x, ',.2f')] for a double. *)
Definition of_float (x : float) : string :=
  match Prim2SF x with
  | S754_nan => "nan"
  | S754_infinity s => if s then "-inf" else "inf"
  | S754_zero s => fixed_2 s 0 1
  | S754_finite s m e =>
      fixed_2 s (Npos (Binary64Ratio.numerator m e))
        (Npos (Binary64Ratio.denominator e))
  end.

(** The same format for a rational. *)
Definition of_rational (q : Qc) : string :=
  fixed_2 (Qnum q <? 0)%Z (Z.abs_N (Qnum q)) (Npos (Qden q)).

End PyFormat.

(** [f'{x:,.2f}'] *)
Class Formatting (num : Type) : Type :=
  num_format : num -> string.

#[global] Instance binary64_formatting : Formatting float := PyFormat.of_float.
#[global] Instance exact_formatting : Formatting Qc := PyFormat.of_rational.

(** ** What the callback returns

    The two figures and the alert of lines 130-136 and 148-184. *)

Inductive trace_kind : Type :=
  (** [go.Bar] *)
  | Bar
  (** [go.Scatter] *)
  | Scatter.

Record trace (num : Type) : Type := {
  trace_kind_of : trace_kind;
  trace_x : list nat;
  trace_y : list num;
  trace_name : string;
  trace_mode : option string
}.

Record figure_layout : Type := {
  layout_title : string;
  layout_xaxis_title : string;
  layout_yaxis_title : string;
  layout_template : string
}.

Record figure (num : Type) : Type := {
  figure_data : list (trace num);
  figure_layout_of : option figure_layout
}.

(** [dbc.Alert(children, color=color)] *)
Record alert : Type := {
  alert_children : string;
  alert_color : string
}.

Inductive response (num : Type) : Type :=
  (** [raise dash.exceptions.PreventUpdate]: the page keeps what it shows *)
  | NoUpdate
  (** the values of the three outputs of the callback *)
  | Outputs (bar_chart line_chart : figure num) (viability_message : alert)
  (** an exception the callback does not catch *)
  | Exception (e : exception).
Arguments NoUpdate {num}.
Arguments Exception {num} e.

(** The title of the x axis of both figures, the word for year: its second
    letter is the character of code point 241. *)
Definition year_title : string :=
  String "A" (String (ascii_of_N 241) (String "o" EmptyString)).

Section Rendering.

Context {num : Type} {arith : Arith num} {formatting : Formatting num}.

(** [go.Figure()] *)
Definition empty_figure : figure num :=
  {| figure_data := []; figure_layout_of := None |}.

(** Lines 150-158. *)
Definition bar_chart_of (c : calculation) : figure num :=
  {| figure_data :=
       [ {| trace_kind_of := Bar;
            trace_x := years c;
            trace_y := bars c;
            trace_name := "Flujos de Caja Anuales";
            trace_mode := None |} ];
     figure_layout_of :=
       Some {| layout_title := "Flujos de Caja Anuales";
               layout_xaxis_title := year_title;
               layout_yaxis_title := "Flujo de Caja";
               layout_template := "plotly_white" |} |}.

(** Lines 163-176. *)
Definition line_chart_of (c : calculation) : figure num :=
  {| figure_data :=
       [ {| trace_kind_of := Scatter;
            trace_x := 0%nat :: years c;
            trace_y := cumulative_values c;
            trace_name := "Flujo de Caja Acumulado";
            trace_mode := Some "lines+markers"%string |} ];
     figure_layout_of :=
       Some {| layout_title := "Flujo de Caja Acumulado con Descuento";
               layout_xaxis_title := year_title;
               layout_yaxis_title := "Flujo de Caja Acumulado";
               layout_template := "plotly_white" |} |}.

(** Lines 179-182. *)
Definition viability_of (c : calculation) : alert :=
  if viable c
  then {| alert_children :=
            ("El proyecto es viable. VPN = " ++ num_format (npv c))%string;
          alert_color := "success" |}
  else {| alert_children :=
            ("El proyecto no es viable. VPN = " ++ num_format (npv c))%string;
          alert_color := "danger" |}.

(** Lines 130-136 and 184: what the callback returns for each way it can
    end. *)
Definition respond (o : outcome) : response num :=
  match o with
  | PreventUpdate => NoUpdate
  | ErrorAlert e =>
      Outputs empty_figure empty_figure
        {| alert_children := error_message e; alert_color := "danger" |}
  | Charts c => Outputs (bar_chart_of c) (line_chart_of c) (viability_of c)
  | Uncaught e => Exception e
  end.

End Rendering.

(** ** The cash flows the application draws, as doubles

    [small_flow_exact k] checks that [float] reads the numeral of the
    integer [k] as the double of [k]. *)

Definition small_flow_exact (k : nat) : bool :=
  PrimFloat.Leibniz.eqb
    (Binary64.of_literal (PyText.literal_of_int (Z.of_nat k)))
    (PrimFloat.of_uint63 (Uint63.of_Z (Z.of_nat k))).

(** * Properties *)

(** ** Splitting and parsing *)

Lemma split_not_nil (sep : ascii) (s : string) : PyStr.split sep s <> [].
Proof.
  destruct s as [|c rest]; simpl; [discriminate|].
  destruct (Ascii.eqb c sep); [discriminate|].
  destruct (PyStr.split sep rest); discriminate.
Qed.

Lemma split_length (sep : ascii) (s : string) :
  (1 <= List.length (PyStr.split sep s))%nat.
Proof.
  pose proof (split_not_nil sep s) as H.
  destruct (PyStr.split sep s); [congruence | simpl; lia].
Qed.

(** [split] loses nothing: joining the tokens gives the string back. *)
Lemma join_split (sep : ascii) (s : string) :
  PyStr.join sep (PyStr.split sep s) = s.
Proof.
  induction s as [|c rest IH]; simpl; [reflexivity|].
  destruct (Ascii.eqb_spec c sep) as [->|Hne].
  - pose proof (split_not_nil sep rest) as Hnil.
    destruct (PyStr.split sep rest) as [|t ts] eqn:E; [congruence|].
    change (PyStr.join sep (EmptyString :: t :: ts))
      with (String sep (PyStr.join sep (t :: ts))).
    now rewrite IH.
  - pose proof (split_not_nil sep rest) as Hnil.
    destruct (PyStr.split sep rest) as [|t ts] eqn:E; [congruence|].
    destruct ts as [|t' ts'].
    + simpl in *. now rewrite IH.
    + change (PyStr.join sep (String c t :: t' :: ts'))
        with (String c (t ++ String sep (PyStr.join sep (t' :: ts')))%string).
      change (PyStr.join sep (t :: t' :: ts'))
        with (t ++ String sep (PyStr.join sep (t' :: ts')))%string in IH.
      now rewrite IH.
Qed.

(** No token holds the separator. *)
Lemma split_tokens (sep : ascii) (s : string) :
  Forall (fun token => index 0 (String sep EmptyString) token = None)
    (PyStr.split sep s).
Proof.
  induction s as [|c rest IH]; simpl.
  - repeat constructor.
  - destruct (Ascii.eqb_spec c sep) as [->|Hne].
    + constructor; [reflexivity | exact IH].
    + pose proof (split_not_nil sep rest) as Hnil.
      destruct (PyStr.split sep rest) as [|t ts]; [congruence|].
      inversion IH as [|? ? Ht Hts]; subst. constructor; [|exact Hts].
      simpl. destruct (ascii_dec sep c) as [->|_]; [congruence|].
      destruct t; simpl in *.
      * reflexivity.
      * now rewrite Ht.
Qed.

Lemma lstrip_spec (s : string) :
  exists l, s = (l ++ PyStr.lstrip s)%string /\ PyStr.all_space l = true /\
            (forall c, PyStr.first_char (PyStr.lstrip s) = Some c ->
                       PyStr.is_space c = false).
Proof.
  induction s as [|c rest (l & Hl & Hsp & Hfirst)]; simpl.
  - exists EmptyString. repeat split. discriminate.
  - destruct (PyStr.is_space c) eqn:Ec.
    + exists (String c l). simpl. rewrite Ec, Hsp. split; [now f_equal | auto].
    + exists EmptyString. repeat split. simpl. now intros ? [= <-].
Qed.

Lemma rstrip_spec (s : string) :
  exists r, s = (PyStr.rstrip s ++ r)%string /\ PyStr.all_space r = true /\
            (forall c, PyStr.last_char (PyStr.rstrip s) = Some c ->
                       PyStr.is_space c = false) /\
            (forall c, PyStr.first_char s = Some c -> PyStr.is_space c = false ->
                       PyStr.first_char (PyStr.rstrip s) = Some c).
Proof.
  induction s as [|c rest (r & Hr & Hsp & Hlast & _)]; simpl.
  - exists EmptyString. repeat split; discriminate.
  - destruct (PyStr.rstrip rest) as [|k kept] eqn:Ek.
    + destruct (PyStr.is_space c) eqn:Ec.
      * exists (String c r). simpl in *. rewrite Ec, Hsp.
        repeat split; try discriminate; try congruence.
      * exists r. simpl in *.
        repeat split; try congruence; intros ? [= <-]; congruence.
    + exists r. simpl in *.
      repeat split; try congruence; try (now intros ? [= <-]).
      destruct kept; assumption.
Qed.

(** [split] and [strip] are what Python's are: the tokens are the pieces of
    the string between its commas, and a stripped string is the string
    without the white space at its two ends. *)
Theorem split_strip_characterised :
  forall (s : string),
    (PyStr.join "," (PyStr.split "," s) = s /\
     Forall (fun token => index 0 "," token = None) (PyStr.split "," s)) /\
    (exists l r,
        s = (l ++ PyStr.strip s ++ r)%string /\
        PyStr.all_space l = true /\ PyStr.all_space r = true /\
        (forall c, PyStr.first_char (PyStr.strip s) = Some c ->
                   PyStr.is_space c = false) /\
        (forall c, PyStr.last_char (PyStr.strip s) = Some c ->
                   PyStr.is_space c = false)).
Proof.
  intros s. split; [split; [apply join_split | apply split_tokens]|].
  destruct (lstrip_spec s) as (l & Hl & Hlsp & Hfirst).
  destruct (rstrip_spec (PyStr.lstrip s)) as (r & Hr & Hrsp & Hlast & Hkeep).
  exists l, r. unfold PyStr.strip. repeat split; try assumption.
  - now rewrite <- Hr.
  - intros c Hc. destruct (PyStr.lstrip s) as [|c0 rest] eqn:E.
    + discriminate Hc.
    + specialize (Hfirst c0 eq_refl).
      rewrite (Hkeep c0 eq_refl Hfirst) in Hc. now inversion Hc; subst.
Qed.

Section ValidationFacts.

Context {num : Type} {arith : Arith num} {literals : Literals num}.

Lemma py_float_None (s : string) :
  py_float s = None <-> FloatSyntax.parse s = None.
Proof.
  unfold py_float. destruct (FloatSyntax.parse s); simpl; split; congruence.
Qed.

Lemma floats_of_tokens_length (tokens : list string) (xs : list num) :
  floats_of_tokens tokens = Some xs -> List.length xs = List.length tokens.
Proof.
  revert xs. induction tokens as [|c rest IH]; simpl; intros xs H.
  - now inversion H.
  - destruct (py_float (PyStr.strip c)); [|discriminate].
    destruct (floats_of_tokens rest) as [ys|]; [|discriminate].
    inversion H; subst. simpl. now rewrite (IH ys eq_refl).
Qed.

(** The comprehension raises [ValueError] exactly when [float] rejects one
    of the stripped tokens. *)
Lemma floats_of_tokens_None (tokens : list string) :
  floats_of_tokens tokens = None <->
  exists c, In c tokens /\ FloatSyntax.parse (PyStr.strip c) = None.
Proof.
  induction tokens as [|c rest IH]; simpl.
  - split; [discriminate | intros (c & [] & _)].
  - destruct (py_float (PyStr.strip c)) as [x|] eqn:Ec.
    + destruct (floats_of_tokens rest) as [ys|].
      * split; [discriminate|].
        intros (c' & [<-|Hin] & Hc').
        -- apply py_float_None in Hc'. congruence.
        -- destruct IH as [_ IH].
           discriminate IH. now exists c'.
      * split; [|reflexivity].
        intros _. destruct IH as [IH _].
        destruct (IH eq_refl) as (c' & Hin & Hc'). exists c'. auto.
    + split; [|reflexivity].
      intros _. exists c. split; [now left | now apply py_float_None].
Qed.

End ValidationFacts.

(** ** Validation *)

Section ValidationClaims.

Context {num : Type} {arith : Arith num} {literals : Literals num}.

Lemma validate_rate_rejected (rate inv : option num) (s : string) :
  missing_or_negative rate = true ->
  validate rate inv s = Rejected InvalidDiscountRate.
Proof.
  unfold validate. destruct rate as [r|]; simpl; [|reflexivity].
  now intros ->.
Qed.

Lemma validate_investment_rejected (rate inv : option num) (s : string) :
  missing_or_negative rate = false ->
  missing_or_negative inv = true ->
  validate rate inv s = Rejected InvalidInvestment.
Proof.
  unfold validate. destruct rate as [r|]; simpl; [|discriminate].
  intros ->. destruct inv as [i|]; simpl; [|reflexivity].
  now intros ->.
Qed.

(** Once rate and investment have passed, the verdict depends on the cash
    flows alone. *)
Lemma validate_cash_flows (r i : num) (s : string) :
  num_ltb r num_0 = false ->
  num_ltb i num_0 = false ->
  validate (Some r) (Some i) s =
  match floats_of_tokens (PyStr.split "," s) with
  | Some cash_flows_list => Accepted r i cash_flows_list
  | None => Rejected InvalidCashFlows
  end.
Proof.
  intros Hr Hi. unfold validate. rewrite Hr, Hi.
  destruct (floats_of_tokens (PyStr.split "," s)) as [xs|] eqn:E;
    [|reflexivity].
  apply floats_of_tokens_length in E.
  pose proof (split_length "," s) as Hlen.
  destruct xs as [|x xs]; simpl in *; [lia | reflexivity].
Qed.

(** With a good rate and a good investment, the alert for the cash flows is
    given exactly when [float] rejects a stripped token. *)
Lemma cash_flows_alert_iff (n : nat) (r i : num) (s : string) :
  num_ltb r num_0 = false ->
  num_ltb i num_0 = false ->
  calculate_npv (Some n) (Some r) (Some i) s = ErrorAlert InvalidCashFlows <->
  exists token, In token (PyStr.split "," s) /\
                FloatSyntax.parse (PyStr.strip token) = None.
Proof.
  intros Hr Hi. unfold calculate_npv. rewrite validate_cash_flows by assumption.
  rewrite <- floats_of_tokens_None.
  destruct (floats_of_tokens (PyStr.split "," s)) as [xs|].
  - split; [|discriminate]. destruct (compute_npv r i xs); discriminate.
  - split; reflexivity.
Qed.

End ValidationClaims.

(** C4.  The three inputs are checked in the order discount rate,
    investment, cash flows, and the first failing check decides the alert:
    a missing or negative rate gives [InvalidDiscountRate] whatever the
    other two inputs are (so also when the investment is missing or
    negative); with a good rate, a missing or negative investment gives
    [InvalidInvestment] whatever the cash flows are; only with both good is
    the cash-flow string looked at, and it is the only possible error then.
    This holds in every arithmetic. *)
Theorem validation_order :
  forall (num : Type) (arith : Arith num) (literals : Literals num)
         (n : nat) (rate inv : option num) (s : string),
    (missing_or_negative rate = true ->
     calculate_npv (Some n) rate inv s = ErrorAlert InvalidDiscountRate) /\
    (missing_or_negative rate = true -> missing_or_negative inv = true ->
     calculate_npv (Some n) rate inv s = ErrorAlert InvalidDiscountRate) /\
    (missing_or_negative rate = false -> missing_or_negative inv = true ->
     calculate_npv (Some n) rate inv s = ErrorAlert InvalidInvestment) /\
    (missing_or_negative rate = false -> missing_or_negative inv = false ->
     forall e, calculate_npv (Some n) rate inv s = ErrorAlert e ->
               e = InvalidCashFlows).
Proof.
  intros num arith literals n rate inv s.
  assert (missing_or_negative rate = true ->
          calculate_npv (Some n) rate inv s = ErrorAlert InvalidDiscountRate)
    as Hrate.
  { intros H. unfold calculate_npv.
    now rewrite (validate_rate_rejected rate inv s H). }
  repeat split; auto.
  - intros Hr Hi. unfold calculate_npv.
    now rewrite (validate_investment_rejected rate inv s Hr Hi).
  - intros Hr Hi e. unfold calculate_npv.
    destruct rate as [r|]; [|discriminate]. destruct inv as [i|]; [|discriminate].
    simpl in Hr, Hi. rewrite validate_cash_flows by assumption.
    destruct (floats_of_tokens (PyStr.split "," s)) as [xs|].
    + destruct (compute_npv r i xs); discriminate.
    + now intros [= <-].
Qed.

(** In double precision: a rate of [-1] with an investment of [-1] (and,
    besides, a malformed cash-flow string) is reported as an invalid rate;
    so is a missing rate with a missing investment. *)
Lemma validation_order_witness :
  calculate_npv (Some 1%nat) (Some (-1)%float) (Some (-1)%float)
    "1000, abc, 2000" = ErrorAlert InvalidDiscountRate /\
  calculate_npv (arith := Binary64.arith) (Some 1%nat) None None "1000"
    = ErrorAlert InvalidDiscountRate /\
  calculate_npv (Some 1%nat) (Some 10%float) (Some (-1)%float) "abc"
    = ErrorAlert InvalidInvestment.
Proof.
  split; [|split].
  - apply (validation_order Binary64.arith Binary64.literals 1
             (Some (-1)%float) (Some (-1)%float) "1000, abc, 2000");
      reflexivity.
  - apply (validation_order Binary64.arith Binary64.literals 1
             None None "1000"); reflexivity.
  - apply (validation_order Binary64.arith Binary64.literals 1
             (Some 10%float) (Some (-1)%float) "abc"); reflexivity.
Defined.

Lemma split_app (sep : ascii) (s t : string) :
  PyStr.split sep (s ++ String sep t) = PyStr.split sep s ++ PyStr.split sep t.
Proof.
  induction s as [|c rest IH]; simpl.
  - now rewrite Ascii.eqb_refl.
  - destruct (Ascii.eqb c sep); [now rewrite IH|].
    rewrite IH. pose proof (split_not_nil sep rest) as Hnil.
    destruct (PyStr.split sep rest); [congruence | reflexivity].
Qed.

(** A trailing comma leaves an empty last token. *)
Lemma split_trailing_separator (sep : ascii) (s : string) :
  In EmptyString (PyStr.split sep (s ++ String sep EmptyString)).
Proof.
  rewrite split_app. apply in_or_app. right. now left.
Qed.

(** C5, in the form that holds.  With a good rate and a good investment,
    the callback answers [InvalidCashFlows] exactly when [float] rejects one of the
    comma-separated tokens, stripped of white space; it does so for
    ["1000, abc, 2000"].  A string the callback rejects is never a string of
    finite numbers; the converse is what fails, since [float] also accepts
    [inf], [infinity] and [nan]. *)
Theorem invalid_cash_flows_iff :
  forall (num : Type) (arith : Arith num) (literals : Literals num)
         (n : nat) (rate inv : num) (s : string),
    num_ltb rate num_0 = false ->
    num_ltb inv num_0 = false ->
    (calculate_npv (Some n) (Some rate) (Some inv) s
       = ErrorAlert InvalidCashFlows <->
     exists token, In token (PyStr.split "," s) /\
                   FloatSyntax.parse (PyStr.strip token) = None) /\
    (calculate_npv (Some n) (Some rate) (Some inv) s
       = ErrorAlert InvalidCashFlows ->
     SpecReading.finite_numbers s = false) /\
    calculate_npv (Some n) (Some rate) (Some inv) "1000, abc, 2000"
      = ErrorAlert InvalidCashFlows.
Proof.
  intros num arith literals n rate inv s Hr Hi.
  assert (forall s',
    calculate_npv (Some n) (Some rate) (Some inv) s'
      = ErrorAlert InvalidCashFlows <->
    exists token, In token (PyStr.split "," s') /\
                  FloatSyntax.parse (PyStr.strip token) = None) as Hiff
    by (intros s'; now apply cash_flows_alert_iff).
  split; [apply Hiff|]. split.
  - intros H. apply Hiff in H. destruct H as (token & Hin & Hparse).
    unfold SpecReading.finite_numbers. apply andb_false_intro2.
    apply not_true_is_false. intros Hall.
    rewrite forallb_forall in Hall. specialize (Hall token Hin).
    unfold SpecReading.finite_number in Hall. now rewrite Hparse in Hall.
  - apply Hiff. exists " abc"%string. split; [right; now left | reflexivity].
Qed.

(** In double precision, with the rate [10] and the investment [5000]. *)
Lemma invalid_cash_flows_iff_witness :
  calculate_npv (Some 1%nat) (Some 10%float) (Some 5000%float)
    "1000, abc, 2000" = ErrorAlert InvalidCashFlows.
Proof.
  apply (invalid_cash_flows_iff Binary64.arith Binary64.literals 1
           10%float 5000%float "1000" eq_refl eq_refl).
Defined.

(** C5, as stated, fails: ["inf"] is not a finite number, and yet the
    callback does not answer [InvalidCashFlows]; it draws the charts of an
    infinite net present value. *)
Lemma infinite_cash_flow_accepted :
  SpecReading.finite_numbers "inf" = false /\
  calculate_npv (Some 1%nat) (Some 10%float) (Some 5000%float) "inf"
    = Charts {| years := [1%nat];
                bars := [infinity];
                discounted_cash_flows := [infinity];
                cumulative_values := [(-5000)%float; infinity];
                npv := infinity;
                viable := true |}.
Proof. split; reflexivity. Qed.

(** C10.  Splitting on commas yields at least one token, so the list of
    parsed cash flows is never empty and the alert "at least one cash flow"
    is never given.  With a good rate and a good investment, a string with a
    token that is empty once stripped is answered [InvalidCashFlows]; the
    empty string and every string that ends with a comma are such
    strings. *)
Theorem empty_cash_flows_unreachable :
  forall (num : Type) (arith : Arith num) (literals : Literals num)
         (n : nat) (rate inv : option num) (s : string),
    (1 <= List.length (PyStr.split "," s))%nat /\
    (forall xs, floats_of_tokens (PyStr.split "," s) = Some xs -> xs <> []) /\
    calculate_npv (Some n) rate inv s <> ErrorAlert EmptyCashFlows /\
    (missing_or_negative rate = false -> missing_or_negative inv = false ->
     ((exists token, In token (PyStr.split "," s) /\
                     PyStr.strip token = EmptyString) ->
      calculate_npv (Some n) rate inv s = ErrorAlert InvalidCashFlows) /\
     calculate_npv (Some n) rate inv EmptyString = ErrorAlert InvalidCashFlows /\
     calculate_npv (Some n) rate inv (s ++ ",") = ErrorAlert InvalidCashFlows).
Proof.
  intros num arith literals n rate inv s.
  assert (forall xs, floats_of_tokens (PyStr.split "," s) = Some xs -> xs <> [])
    as Hne.
  { intros xs E. apply floats_of_tokens_length in E.
    pose proof (split_length "," s). destruct xs; simpl in *; [lia | discriminate]. }
  split; [apply split_length|]. split; [exact Hne|]. split.
  - unfold calculate_npv, validate.
    destruct rate as [r|]; [|discriminate].
    destruct (num_ltb r num_0); [discriminate|].
    destruct inv as [i|]; [|discriminate].
    destruct (num_ltb i num_0); [discriminate|].
    destruct (floats_of_tokens (PyStr.split "," s)) as [xs|] eqn:E;
      [|discriminate].
    specialize (Hne xs eq_refl).
    destruct xs as [|x xs]; [congruence|]. simpl.
    destruct (compute_npv r i (x :: xs)); discriminate.
  - intros Hr Hi.
    destruct rate as [r|]; [|discriminate]. destruct inv as [i|]; [|discriminate].
    simpl in Hr, Hi.
    assert (forall s', (exists token, In token (PyStr.split "," s') /\
                                      PyStr.strip token = EmptyString) ->
              calculate_npv (Some n) (Some r) (Some i) s'
                = ErrorAlert InvalidCashFlows) as Hempty.
    { intros s' (token & Hin & Hstrip).
      apply cash_flows_alert_iff; [assumption | assumption |]. exists token.
      split; [exact Hin|]. now rewrite Hstrip. }
    split; [apply Hempty|]. split.
    + apply Hempty. exists EmptyString. split; [now left | reflexivity].
    + apply Hempty. exists EmptyString.
      split; [apply split_trailing_separator | reflexivity].
Qed.

(** ** The discounting loop, in every arithmetic *)

Section EngineFacts.

Context {num : Type} {arith : Arith num}.

Lemma bind_Ok {A B : Type} (a : A) (k : A -> result B) : bind (Ok a) k = k a.
Proof. reflexivity. Qed.

(** The loop computes the discounted value of each enumerated cash flow, in
    order, appends them to the list and adds them, from left to right, to
    the running [npv]; it raises what the first failing period raises. *)
Lemma discount_loop_spec (base : num) (flows : list num) :
  forall (i : nat) (npv0 : num) (dcfs0 : list num),
    discount_loop base i flows npv0 dcfs0 =
    (ds <- traverse (fun ic => discount base (fst ic) (snd ic))
             (enumerate i flows) ;;
     Ok (fold_left num_add ds npv0, dcfs0 ++ ds))%py.
Proof.
  induction flows as [|c rest IH]; intros i npv0 dcfs0.
  - simpl. now rewrite app_nil_r.
  - unfold enumerate. simpl.
    destruct (discount base i c) as [d|e]; simpl; [|reflexivity].
    rewrite IH. unfold enumerate.
    destruct (traverse _ (combine (seq (S i) (List.length rest)) rest))
      as [ds|e]; simpl; [|reflexivity].
    now rewrite <- app_assoc.
Qed.

Lemma traverse_length {A B : Type} (f : A -> result B) (xs : list A)
    (ys : list B) :
  traverse f xs = Ok ys -> List.length ys = List.length xs.
Proof.
  revert ys. induction xs as [|x rest IH]; simpl; intros ys H.
  - now inversion H.
  - destruct (f x); [|discriminate]. simpl in H.
    destruct (traverse f rest) as [zs|]; [|discriminate].
    inversion H; subst. simpl. now rewrite (IH zs eq_refl).
Qed.

Lemma enumerate_length {A : Type} (i : nat) (xs : list A) :
  List.length (enumerate i xs) = List.length xs.
Proof.
  unfold enumerate. rewrite length_combine, length_seq. apply Nat.min_id.
Qed.

Lemma traverse_nth {A B : Type} (f : A -> result B) (xs : list A) :
  forall (ys : list B),
    traverse f xs = Ok ys ->
    forall i x, nth_error xs i = Some x ->
                exists y, nth_error ys i = Some y /\ f x = Ok y.
Proof.
  induction xs as [|x0 rest IH]; intros ys H i x Hx.
  - destruct i; discriminate.
  - simpl in H. destruct (f x0) as [y0|] eqn:E0; [|discriminate]. simpl in H.
    destruct (traverse f rest) as [ys'|]; [|discriminate].
    inversion H; subst ys. destruct i as [|i]; simpl in *.
    + inversion Hx; subst. eauto.
    + now apply IH.
Qed.

Lemma enumerate_nth {A : Type} (xs : list A) :
  forall k i x,
    nth_error xs i = Some x -> nth_error (enumerate k xs) i = Some ((k + i)%nat, x).
Proof.
  unfold enumerate.
  induction xs as [|x0 rest IH]; intros k [|i] x H; simpl in *; try discriminate.
  - inversion H. now rewrite Nat.add_0_r.
  - rewrite (IH (S k) i x H). now rewrite Nat.add_succ_r.
Qed.

(** When the callback returns, it returns one discounted value per cash
    flow and one cumulative value more, whatever the arithmetic. *)
Lemma compute_npv_lengths (rate inv : num) (flows : list num) (c : calculation) :
  compute_npv rate inv flows = Ok c ->
  List.length (discounted_cash_flows c) = List.length flows /\
  List.length (cumulative_values c) = S (List.length flows) /\
  years c = seq 1 (List.length flows) /\
  bars c = flows /\
  viable c = num_ltb num_0 (npv c).
Proof.
  unfold compute_npv. destruct (num_div rate num_100) as [r|]; [|discriminate].
  simpl. rewrite discount_loop_spec.
  destruct (traverse _ (enumerate 0 flows)) as [ds|] eqn:E; [|discriminate].
  simpl. intros [= <-]. simpl.
  apply traverse_length in E. rewrite enumerate_length in E.
  rewrite length_map, length_seq. simpl. rewrite E. auto.
Qed.

(** What the callback returns, in every arithmetic: the discounted values
    are what [discount] returns for the enumerated cash flows, [npv] is
    [- initial_investment] with the discounted values added from left to
    right, and the cumulative value of index [i] is [sum] of the first
    [i + 1] items of [[- initial_investment] + discounted_cash_flows]. *)
Lemma compute_npv_returns (rate inv : num) (flows : list num) (c : calculation) :
  compute_npv rate inv flows = Ok c ->
  exists r,
    num_div rate num_100 = Ok r /\
    traverse (fun ic => discount (num_add num_1 r) (fst ic) (snd ic))
      (enumerate 0 flows) = Ok (discounted_cash_flows c) /\
    npv c = fold_left num_add (discounted_cash_flows c) (num_neg inv) /\
    cumulative_values c =
      map (fun i => py_sum (firstn (i + 1)
                              (num_neg inv :: discounted_cash_flows c)))
        (seq 0 (S (List.length flows))).
Proof.
  unfold compute_npv. destruct (num_div rate num_100) as [r|]; [|discriminate].
  simpl. rewrite discount_loop_spec.
  destruct (traverse _ (enumerate 0 flows)) as [ds|] eqn:E; [|discriminate].
  simpl. intros [= <-]. simpl. exists r.
  pose proof (traverse_length _ _ E) as Hlen.
  rewrite enumerate_length in Hlen. rewrite Hlen. auto.
Qed.

(** The last cumulative value is [sum] of the whole list. *)
Lemma cumulative_values_last (rate inv : num) (flows : list num)
    (c : calculation) (d : num) :
  compute_npv rate inv flows = Ok c ->
  last (cumulative_values c) d =
  fold_left num_add (discounted_cash_flows c) (num_add num_0 (num_neg inv)).
Proof.
  intros H. destruct (compute_npv_lengths _ _ _ H) as (Hlen & _).
  destruct (compute_npv_returns _ _ _ H) as (r & _ & _ & _ & ->).
  rewrite seq_S, map_app. simpl. rewrite last_last.
  rewrite Nat.add_1_r. simpl. rewrite <- Hlen, firstn_all. reflexivity.
Qed.

End EngineFacts.


(** ** Exact arithmetic *)

Module ExactFacts.

Import Exact.
Local Open Scope Qc_scope.

Lemma this_plus (x y : Qc) : (this (x + y) == this x + this y)%Q.
Proof. apply Qred_correct. Qed.

Lemma this_mult (x y : Qc) : (this (x * y) == this x * this y)%Q.
Proof. apply Qred_correct. Qed.

Lemma this_opp (x : Qc) : (this (- x) == - this x)%Q.
Proof. apply Qred_correct. Qed.

Lemma this_inv (x : Qc) : (this (/ x) == / this x)%Q.
Proof. apply Qred_correct. Qed.

Lemma this_Q2Qc (q : Q) : (this (Q2Qc q) == q)%Q.
Proof. apply Qred_correct. Qed.

(** Goals on the order of [Qc] are moved to [Q], where [lra] decides the
    linear ones. *)
Ltac qc_to_q :=
  unfold Qcle, Qclt, Qcminus, Qcdiv in *;
  repeat (rewrite ?this_plus, ?this_mult, ?this_opp, ?this_inv, ?this_Q2Qc in * );
  try setoid_replace (/ 100)%Q with (1 # 100)%Q by reflexivity.

Lemma ltb_lt (x y : Qc) : ltb x y = true <-> x < y.
Proof.
  unfold ltb. rewrite Qclt_alt. destruct (x ?= y); split; congruence.
Qed.

Lemma ltb_ge (x y : Qc) : ltb x y = false <-> y <= x.
Proof.
  split; intros H.
  - apply Qcnot_lt_le. intros Hlt. apply ltb_lt in Hlt. congruence.
  - apply not_true_is_false. intros Hlt. apply ltb_lt in Hlt.
    now apply (Qcle_not_lt _ _ H).
Qed.

Lemma div_ok (x y : Qc) : y <> 0 -> div x y = Ok (x / y).
Proof.
  intros Hy. unfold div. destruct (y ?= 0) eqn:E; try reflexivity.
  now apply Qceq_alt in E.
Qed.

Lemma base_ge_1 (rate : Qc) : 0 <= rate -> 1 <= 1 + rate / Q2Qc 100.
Proof. intros H. qc_to_q. lra. Qed.

Lemma base_gt_1 (rate : Qc) : 0 < rate -> 1 < 1 + rate / Q2Qc 100.
Proof. intros H. qc_to_q. lra. Qed.

Lemma pow_ge_1 (b : Qc) (n : nat) : 1 <= b -> 1 <= b ^ n.
Proof.
  intros Hb. induction n as [|n IH]; simpl.
  - apply Qcle_refl.
  - qc_to_q. nra.
Qed.

Lemma pow_gt_1 (b : Qc) (n : nat) : 1 < b -> 1 < b ^ S n.
Proof.
  intros Hb. assert (1 <= b ^ n) as Hn by (apply pow_ge_1, Qclt_le_weak, Hb).
  simpl. qc_to_q. nra.
Qed.

Lemma ge_1_nonzero (p : Qc) : 1 <= p -> p <> 0.
Proof.
  intros Hp ->. revert Hp. unfold Qcle. simpl. unfold Qle. simpl. lia.
Qed.

Lemma div_lt (c p : Qc) : 1 < p -> 0 < c -> c / p < c.
Proof.
  intros Hp Hc. qc_to_q.
  assert (0 < / p)%Q by (apply Qinv_lt_0_compat; lra).
  assert (p * / p == 1)%Q by (apply Qmult_inv_r; lra).
  nra.
Qed.

Lemma div_le (c p : Qc) : 1 <= p -> 0 <= c -> c / p <= c.
Proof.
  intros Hp Hc. qc_to_q.
  assert (0 < / p)%Q by (apply Qinv_lt_0_compat; lra).
  assert (p * / p == 1)%Q by (apply Qmult_inv_r; lra).
  nra.
Qed.

(** With a base of at least [1] no period raises. *)
Lemma discount_ok (base : Qc) (i : nat) (c : Qc) :
  1 <= base -> discount base i c = Ok (c / base ^ (i + 1)).
Proof.
  intros Hb. unfold discount. simpl.
  now apply div_ok, ge_1_nonzero, pow_ge_1.
Qed.

Lemma traverse_discount (base : Qc) (flows : list Qc) :
  1 <= base ->
  forall i,
    traverse (fun ic => discount base (fst ic) (snd ic)) (enumerate i flows) =
    Ok (map (fun ic => snd ic / base ^ fst ic) (enumerate (S i) flows)).
Proof.
  intros Hb. induction flows as [|c rest IH]; intros i; [reflexivity|].
  unfold enumerate in *. simpl. rewrite discount_ok by assumption. simpl.
  rewrite IH. simpl. now rewrite Nat.add_1_r.
Qed.

Lemma fold_left_total (xs : list Qc) (a : Qc) :
  fold_left Qcplus xs a = a + total xs.
Proof.
  revert a. induction xs as [|x rest IH]; intros a; simpl.
  - now rewrite Qcplus_0_r.
  - rewrite IH. ring.
Qed.

Lemma py_sum_total (xs : list Qc) : py_sum xs = total xs.
Proof. unfold py_sum. simpl. rewrite fold_left_total. apply Qcplus_0_l. Qed.

Lemma discounted_values_length (rate : Qc) (flows : list Qc) :
  List.length (discounted_values rate flows) = List.length flows.
Proof. unfold discounted_values. now rewrite length_map, enumerate_length. Qed.

Lemma discounted_from_nth (base : Qc) (flows : list Qc) (c : Qc) :
  forall (i k : nat),
    nth_error flows i = Some c ->
    nth_error (map (fun ic => snd ic / base ^ fst ic) (enumerate k flows)) i =
    Some (c / base ^ (k + i)).
Proof.
  unfold enumerate.
  induction flows as [|x rest IH]; intros [|i] k H; simpl in *;
    try discriminate.
  - inversion H. now rewrite Nat.add_0_r.
  - rewrite (IH i (S k) H). now rewrite Nat.add_succ_r.
Qed.

Lemma discounted_values_nth (rate : Qc) (flows : list Qc) (i : nat) (c : Qc) :
  nth_error flows i = Some c ->
  nth_error (discounted_values rate flows) i =
  Some (c / (1 + rate / Q2Qc 100) ^ S i).
Proof. apply discounted_from_nth. Qed.

(** On a rate that is not negative the exact computation returns, and
    returns this. *)
Lemma compute_npv_exact (rate inv : Qc) (flows : list Qc) :
  0 <= rate ->
  let ds := discounted_values rate flows in
  compute_npv rate inv flows =
  Ok {| years := seq 1 (List.length flows);
        bars := flows;
        discounted_cash_flows := ds;
        cumulative_values :=
          map (fun i => total (firstn (i + 1) (- inv :: ds)))
            (seq 0 (S (List.length flows)));
        npv := - inv + total ds;
        viable := ltb 0 (- inv + total ds) |}.
Proof.
  intros Hrate ds. unfold compute_npv.
  change (num_div rate num_100) with (div rate (Q2Qc 100)).
  rewrite div_ok by (intros H; discriminate H).
  rewrite bind_Ok, discount_loop_spec.
  change (num_add num_1 (rate / Q2Qc 100)) with (1 + rate / Q2Qc 100).
  rewrite traverse_discount by now apply base_ge_1.
  fold (discounted_values rate flows). fold ds.
  rewrite !bind_Ok. simpl app.
  change (fold_left num_add ds (num_neg inv)) with (fold_left Qcplus ds (- inv)).
  rewrite fold_left_total. f_equal. f_equal.
  change (List.length (num_neg inv :: ds)) with (S (List.length ds)).
  unfold ds at 2. rewrite discounted_values_length.
  apply map_ext. intros i. apply py_sum_total.
Qed.

End ExactFacts.

Module ExactEngine.

Import Exact ExactFacts.
Local Open Scope Qc_scope.

(** The inputs of the specification's first example: a rate of 10 %, an
    investment of 5000 and five cash flows. *)
Lemma example_valid :
  valid_input (Q2Qc 10) (Q2Qc 5000)
    (map Q2Qc [1000#1; 1500#1; 2000#1; 2500#1; 3000#1]%Q).
Proof.
  repeat split; try discriminate.
Qed.

(** On a valid input the exact computation returns; the discounted value
    of the cash flow [c_i] of period [i + 1] (the periods count from 1) is
    [c_i / (1 + r)^(i + 1)] with [r = discount_rate / 100], and [npv] is
    [- initial_investment] plus the sum of the discounted values. *)
Lemma npv_formula_exact (rate inv : Qc) (flows : list Qc) :
  valid_input rate inv flows ->
  exists c,
    compute_npv rate inv flows = Ok c /\
    (forall i c_i,
        nth_error flows i = Some c_i ->
        nth_error (discounted_cash_flows c) i =
        Some (c_i / (1 + rate / Q2Qc 100) ^ (i + 1))) /\
    npv c = - inv + total (discounted_cash_flows c).
Proof.
  intros (Hrate & _ & _).
  eexists. split; [apply (compute_npv_exact inv flows Hrate)|]. simpl.
  split; [|reflexivity].
  intros i c_i H. rewrite Nat.add_1_r. now apply discounted_values_nth.
Qed.

Lemma total_firstn_succ (a : Qc) (xs : list Qc) (i : nat) :
  total (firstn (i + 1) (a :: xs)) = a + total (firstn i xs).
Proof. now rewrite Nat.add_1_r. Qed.

Lemma cumulative_nth (a : Qc) (ds : list Qc) (n i : nat) :
  (i <= n)%nat ->
  nth_error (map (fun i => total (firstn (i + 1) (a :: ds))) (seq 0 (S n))) i =
  Some (a + total (firstn i ds)).
Proof.
  intros Hi. rewrite nth_error_map, nth_error_seq.
  destruct (Nat.ltb_spec i (S n)) as [_|H]; [|lia].
  simpl. now rewrite total_firstn_succ.
Qed.

(** On a valid input the exact computation returns one discounted value per
    cash flow and one cumulative value more; the first cumulative value is
    [- initial_investment], and the one of index [i >= 1] is
    [- initial_investment] plus the sum of the first [i] discounted
    values. *)
Lemma cumulative_series_exact (rate inv : Qc) (flows : list Qc) :
  valid_input rate inv flows ->
  exists c,
    compute_npv rate inv flows = Ok c /\
    List.length (discounted_cash_flows c) = List.length flows /\
    List.length (cumulative_values c) = (List.length flows + 1)%nat /\
    nth_error (cumulative_values c) 0 = Some (- inv) /\
    (forall i, (1 <= i <= List.length flows)%nat ->
       nth_error (cumulative_values c) i =
       Some (- inv + total (firstn i (discounted_cash_flows c)))).
Proof.
  intros (Hrate & _ & _).
  eexists. split; [apply (compute_npv_exact inv flows Hrate)|]. simpl.
  split; [apply discounted_values_length|].
  split; [rewrite length_map, length_seq; lia|].
  split.
  - f_equal. apply Qcplus_0_r.
  - intros i Hi.
    apply (cumulative_nth (- inv) (discounted_values rate flows)). lia.
Qed.

(** On a valid input the last cumulative value of the exact computation is
    its [npv]. *)
Lemma cumulative_last_exact (rate inv : Qc) (flows : list Qc) :
  valid_input rate inv flows ->
  exists c,
    compute_npv rate inv flows = Ok c /\
    (exists earlier, cumulative_values c = earlier ++ [npv c]) /\
    last (cumulative_values c) 0 = npv c.
Proof.
  intros (Hrate & _ & _).
  eexists. split; [apply (compute_npv_exact inv flows Hrate)|]. simpl npv.
  cbn [cumulative_values].
  set (ds := discounted_values rate flows).
  assert (map (fun i => total (firstn (i + 1) (- inv :: ds)))
            (seq 0 (S (List.length flows))) =
          map (fun i => total (firstn (i + 1) (- inv :: ds)))
            (seq 0 (List.length flows)) ++ [- inv + total ds]) as E.
  { rewrite seq_S, map_app. simpl. f_equal. f_equal.
    rewrite total_firstn_succ. f_equal. f_equal.
    unfold ds. rewrite <- (discounted_values_length rate flows).
    apply firstn_all. }
  rewrite E. split; [eexists; reflexivity | apply last_last].
Qed.

(** On a valid input the exact computation returns, and its verdict is
    [viable] exactly when [npv] is greater than zero; an [npv] of zero is
    not viable. *)
Lemma viable_exact (rate inv : Qc) (flows : list Qc) :
  valid_input rate inv flows ->
  exists c,
    compute_npv rate inv flows = Ok c /\
    (viable c = true <-> 0 < npv c) /\
    (npv c = 0 -> viable c = false).
Proof.
  intros (Hrate & _ & _).
  eexists. split; [apply (compute_npv_exact inv flows Hrate)|]. simpl.
  split; [apply ltb_lt|].
  intros ->. reflexivity.
Qed.

(** A rate of 0 %, an investment of 1000 and one cash flow of 1000: the
    net present value is zero. *)
Lemma break_even_valid : valid_input 0 (Q2Qc 1000) [Q2Qc 1000].
Proof. repeat split; try discriminate. Qed.

(** The break-even input has an [npv] of zero indeed, and is not viable. *)
Lemma break_even_not_viable :
  exists c,
    compute_npv 0 (Q2Qc 1000) [Q2Qc 1000] = Ok c /\
    npv c = 0 /\ viable c = false.
Proof.
  eexists. split; [apply (compute_npv_exact (Q2Qc 1000) [Q2Qc 1000]);
                   discriminate|].
  simpl. split; [apply Qc_is_canon|]; reflexivity.
Qed.

Lemma discounted_values_zero_rate (flows : list Qc) :
  discounted_values 0 flows = flows.
Proof.
  unfold discounted_values, enumerate. generalize 1%nat as k.
  induction flows as [|c rest IH]; intros k; simpl; [reflexivity|].
  rewrite IH. f_equal.
  replace (1 + 0 / Q2Qc 100) with 1 by (apply Qc_is_canon; reflexivity).
  rewrite Qcpower_1. unfold Qcdiv.
  replace (/ 1) with 1 by (apply Qc_is_canon; reflexivity).
  apply Qcmult_1_r.
Qed.

(** On a valid input with a rate of zero the exact computation leaves
    every cash flow undiscounted and returns
    [npv = sum(cash_flows) - initial_investment]. *)
Lemma zero_rate_exact (rate inv : Qc) (flows : list Qc) :
  valid_input rate inv flows ->
  rate = 0 ->
  exists c,
    compute_npv rate inv flows = Ok c /\
    discounted_cash_flows c = flows /\
    npv c = total flows - inv.
Proof.
  intros (Hrate & _ & _) ->.
  eexists. split; [apply (compute_npv_exact inv flows Hrate)|]. simpl.
  rewrite discounted_values_zero_rate. split; [reflexivity | ring].
Qed.

(** On a valid input with a rate greater than zero and cash flows greater
    than zero, every discounted value of the exact computation is smaller
    than its cash flow. *)
Lemma discounted_below_exact (rate inv : Qc) (flows : list Qc) :
  valid_input rate inv flows ->
  0 < rate ->
  (forall c_i, In c_i flows -> 0 < c_i) ->
  exists c,
    compute_npv rate inv flows = Ok c /\
    List.length (discounted_cash_flows c) = List.length flows /\
    (forall i c_i d_i,
        nth_error flows i = Some c_i ->
        nth_error (discounted_cash_flows c) i = Some d_i ->
        d_i < c_i).
Proof.
  intros (Hrate & _ & _) Hpos Hflows.
  eexists. split; [apply (compute_npv_exact inv flows Hrate)|]. simpl.
  split; [apply discounted_values_length|].
  intros i c_i d_i Hc Hd.
  rewrite (discounted_values_nth rate flows i Hc) in Hd.
  inversion Hd; subst d_i.
  apply div_lt.
  - apply pow_gt_1, base_gt_1, Hpos.
  - apply Hflows. eapply nth_error_In, Hc.
Qed.

(** On a valid input the exact computation returns: the division by 100
    succeeds, and in every period the factor [(1 + r)^(i + 1)] is at least
    1, so that no division by it raises. *)
Lemma exact_total (rate inv : Qc) (flows : list Qc) :
  valid_input rate inv flows ->
  (exists c, compute_npv rate inv flows = Ok c) /\
  num_div rate num_100 = Ok (rate / Q2Qc 100) /\
  (forall i, exists factor,
      num_pow (num_add num_1 (rate / Q2Qc 100)) (i + 1) = Ok factor /\
      1 <= factor /\ factor <> 0 /\
      forall x, num_div x factor = Ok (x / factor)).
Proof.
  intros (Hrate & _ & _).
  split; [eexists; apply (compute_npv_exact inv flows Hrate)|].
  split; [apply div_ok; discriminate|].
  intros i. eexists. split; [reflexivity|].
  assert (1 <= (1 + rate / Q2Qc 100) ^ (i + 1)) as H
    by now apply pow_ge_1, base_ge_1.
  split; [exact H|]. split; [now apply ge_1_nonzero|].
  intros x. now apply div_ok, ge_1_nonzero.
Qed.

End ExactEngine.

(** ** Double precision: rounding

    What the rounding of IEEE 754 does to a value of at least 1, from the
    definitions of [SpecFloat]: enough to see that the discounting never
    divides by zero. *)

Module Binary64Rounding.

Import Binary64.
Local Open Scope Z_scope.

Lemma digits2_pos_bounds (p : positive) :
  2 ^ (Zpos (digits2_pos p) - 1) <= Zpos p < 2 ^ Zpos (digits2_pos p).
Proof.
  induction p as [p IH|p IH|]; simpl digits2_pos.
  - rewrite Pos2Z.inj_succ.
    replace (Z.succ (Zpos (digits2_pos p)) - 1) with (Z.succ (Zpos (digits2_pos p) - 1)) by lia.
    rewrite !Z.pow_succ_r by lia. lia.
  - rewrite Pos2Z.inj_succ.
    replace (Z.succ (Zpos (digits2_pos p)) - 1) with (Z.succ (Zpos (digits2_pos p) - 1)) by lia.
    rewrite !Z.pow_succ_r by lia. lia.
  - simpl. lia.
Qed.

Lemma Zdigits2_bounds (m : Z) :
  0 < m -> 2 ^ (Zdigits2 m - 1) <= m < 2 ^ Zdigits2 m.
Proof.
  destruct m as [|p|p]; try lia. intros _. apply digits2_pos_bounds.
Qed.

Lemma Zdigits2_unique (m k : Z) :
  2 ^ (k - 1) <= m < 2 ^ k -> 0 < m -> Zdigits2 m = k.
Proof.
  intros [Hlo Hhi] Hm.
  destruct (Zdigits2_bounds Hm) as [Dlo Dhi].
  assert (0 < Zdigits2 m) by (destruct m; simpl; lia).
  assert (0 < k).
  { destruct (Z.ltb_spec 0 k); [assumption|].
    destruct (Z.eq_dec k 0) as [->|Hk]; [simpl in Hhi; lia|].
    rewrite Z.pow_neg_r in Hhi by lia. lia. }
  assert (Zdigits2 m - 1 < k).
  { apply (Z.pow_lt_mono_r_iff 2); lia. }
  assert (k - 1 < Zdigits2 m).
  { apply (Z.pow_lt_mono_r_iff 2); lia. }
  lia.
Qed.

Lemma shr_1_m (mrs : shr_record) :
  0 <= shr_m mrs -> shr_m (shr_1 mrs) = shr_m mrs / 2.
Proof.
  destruct mrs as [m r s]. simpl. intros Hm.
  destruct m as [|p|p]; try lia.
  - reflexivity.
  - destruct p as [p|p|]; simpl shr_m.
    + rewrite Pos2Z.inj_xI. apply Z.div_unique with 1; lia.
    + rewrite Pos2Z.inj_xO. apply Z.div_unique with 0; lia.
    + reflexivity.
Qed.

Lemma iter_shr_1_m (p : positive) :
  forall mrs, 0 <= shr_m mrs ->
    shr_m (iter_pos shr_1 p mrs) = shr_m mrs / 2 ^ Zpos p.
Proof.
  induction p as [p IH|p IH|]; intros mrs Hm; simpl iter_pos.
  - assert (0 <= shr_m (shr_1 mrs)) as H1
      by (rewrite shr_1_m by assumption; apply Z.div_pos; lia).
    assert (0 <= shr_m (iter_pos shr_1 p (shr_1 mrs))) as H2
      by (rewrite IH by assumption; apply Z.div_pos; lia).
    rewrite IH, IH, shr_1_m by assumption.
    rewrite !Z.div_div by lia. f_equal.
    rewrite Pos2Z.inj_xI, Z.pow_add_r, Z.pow_mul_r by lia.
    change (2 ^ 2) with 4. change (2 ^ 1) with 2.
    rewrite <- Z.pow_add_r by lia. replace (Zpos p + Zpos p) with (2 * Zpos p) by lia.
    rewrite Z.pow_mul_r by lia. change (2 ^ 2) with 4. lia.
  - assert (0 <= shr_m (iter_pos shr_1 p mrs)) as H2
      by (rewrite IH by assumption; apply Z.div_pos; lia).
    rewrite IH, IH by assumption.
    rewrite !Z.div_div by lia. f_equal.
    rewrite Pos2Z.inj_xO. rewrite <- Z.pow_add_r by lia. f_equal. lia.
  - rewrite shr_1_m by assumption. reflexivity.
Qed.

Lemma shr_record_of_loc_m (m : Z) (l : location) :
  shr_m (shr_record_of_loc m l) = m.
Proof. destruct l as [|[]]; reflexivity. Qed.

Lemma shr_fexp_m (m e : Z) (l : location) :
  0 <= m ->
  let n := Z.max 0 (fexp prec emax (Zdigits2 m + e) - e) in
  shr_m (fst (shr_fexp prec emax m e l)) = m / 2 ^ n /\
  snd (shr_fexp prec emax m e l) = e + n.
Proof.
  intros Hm n. unfold shr_fexp, shr. subst n.
  destruct (fexp prec emax (Zdigits2 m + e) - e) as [|p|p]; simpl fst; simpl snd.
  - rewrite shr_record_of_loc_m. simpl. rewrite Z.div_1_r. lia.
  - rewrite iter_shr_1_m by (rewrite shr_record_of_loc_m; assumption).
    rewrite shr_record_of_loc_m. rewrite Z.max_r by lia. split; reflexivity.
  - rewrite shr_record_of_loc_m. rewrite Z.max_l by lia. simpl.
    rewrite Z.div_1_r. lia.
Qed.

Lemma round_nearest_even_bounds (m : Z) (l : location) :
  m <= round_nearest_even m l <= m + 1.
Proof. destruct l as [|[]]; simpl; try destruct (Z.even m); lia. Qed.

Lemma fexp_normal (k : Z) : 1 <= k -> fexp prec emax k = k - 53.
Proof. intros H. unfold fexp, SpecFloat.emin, prec, emax. lia. Qed.

Lemma pow2_le_52 (e : Z) : -52 <= e -> 2 ^ (- e) <= 2 ^ 52.
Proof.
  intros H. destruct (Z.ltb_spec 0 e).
  - rewrite Z.pow_neg_r by lia. lia.
  - apply Z.pow_le_mono_r; lia.
Qed.

(** Rounding a value of at least 1, given with enough digits, gives a
    valid double of at least 1 or plus infinity. *)
Lemma round_at_least_one (M e : Z) (l : location) :
  0 < M ->
  2 ^ (- e) <= M ->
  e <= fexp prec emax (Zdigits2 M + e) ->
  at_least_one (binary_round_aux prec emax false M e l) /\
  valid_binary (binary_round_aux prec emax false M e l) = true.
Proof.
  intros HM Hone Hdigits.
  destruct (Zdigits2_bounds HM) as [Dlo Dhi].
  set (d := Zdigits2 M) in *.
  assert (1 <= d + e) as Hde.
  { destruct (Z.ltb_spec (d + e) 1) as [Hlt|]; [|assumption]. exfalso.
    assert (2 ^ d <= 2 ^ (- e)) by (apply Z.pow_le_mono_r; lia). lia. }
  rewrite (fexp_normal Hde) in Hdigits.
  unfold binary_round_aux.
  destruct (shr_fexp_m e l (Z.lt_le_incl _ _ HM)) as [Hm1 He1].
  fold d in Hm1, He1. rewrite (fexp_normal Hde) in Hm1, He1.
  replace (d + e - 53 - e) with (d - 53) in Hm1, He1 by lia.
  rewrite Z.max_r in Hm1, He1 by lia.
  destruct (shr_fexp prec emax M e l) as [mrs1 e1]. simpl in Hm1, He1.
  assert (2 ^ 52 <= shr_m mrs1 < 2 ^ 53) as Hb1.
  { rewrite Hm1. split.
    - apply Z.div_le_lower_bound; [apply Z.pow_pos_nonneg; lia|].
      rewrite <- Z.pow_add_r by lia.
      replace (d - 53 + 52) with (d - 1) by lia. assumption.
    - apply Z.div_lt_upper_bound; [apply Z.pow_pos_nonneg; lia|].
      rewrite <- Z.pow_add_r by lia.
      replace (d - 53 + 53) with d by lia. assumption. }
  pose proof (round_nearest_even_bounds (shr_m mrs1) (loc_of_shr_record mrs1))
    as Hr.
  set (m1 := round_nearest_even (shr_m mrs1) (loc_of_shr_record mrs1)) in *.
  assert (e1 = d + e - 53) as He1' by lia. clear He1 Hm1.
  assert (-52 <= e1) as He1lo by lia.
  assert (0 < m1) as Hm1pos by lia.
  destruct (shr_fexp_m e1 loc_Exact (Z.lt_le_incl _ _ Hm1pos)) as [Hm2 He2].
  destruct (Z.ltb_spec m1 (2 ^ 53)) as [Hlt|Hge].
  - assert (Zdigits2 m1 = 53) as Hd1 by (apply Zdigits2_unique; simpl; lia).
    rewrite Hd1 in Hm2, He2. rewrite fexp_normal in Hm2, He2 by lia.
    replace (53 + e1 - 53 - e1) with 0 in Hm2, He2 by lia.
    simpl in Hm2, He2. rewrite Z.div_1_r in Hm2. rewrite Z.add_0_r in He2.
    destruct (shr_fexp prec emax m1 e1 loc_Exact) as [mrs2 e2].
    simpl in Hm2, He2. rewrite Hm2, He2.
    destruct m1 as [|p1|p1]; try lia.
    destruct (e1 <=? emax - prec) eqn:Ebound; simpl; [|auto].
    split.
    + pose proof (pow2_le_52 He1lo). lia.
    + unfold bounded, canonical_mantissa. rewrite Ebound, andb_true_r.
      apply Z.eqb_eq. change (Zpos (digits2_pos p1)) with (Zdigits2 (Zpos p1)).
      rewrite Hd1. rewrite fexp_normal by lia. lia.
  - assert (m1 = 2 ^ 53) as -> by lia.
    change (Zdigits2 (2 ^ 53)) with 54 in Hm2, He2.
    rewrite fexp_normal in Hm2, He2 by lia.
    replace (54 + e1 - 53 - e1) with 1 in Hm2, He2 by lia.
    destruct (shr_fexp prec emax (2 ^ 53) e1 loc_Exact) as [mrs2 e2].
    simpl fst in Hm2. simpl snd in He2. rewrite Hm2, He2.
    change (2 ^ 53 / 2 ^ Z.max 0 1) with (Zpos (2 ^ 52)%positive).
    rewrite Z.max_r by lia.
    destruct (e1 + 1 <=? emax - prec) eqn:Ebound; simpl; [|auto].
    split.
    + assert (-52 <= e1 + 1) as H' by lia. exact (pow2_le_52 H').
    + unfold bounded, canonical_mantissa. rewrite Ebound, andb_true_r.
      apply Z.eqb_eq. change (Zpos (digits2_pos (2 ^ 52))) with 53.
      rewrite fexp_normal by lia. lia.
Qed.

Lemma Zdigits2_le (a b : Z) : 0 < a -> a <= b -> Zdigits2 a <= Zdigits2 b.
Proof.
  intros Ha Hab.
  destruct (Zdigits2_bounds Ha) as [Alo _].
  destruct (Zdigits2_bounds (m := b)) as [_ Bhi]; [lia|].
  destruct (Z.ltb_spec (Zdigits2 b) (Zdigits2 a)) as [Hlt|]; [|assumption].
  exfalso.
  assert (2 ^ Zdigits2 b <= 2 ^ (Zdigits2 a - 1))
    by (apply Z.pow_le_mono_r; lia).
  lia.
Qed.

Lemma Zdigits2_pos (a : Z) : 0 < a -> 0 < Zdigits2 a.
Proof. destruct a; simpl; lia. Qed.

(** The quotient [SFdiv_core_binary] hands to the rounding, for a ratio
    [N / D] of at least 1. *)
Lemma div_core_at_least_one (N D : positive) :
  Zpos D <= Zpos N ->
  forall q e l,
    SFdiv_core_binary prec emax (Zpos N) 0 (Zpos D) 0 = (q, e, l) ->
    0 < q /\ 2 ^ (- e) <= q /\ e <= fexp prec emax (Zdigits2 q + e).
Proof.
  intros HDN q e l. unfold SFdiv_core_binary.
  set (d1 := Zdigits2 (Zpos N)). set (d2 := Zdigits2 (Zpos D)).
  assert (d2 <= d1) as Hd by (apply Zdigits2_le; lia).
  assert (0 < d2) as Hd2 by (apply Zdigits2_pos; lia).
  destruct (Zdigits2_bounds (m := Zpos N)) as [Nlo Nhi]; [lia|].
  destruct (Zdigits2_bounds (m := Zpos D)) as [Dlo Dhi]; [lia|].
  fold d1 in Nlo, Nhi. fold d2 in Dlo, Dhi.
  replace (d1 + 0 - (d2 + 0)) with (d1 - d2) by lia.
  assert (fexp prec emax (d1 - d2) = d1 - d2 - 53) as ->
    by (unfold fexp, SpecFloat.emin, prec, emax; lia).
  change (0 - 0) with 0.
  set (e' := Z.min (d1 - d2 - 53) 0).
  assert (e' <= 0) as He' by (unfold e'; lia).
  assert (e' <= d1 - d2 - 53) as He'' by (unfold e'; lia).
  set (s := 0 - e').
  assert (0 <= s) as Hs by (unfold s; lia).
  assert (s = - e') as Hse by (unfold s; lia).
  clearbody s.
  assert (match s with
          | Z0 => Zpos N
          | Zpos _ => Z.shiftl (Zpos N) s
          | Zneg _ => 0
          end = Zpos N * 2 ^ s) as ->.
  { destruct s as [|p|p]; try lia.
    rewrite Z.shiftl_mul_pow2 by lia. reflexivity. }
  pose proof (Z.pow_pos_nonneg 2 s ltac:(lia) Hs) as Hpow.
  destruct (Z.div_eucl (Zpos N * 2 ^ s) (Zpos D)) as [q' r'] eqn:Ediv.
  intros [= <- <- _].
  assert (q' = Zpos N * 2 ^ s / Zpos D) as Hq
    by (unfold Z.div; now rewrite Ediv).
  assert (2 ^ s <= q') as Hlow.
  { rewrite Hq. apply Z.div_le_lower_bound; [lia|]. nia. }
  assert (2 ^ (d1 - d2 + s - 1) <= q') as Hdig.
  { rewrite Hq. apply Z.div_le_lower_bound; [lia|].
    assert (0 <= d1 - d2 + s - 1) by lia.
    assert (2 ^ d2 * 2 ^ (d1 - d2 + s - 1) = 2 ^ (d1 - 1) * 2 ^ s) as E.
    { rewrite <- !Z.pow_add_r by lia. f_equal. lia. }
    pose proof (Z.pow_pos_nonneg 2 (d1 - d2 + s - 1) ltac:(lia) ltac:(lia)).
    nia. }
  rewrite <- Hse.
  split; [lia|]. split; [assumption|].
  assert (d1 - d2 + s <= Zdigits2 q') as Hdq.
  { destruct (Zdigits2_bounds (m := q')) as [_ Qhi]; [lia|].
    destruct (Z.ltb_spec (Zdigits2 q') (d1 - d2 + s)) as [Hlt|]; [|assumption].
    exfalso.
    assert (2 ^ Zdigits2 q' <= 2 ^ (d1 - d2 + s - 1)).
    { apply Z.pow_le_mono_r; [lia|]. lia. }
    lia. }
  unfold fexp, SpecFloat.emin, prec, emax. lia.
Qed.

(** A ratio of at least 1 rounds to a double of at least 1, or to plus
    infinity. *)
Lemma round_ratio_at_least_one (N D : positive) :
  Zpos D <= Zpos N ->
  at_least_one (Prim2SF (Binary64.round_ratio false N D)).
Proof.
  intros HDN. unfold Binary64.round_ratio.
  destruct (SFdiv_core_binary prec emax (Zpos N) 0 (Zpos D) 0)
    as [[q e] l] eqn:E.
  destruct (div_core_at_least_one HDN E) as (Hq & Hone & Hdig).
  destruct (round_at_least_one l Hq Hone Hdig) as [Hge Hvalid].
  now rewrite Prim2SF_SF2Prim.
Qed.

Lemma is_zero_spec (x : float) :
  is_zero x = true <-> exists s, Prim2SF x = S754_zero s.
Proof.
  unfold is_zero. rewrite eqb_spec.
  change (Prim2SF zero) with (S754_zero false).
  destruct (Prim2SF x) as [s|s| |s m e]; simpl.
  - split; [eauto | reflexivity].
  - destruct s; split; try discriminate; intros (s' & H); discriminate.
  - split; try discriminate; intros (s' & H); discriminate.
  - destruct s; split; try discriminate; intros (s' & H); discriminate.
Qed.

Lemma safe_base_not_zero (x : float) : safe_base x -> is_zero x = false.
Proof.
  intros H. apply not_true_is_false. intros Hz.
  apply is_zero_spec in Hz. destruct Hz as (s & Hs).
  destruct H as [H|H]; rewrite Hs in H; [discriminate | exact H].
Qed.

(** [**] raises nothing but [OverflowError]. *)
Lemma pow_raises_overflow (x : float) (n : nat) (e : exception) :
  pow x n = Raise e -> e = OverflowError.
Proof.
  unfold pow. destruct n as [|n]; [discriminate|].
  destruct (Prim2SF x) as [s|s| |s m ex]; try discriminate.
  match goal with
  | |- context [is_infinity ?r] => destruct (is_infinity r)
  end; [now intros [= <-] | discriminate].
Qed.

(** A power of a base of at least 1 is at least 1, when [**] returns. *)
Lemma pow_at_least_one (x : float) (n : nat) (p : float) :
  at_least_one (Prim2SF x) ->
  pow x (S n) = Ok p -> at_least_one (Prim2SF p).
Proof.
  intros Hx. unfold pow.
  destruct (Prim2SF x) as [s|s| |s m e] eqn:Ex; try contradiction.
  - destruct s; [contradiction|]. now intros [= <-].
  - destruct s; [contradiction|]. simpl in Hx. simpl andb.
    set (k := Pos.of_nat (S n)).
    assert (Z.of_nat (S n) = Zpos k) as Hk
      by (unfold k; rewrite <- positive_nat_Z, Nat2Pos.id;
          [reflexivity | discriminate]).
    rewrite Hk.
    assert (Zpos (m ^ k) = Zpos m ^ Zpos k) as Hmk by apply Pos2Z.inj_pow.
    assert (1 <= Zpos (m ^ k)) as H1 by lia.
    match goal with
    | |- context [is_infinity ?r] =>
        assert (at_least_one (Prim2SF r)) as Hr
    end.
    { destruct (e * Zpos k) as [|j|j] eqn:Ej.
      - apply round_ratio_at_least_one. lia.
      - apply round_ratio_at_least_one. lia.
      - apply round_ratio_at_least_one.
        rewrite Pos2Z.inj_pow, Hmk.
        assert (e < 0) as He by lia.
        assert (Zpos j = - e * Zpos k) as -> by lia.
        rewrite Z.pow_mul_r by lia.
        apply Z.pow_le_mono_l. split; [apply Z.pow_nonneg; lia | exact Hx]. }
    match goal with
    | |- context [is_infinity ?r] => destruct (is_infinity r); [discriminate|]
    end.
    now intros [= <-].
Qed.

Lemma pow_safe_base (x : float) (n : nat) :
  safe_base x ->
  pow x n = Raise OverflowError \/
  exists p, pow x n = Ok p /\ is_zero p = false.
Proof.
  intros Hx. destruct (pow x n) as [p|e] eqn:E.
  - right. exists p. split; [reflexivity|].
    destruct n as [|n]; [now inversion E|].
    destruct Hx as [Hnan|Hone].
    + unfold pow in E. rewrite Hnan in E. now inversion E.
    + apply safe_base_not_zero. right. exact (@pow_at_least_one x n p Hone E).
  - left. now rewrite (pow_raises_overflow _ _ E).
Qed.

Lemma iter_xO (d m : positive) :
  Zpos (Pos.iter xO m d) = Zpos m * 2 ^ Zpos d.
Proof.
  change (Pos.iter xO m d) with (shift_pos d m).
  rewrite shift_pos_correct, Zpower_pos_nat, Zpower_nat_Z, positive_nat_Z. lia.
Qed.

(** [shl_align] lowers the exponent to [ex'] when it is below [ex], and
    scales the mantissa so as to leave the value as it is. *)
Lemma shl_align_spec (mx : positive) (ex ex' : Z) :
  snd (shl_align mx ex ex') = Z.min ex ex' /\
  Zpos (fst (shl_align mx ex ex')) = Zpos mx * 2 ^ (ex - Z.min ex ex').
Proof.
  unfold shl_align. destruct (ex' - ex) as [|d|d] eqn:E; simpl.
  - rewrite Z.min_l by lia. rewrite Z.sub_diag. simpl. lia.
  - rewrite Z.min_l by lia. rewrite Z.sub_diag. simpl. lia.
  - rewrite Z.min_r by lia. rewrite iter_xO.
    replace (ex - ex') with (Zpos d) by lia. split; reflexivity.
Qed.

Lemma Zdigits2_shift (m k : Z) :
  0 < m -> 0 <= k -> Zdigits2 (m * 2 ^ k) = Zdigits2 m + k.
Proof.
  intros Hm Hk. destruct (Zdigits2_bounds Hm) as [Lo Hi].
  pose proof (Zdigits2_pos Hm).
  pose proof (Z.pow_pos_nonneg 2 k ltac:(lia) Hk).
  apply Zdigits2_unique; [|nia].
  replace (Zdigits2 m + k - 1) with (Zdigits2 m - 1 + k) by lia.
  rewrite !Z.pow_add_r by lia. nia.
Qed.

(** Rounding an integer times a power of two that is at least 1. *)
Lemma binary_round_at_least_one (M : positive) (e : Z) :
  2 ^ (- e) <= Zpos M ->
  at_least_one (binary_round prec emax false M e) /\
  valid_binary (binary_round prec emax false M e) = true.
Proof.
  intros Hone. unfold binary_round.
  set (f := fexp prec emax (Zpos (digits2_pos M) + e)).
  destruct (shl_align_spec M e f) as [He Hm].
  destruct (shl_align M e f) as [mz ez]. cbn [fst snd] in He, Hm.
  rewrite <- He in Hm.
  assert (0 <= e - ez) as Hshift by lia.
  pose proof (Z.pow_pos_nonneg 2 (e - ez) ltac:(lia) Hshift) as Hpow.
  apply round_at_least_one.
  - lia.
  - rewrite Hm. destruct (Z.ltb_spec 0 ez) as [Hpos|Hneg].
    + rewrite Z.pow_neg_r by lia. nia.
    + destruct (Z.ltb_spec 0 e).
      * assert (2 ^ (- ez) <= 2 ^ (e - ez)) by (apply Z.pow_le_mono_r; lia).
        apply Z.le_trans with (1 * 2 ^ (e - ez)); [lia|].
        apply Z.mul_le_mono_nonneg_r; lia.
      * replace (- ez) with (- e + (e - ez)) by lia.
        rewrite Z.pow_add_r by lia.
        apply Z.mul_le_mono_nonneg_r; [lia | exact Hone].
  - rewrite Hm, Zdigits2_shift by lia.
    replace (Zdigits2 (Zpos M) + (e - ez) + ez) with (Zpos (digits2_pos M) + e)
      by (unfold Zdigits2; lia).
    fold f. lia.
Qed.

(** [1 + r] for an [r] that is not negative. *)
Lemma one_plus_safe (r : float) :
  nonnegative_or_nan (Prim2SF r) -> safe_base (1 + r).
Proof.
  intros Hr. unfold safe_base. rewrite add_spec.
  change (Prim2SF 1) with (S754_finite false 4503599627370496 (-52)).
  destruct (Prim2SF r) as [s|s| |s mr er]; try (destruct s; try contradiction).
  - right. simpl. lia.
  - right. simpl. lia.
  - right. exact I.
  - now left.
  - right. unfold SF64add, SFadd.
    set (ez := Z.min (-52) er).
    destruct (shl_align_spec 4503599627370496 (-52) ez) as [_ Ha].
    destruct (shl_align_spec mr er ez) as [_ Hb].
    set (a := fst (shl_align 4503599627370496 (-52) ez)) in *.
    set (b := fst (shl_align mr er ez)) in *.
    change (cond_Zopp false (Zpos a) + cond_Zopp false (Zpos b))
      with (Zpos (a + b)).
    apply binary_round_at_least_one.
    rewrite Pos2Z.inj_add, Ha.
    rewrite Z.min_r by (unfold ez; lia).
    change (Zpos 4503599627370496) with (2 ^ 52).
    rewrite <- Z.pow_add_r by (unfold ez; lia).
    replace (52 + (-52 - ez)) with (- ez) by lia. lia.
Qed.

Lemma binary_round_aux_sign (s : bool) (m e : Z) (l : location) :
  match binary_round_aux prec emax s m e l with
  | S754_zero s' | S754_infinity s' | S754_finite s' _ _ => s' = s
  | S754_nan => True
  end.
Proof.
  unfold binary_round_aux.
  destruct (shr_fexp prec emax m e l) as [mrs1 e1].
  destruct (shr_fexp prec emax _ e1 loc_Exact) as [mrs2 e2].
  destruct (shr_m mrs2); [reflexivity | | exact I].
  destruct (e2 <=? emax - prec); reflexivity.
Qed.

(** The decimal rate of a rate that passed the validation. *)
Lemma rate_decimal_nonnegative (rate : float) :
  (rate <? 0)%float = false ->
  nonnegative_or_nan (Prim2SF (rate / 100)).
Proof.
  rewrite ltb_spec, div_spec.
  change (Prim2SF 0) with (S754_zero false).
  change (Prim2SF 100) with (S754_finite false 7036874417766400 (-46)).
  destruct (Prim2SF rate) as [s|s| |s m e]; simpl; try (intros _; exact I).
  - destruct s; [discriminate | intros _; exact I].
  - destruct s; [discriminate|]. intros _.
    destruct (SFdiv_core_binary prec emax (Zpos m) e 7036874417766400 (-46))
      as [[q e'] l].
    pose proof (binary_round_aux_sign false q e' l) as H.
    change (xorb false false) with false.
    destruct (binary_round_aux prec emax false q e' l) as [s'|s'| |s' m' e''];
      simpl; subst; exact I.
Qed.

Section NoZeroDivision.

Local Open Scope float_scope.

Variable rate : float.
Hypothesis rate_validated : (rate <? 0) = false.

Lemma base_safe : safe_base (1 + rate / 100).
Proof. apply one_plus_safe, rate_decimal_nonnegative, rate_validated. Qed.

Lemma discount_raises_overflow (i : nat) (c : float) (e : exception) :
  discount (1 + rate / 100) i c = Raise e -> e = OverflowError.
Proof.
  unfold discount. simpl.
  destruct (pow_safe_base (i + 1) base_safe) as [H|(p & Hp & Hz)]; rewrite H || rewrite Hp.
  - simpl. now intros [= <-].
  - simpl. unfold div. rewrite Hz. discriminate.
Qed.

Lemma traverse_raises_overflow (xs : list (nat * float)) (e : exception) :
  traverse (fun ic => discount (1 + rate / 100) (fst ic) (snd ic)) xs = Raise e ->
  e = OverflowError.
Proof.
  induction xs as [|[i c] rest IH]; simpl; [discriminate|].
  destruct (discount (1 + rate / 100) i c) as [d|e'] eqn:E; simpl.
  - destruct (traverse _ rest) as [ds|e'']; simpl; [discriminate|].
    intros [= <-]. now apply IH.
  - intros [= <-]. now apply (discount_raises_overflow _ _ E).
Qed.

Lemma compute_npv_raises_overflow (inv : float) (flows : list float)
    (e : exception) :
  compute_npv rate inv flows = Raise e -> e = OverflowError.
Proof.
  unfold compute_npv.
  change (num_div rate num_100) with (Ok (rate / 100)).
  rewrite bind_Ok, discount_loop_spec.
  change (num_add num_1 (rate / 100)) with (1 + rate / 100).
  destruct (traverse _ (enumerate 0 flows)) as [ds|e'] eqn:E; simpl.
  - discriminate.
  - intros [= <-]. now apply (traverse_raises_overflow _ E).
Qed.

End NoZeroDivision.

Lemma div_eucl_div_mod (a b : Z) : Z.div_eucl a b = (a / b, a mod b).
Proof. unfold Z.div, Z.modulo. now destruct (Z.div_eucl a b). Qed.

Lemma new_location_exact (n : Z) : new_location n 0 = loc_Exact.
Proof. unfold new_location. destruct (Z.even n); reflexivity. Qed.

(** A ratio of 1 rounds to 1. *)
Lemma round_ratio_same (N : positive) : round_ratio false N N = 1%float.
Proof.
  unfold round_ratio, SFdiv_core_binary.
  replace (Zdigits2 (Zpos N) + 0 - (Zdigits2 (Zpos N) + 0)) with 0 by lia.
  change (Z.min (fexp prec emax 0) (0 - 0)) with (-53).
  change (0 - 0 - -53) with 53.
  cbv iota.
  rewrite Z.shiftl_mul_pow2 by lia.
  rewrite div_eucl_div_mod.
  rewrite (Z.mul_comm (Zpos N)), Z.div_mul, Z.mod_mul by lia.
  rewrite new_location_exact. reflexivity.
Qed.

(** [1.0 ** n] is [1.0]. *)
Lemma pow_one (n : nat) : pow 1 n = Ok 1%float.
Proof.
  unfold pow. destruct n as [|n]; [reflexivity|].
  change (Prim2SF 1) with (S754_finite false 4503599627370496 (-52)).
  simpl andb.
  set (k := Pos.of_nat (S n)).
  assert (Z.of_nat (S n) = Zpos k) as ->
    by (unfold k; rewrite <- positive_nat_Z, Nat2Pos.id; [reflexivity | discriminate]).
  change (-52 * Zpos k) with (Zneg (52 * k)).
  assert ((4503599627370496 ^ k)%positive = (2 ^ (52 * k))%positive) as ->.
  { apply Pos2Z.inj. rewrite !Pos2Z.inj_pow, Pos2Z.inj_mul.
    change (Zpos 4503599627370496) with (2 ^ 52).
    rewrite <- Z.pow_mul_r by lia. reflexivity. }
  rewrite round_ratio_same. reflexivity.
Qed.

(** [x / 1.0] is [x]. *)
Lemma div_one (x : float) : (x / 1)%float = x.
Proof.
  apply Prim2SF_inj. rewrite div_spec.
  change (Prim2SF 1) with (S754_finite false 4503599627370496 (-52)).
  pose proof (Prim2SF_valid x) as Hv.
  destruct (Prim2SF x) as [s|s| |s m e]; simpl SF64div; unfold SF64div, SFdiv.
  - now rewrite xorb_false_r.
  - now rewrite xorb_false_r.
  - reflexivity.
  - rewrite xorb_false_r.
    simpl in Hv. unfold bounded, canonical_mantissa in Hv.
    apply andb_true_iff in Hv. destruct Hv as [Hc Hb].
    apply Z.eqb_eq in Hc. apply Z.leb_le in Hb.
    unfold SFdiv_core_binary.
    change (Zdigits2 (Zpos m)) with (Zpos (digits2_pos m)).
    change (Zdigits2 4503599627370496) with 53.
    set (d := Zpos (digits2_pos m)) in *.
    assert (0 < d) as Hd by (unfold d; lia).
    replace (d + e - (53 + -52)) with (d + e - 1) by lia.
    unfold fexp, SpecFloat.emin, emax, prec in Hc, Hb |- *.
    change (3 - 1024 - 53) with (-1074) in *.
    change (1024 - 53) with 971 in *.
    destruct (Z.le_gt_cases (-1074) (d + e - 54)) as [HA|HB].
    + (* normal: the quotient has one digit more than the mantissa *)
      assert (d = 53) as Hd53 by lia.
      rewrite (Z.max_l (d + e - 1 - 53)) by lia.
      rewrite (Z.min_l (d + e - 1 - 53)) by lia.
      replace (e - -52 - (d + e - 1 - 53)) with 53 by lia.
      replace (d + e - 1 - 53) with (e - 1) by lia.
      cbv iota. rewrite Z.shiftl_mul_pow2 by lia.
      rewrite div_eucl_div_mod.
      change (Zpos 4503599627370496) with (2 ^ 52).
      replace (Zpos m * 2 ^ 53) with (Zpos m~0 * 2 ^ 52) by (rewrite Pos2Z.inj_xO; lia).
      rewrite Z.div_mul, Z.mod_mul by lia.
      rewrite new_location_exact.
      unfold binary_round_aux, shr_fexp.
      change (Zdigits2 (Zpos m~0)) with (Z.succ d) || 
        (change (Zdigits2 (Zpos m~0)) with (Zpos (Pos.succ (digits2_pos m)));
         rewrite Pos2Z.inj_succ; fold d).
      unfold fexp, SpecFloat.emin, emax, prec.
      change (3 - 1024 - 53) with (-1074).
      replace (Z.max (Z.succ d + (e - 1) - 53) (-1074) - (e - 1)) with 1 by lia.
      cbn [shr shr_record_of_loc iter_pos shr_1 shr_m loc_of_shr_record
             round_nearest_even orb].
      change (Zdigits2 (Zpos m)) with d.
      replace (e - 1 + 1) with e by lia.
      replace (Z.max (d + e - 53) (-1074) - e) with 0 by lia.
      cbn [shr shr_record_of_loc shr_m].
      change (1024 - 53) with 971.
      apply Z.leb_le in Hb. now rewrite Hb.
    + (* the smallest exponent: the quotient is the mantissa *)
      assert (e = -1074) as He by lia.
      rewrite (Z.max_r (d + e - 1 - 53)) by lia.
      rewrite (Z.min_l (-1074)) by lia.
      replace (e - -52 - -1074) with 52 by lia.
      cbv iota. rewrite Z.shiftl_mul_pow2 by lia.
      rewrite div_eucl_div_mod.
      change (Zpos 4503599627370496) with (2 ^ 52).
      rewrite Z.div_mul, Z.mod_mul by lia.
      rewrite new_location_exact.
      unfold binary_round_aux, shr_fexp.
      change (Zdigits2 (Zpos m)) with d.
      unfold fexp, SpecFloat.emin, emax, prec.
      change (3 - 1024 - 53) with (-1074).
      replace (Z.max (d + -1074 - 53) (-1074) - -1074) with 0 by lia.
      cbn [shr shr_record_of_loc shr_m loc_of_shr_record round_nearest_even].
      change (Zdigits2 (Zpos m)) with d.
      replace (Z.max (d + -1074 - 53) (-1074) - -1074) with 0 by lia.
      cbn [shr shr_record_of_loc shr_m].
      subst e. reflexivity.
Qed.

Section ZeroRate.

Local Open Scope float_scope.

Lemma zero_rate_base (rate : float) :
  (rate =? 0) = true -> 1 + rate / 100 = 1.
Proof.
  intros H. apply is_zero_spec in H. destruct H as (s & Hs).
  rewrite <- (SF2Prim_Prim2SF rate), Hs. destruct s; reflexivity.
Qed.

Lemma discount_base_one (i : nat) (c : float) : discount 1 i c = Ok c.
Proof.
  unfold discount. change (num_pow 1 (i + 1)) with (pow 1 (i + 1)).
  rewrite pow_one. simpl. unfold div.
  change (is_zero 1) with false. cbv iota. now rewrite div_one.
Qed.

Lemma traverse_base_one (flows : list float) :
  forall i,
    traverse (fun ic => discount 1 (fst ic) (snd ic)) (enumerate i flows)
    = Ok flows.
Proof.
  induction flows as [|c rest IH]; intros i; [reflexivity|].
  unfold enumerate in *. simpl. rewrite discount_base_one. simpl.
  now rewrite IH.
Qed.

(** In double precision a rate of zero leaves every cash flow as it is, and
    [npv] is [- initial_investment] with the cash flows added from left to
    right. *)
Lemma zero_rate_binary64 (rate inv : float) (flows : list float) :
  (rate =? 0) = true ->
  exists c,
    compute_npv rate inv flows = Ok c /\
    discounted_cash_flows c = flows /\
    npv c = fold_left PrimFloat.add flows (- inv).
Proof.
  intros Hrate. unfold compute_npv.
  change (num_div rate num_100) with (Ok (rate / 100)).
  rewrite bind_Ok, discount_loop_spec.
  change (num_add num_1 (rate / 100)) with (1 + rate / 100).
  rewrite (zero_rate_base Hrate), traverse_base_one.
  eexists. split; [reflexivity|]. split; reflexivity.
Qed.

End ZeroRate.

(** Rounding a mantissa that is not negative never gives a NaN. *)
Lemma round_not_nan (s : bool) (m e : Z) (l : location) :
  0 <= m -> binary_round_aux prec emax s m e l <> S754_nan.
Proof.
  intros Hm. unfold binary_round_aux.
  destruct (shr_fexp_m e l Hm) as [Hm1 _].
  destruct (shr_fexp prec emax m e l) as [mrs1 e1]. simpl in Hm1.
  pose proof (round_nearest_even_bounds (shr_m mrs1) (loc_of_shr_record mrs1))
    as Hr.
  assert (0 <= shr_m mrs1) as H1
    by (rewrite Hm1; apply Z.div_pos; [lia | apply Z.pow_pos_nonneg; lia]).
  set (m1 := round_nearest_even (shr_m mrs1) (loc_of_shr_record mrs1)) in *.
  assert (0 <= m1) as Hm1pos by lia.
  destruct (shr_fexp_m e1 loc_Exact Hm1pos) as [Hm2 _].
  destruct (shr_fexp prec emax m1 e1 loc_Exact) as [mrs2 e2]. simpl in Hm2.
  assert (0 <= shr_m mrs2) as H2
    by (rewrite Hm2; apply Z.div_pos; [lia | apply Z.pow_pos_nonneg; lia]).
  destruct (shr_m mrs2) as [|p|p]; try lia; try discriminate.
  destruct (e2 <=? emax - prec); discriminate.
Qed.

Lemma div_core_nonneg (m1 m2 : positive) (e1 e2 : Z) :
  0 <= fst (fst (SFdiv_core_binary prec emax (Zpos m1) e1 (Zpos m2) e2)).
Proof.
  unfold SFdiv_core_binary.
  set (s := _ - _ - _).
  set (m' := match s with Z0 => Zpos m1 | Zpos _ => Z.shiftl (Zpos m1) s | Zneg _ => 0 end).
  assert (0 <= m') as Hm'.
  { unfold m'. destruct s; try lia. apply Z.shiftl_nonneg. lia. }
  rewrite div_eucl_div_mod. simpl. apply Z.div_pos; lia.
Qed.

(** The decimal rate of a rate that is not negative. *)
Lemma rate_decimal_nonneg (rate : float) :
  (0 <=? rate)%float = true -> nonnegative (Prim2SF (rate / 100)).
Proof.
  rewrite leb_spec, div_spec.
  change (Prim2SF 0) with (S754_zero false).
  change (Prim2SF 100) with (S754_finite false 7036874417766400 (-46)).
  destruct (Prim2SF rate) as [s|s| |s m e]; simpl; try discriminate.
  - intros _. exact I.
  - destruct s; [discriminate | intros _; exact I].
  - destruct s; [discriminate|]. intros _.
    pose proof (div_core_nonneg m 7036874417766400 e (-46)) as Hq.
    destruct (SFdiv_core_binary prec emax (Zpos m) e 7036874417766400 (-46))
      as [[q e'] l]. simpl in Hq.
    pose proof (binary_round_aux_sign false q e' l) as H.
    pose proof (round_not_nan false e' l Hq) as Hnan.
    change (xorb false false) with false.
    destruct (binary_round_aux prec emax false q e' l) as [s'|s'| |s' m' e''];
      simpl; subst; try exact I. congruence.
Qed.

(** [1 + r] for an [r] that is not negative, and is not a NaN. *)
Lemma one_plus_at_least_one (r : float) :
  nonnegative (Prim2SF r) -> at_least_one (Prim2SF (1 + r)).
Proof.
  intros Hr.
  assert (nonnegative_or_nan (Prim2SF r)) as Hr'
    by (revert Hr; destruct (Prim2SF r) as [s|s| |s m e]; try destruct s;
        simpl; auto).
  destruct (one_plus_safe _ Hr') as [Hnan|H]; [|exact H].
  exfalso. rewrite add_spec in Hnan.
  change (Prim2SF 1) with (S754_finite false 4503599627370496 (-52)) in Hnan.
  destruct (Prim2SF r) as [s|s| |s mr er]; try destruct s; try contradiction;
    try discriminate.
  revert Hnan. unfold SF64add, SFadd.
  set (a := fst (shl_align 4503599627370496 (-52) (Z.min (-52) er))).
  set (b := fst (shl_align mr er (Z.min (-52) er))).
  change (cond_Zopp false (Zpos a) + cond_Zopp false (Zpos b))
    with (Zpos (a + b)).
  unfold binary_normalize, binary_round.
  destruct (shl_align (a + b) _ _) as [mz ez].
  apply round_not_nan. lia.
Qed.

Lemma fexp_le (a b : Z) : a <= b -> fexp prec emax a <= fexp prec emax b.
Proof. unfold fexp, SpecFloat.emin, prec, emax. lia. Qed.

Lemma fexp_ge_emin (a : Z) : -1074 <= fexp prec emax a.
Proof. unfold fexp, SpecFloat.emin, prec, emax. lia. Qed.

Lemma fexp_le_minus (a : Z) : -1074 <= a -> fexp prec emax a <= a.
Proof. unfold fexp, SpecFloat.emin, prec, emax. lia. Qed.

(** The exponent and the mantissa after one [shr_fexp]. *)
Lemma shr_fexp_bound (m e : Z) (l : location) (C ec : Z) :
  0 <= m ->
  e <= ec ->
  -1074 <= ec ->
  fexp prec emax (Zdigits2 m + e) <= ec ->
  m <= C * 2 ^ (ec - e) ->
  let r := shr_fexp prec emax m e l in
  snd r <= ec /\ 0 <= shr_m (fst r) /\
  shr_m (fst r) <= C * 2 ^ (ec - snd r) /\
  (m < C * 2 ^ (ec - e) -> shr_m (fst r) < C * 2 ^ (ec - snd r)).
Proof.
  intros Hm He Hec Hf HC r. subst r.
  destruct (shr_fexp_m e l Hm) as [Hm1 He1].
  set (n := Z.max 0 (fexp prec emax (Zdigits2 m + e) - e)) in *.
  assert (0 <= n) as Hn by (unfold n; lia).
  assert (e + n <= ec) as Hle by (unfold n; lia).
  rewrite Hm1, He1.
  pose proof (Z.pow_pos_nonneg 2 n ltac:(lia) Hn) as Hpow.
  assert (C * 2 ^ (ec - e) = C * 2 ^ (ec - (e + n)) * 2 ^ n) as E.
  { rewrite <- Z.mul_assoc, <- Z.pow_add_r by lia. do 2 f_equal. lia. }
  split; [exact Hle|]. split; [apply Z.div_pos; lia|]. split.
  - apply Z.div_le_upper_bound; [lia|]. lia.
  - intros Hlt. apply Z.div_lt_upper_bound; [lia|]. lia.
Qed.

Lemma Zdigits2_le_pow (q k : Z) : 0 <= q -> 0 <= k -> q < 2 ^ k -> Zdigits2 q <= k.
Proof.
  intros Hq Hk Hlt. destruct (Z.eq_dec q 0) as [->|Hne]; [simpl; lia|].
  destruct (Zdigits2_bounds (m := q)) as [Lo _]; [lia|].
  pose proof (Zdigits2_pos (a := q) ltac:(lia)).
  destruct (Z.ltb_spec k (Zdigits2 q)) as [Hgt|]; [|assumption]. exfalso.
  assert (2 ^ k <= 2 ^ (Zdigits2 q - 1)) by (apply Z.pow_le_mono_r; lia). lia.
Qed.

(** The canonical exponent of a value below a double [mc * 2^ec] is at most
    [ec]. *)
Lemma fexp_below (q e : Z) (mc : positive) (ec : Z) :
  0 <= q -> e <= ec ->
  fexp prec emax (Zdigits2 (Zpos mc) + ec) = ec ->
  q <= Zpos mc * 2 ^ (ec - e) ->
  fexp prec emax (Zdigits2 q + e) <= ec.
Proof.
  intros Hq He Hc Hle.
  apply Z.le_trans with (fexp prec emax (Zdigits2 (Zpos mc) + ec)); [|lia].
  apply fexp_le.
  destruct (Zdigits2_bounds (m := Zpos mc)) as [_ Hi]; [lia|].
  pose proof (Zdigits2_pos (a := Zpos mc) ltac:(lia)) as Hd.
  assert (Zdigits2 q <= Zdigits2 (Zpos mc) + (ec - e)); [|lia].
  apply Zdigits2_le_pow; [assumption | lia |].
  rewrite Z.pow_add_r by lia.
  pose proof (Z.pow_pos_nonneg 2 (ec - e) ltac:(lia) ltac:(lia)). nia.
Qed.

(** Rounding a value below a double gives that double at most. *)
Lemma round_le (q e : Z) (l : location) (mc : positive) (ec : Z) :
  0 <= q -> e <= ec ->
  fexp prec emax (Zdigits2 (Zpos mc) + ec) = ec ->
  ec <= 971 ->
  q < Zpos mc * 2 ^ (ec - e) ->
  SFleb (binary_round_aux prec emax false q e l) (S754_finite false mc ec)
  = true.
Proof.
  intros Hq He Hc Hmax Hlt.
  assert (-1074 <= ec) as Hmin by (rewrite <- Hc; apply fexp_ge_emin).
  unfold binary_round_aux.
  destruct (@shr_fexp_bound q e l (Zpos mc) ec Hq He Hmin)
    as (He1 & Hm1 & _ & Hm1lt).
  { apply fexp_below with (mc := mc); [assumption | assumption | assumption | lia]. }
  { lia. }
  specialize (Hm1lt Hlt).
  destruct (shr_fexp prec emax q e l) as [mrs1 e1].
  cbn [fst snd] in He1, Hm1, Hm1lt.
  pose proof (round_nearest_even_bounds (shr_m mrs1) (loc_of_shr_record mrs1))
    as Hr.
  set (m1 := round_nearest_even (shr_m mrs1) (loc_of_shr_record mrs1)) in *.
  assert (0 <= m1) as Hm1pos by lia.
  assert (m1 <= Zpos mc * 2 ^ (ec - e1)) as Hm1le by lia.
  destruct (@shr_fexp_bound m1 e1 loc_Exact (Zpos mc) ec Hm1pos He1 Hmin)
    as (He2 & Hm2 & Hm2le & _).
  { apply fexp_below with (mc := mc); assumption. }
  { assumption. }
  destruct (shr_fexp prec emax m1 e1 loc_Exact) as [mrs2 e2].
  cbn [fst snd] in He2, Hm2, Hm2le.
  destruct (shr_m mrs2) as [|p|p]; try lia.
  - reflexivity.
  - assert ((e2 <=? emax - prec) = true) as ->
      by (apply Z.leb_le; unfold emax, prec; lia).
    unfold SFleb, SFcompare.
    destruct (Z.compare_spec e2 ec) as [Heq|Hl|Hg]; try reflexivity; [|lia].
    subst e2. rewrite Z.sub_diag, Z.pow_0_r, Z.mul_1_r in Hm2le.
    assert ((p <= mc)%positive) as Hp by lia.
    apply Pos.compare_le_iff in Hp.
    change (Pos.compare_cont Eq p mc) with (p ?= mc)%positive.
    destruct (p ?= mc)%positive; try reflexivity. congruence.
Qed.

(** The quotient [SFdiv_core_binary] hands to the rounding, for a divisor
    above 1: it is below the dividend. *)
Lemma div_core_below (mc mp : positive) (ec ep : Z) :
  fexp prec emax (Zdigits2 (Zpos mc) + ec) = ec ->
  2 ^ (- ep) < Zpos mp ->
  forall q e l,
    SFdiv_core_binary prec emax (Zpos mc) ec (Zpos mp) ep = (q, e, l) ->
    0 <= q /\ e <= ec /\ q < Zpos mc * 2 ^ (ec - e).
Proof.
  intros Hc Hp q e l. unfold SFdiv_core_binary.
  set (dc := Zdigits2 (Zpos mc)) in *. set (dp := Zdigits2 (Zpos mp)).
  destruct (Zdigits2_bounds (m := Zpos mp)) as [_ Phi]; [lia|]. fold dp in Phi.
  assert (0 < dp) as Hdp by (apply Zdigits2_pos; lia).
  assert (1 <= dp + ep) as Hdpe.
  { destruct (Z.ltb_spec (dp + ep) 1) as [Hlt|]; [|assumption]. exfalso.
    assert (2 ^ dp <= 2 ^ (- ep)) by (apply Z.pow_le_mono_r; lia). lia. }
  set (e' := Z.min (fexp prec emax (dc + ec - (dp + ep))) (ec - ep)).
  assert (e' <= ec) as He'.
  { pose proof (@fexp_le (dc + ec - (dp + ep)) (dc + ec) ltac:(lia)).
    unfold e'. lia. }
  assert (e' <= ec - ep) as He'' by (unfold e'; lia).
  set (s := ec - ep - e').
  assert (0 <= s) as Hs by (unfold s; lia).
  assert (ec - e' = s + ep) as Hse by (unfold s; lia).
  clearbody s e'.
  assert (match s with
          | Z0 => Zpos mc
          | Zpos _ => Z.shiftl (Zpos mc) s
          | Zneg _ => 0
          end = Zpos mc * 2 ^ s) as ->.
  { destruct s as [|k|k]; try lia.
    rewrite Z.shiftl_mul_pow2 by lia. reflexivity. }
  rewrite div_eucl_div_mod. intros [= <- <- _].
  pose proof (Z.pow_pos_nonneg 2 s ltac:(lia) Hs) as Hpow.
  pose proof (Z.mul_div_le (Zpos mc * 2 ^ s) (Zpos mp) ltac:(lia)) as Hq.
  set (q := Zpos mc * 2 ^ s / Zpos mp) in *.
  assert (0 <= q) as Hq0 by (apply Z.div_pos; lia).
  split; [exact Hq0|]. split; [exact He'|].
  rewrite Hse. change (q < Zpos mc * 2 ^ (s + ep)).
  destruct (Z.ltb_spec 0 ep) as [Hpos|Hneg].
  - rewrite Z.pow_add_r by lia.
    assert (2 ^ 1 <= 2 ^ ep) as H2 by (apply Z.pow_le_mono_r; lia).
    change (2 ^ 1) with 2 in H2.
    assert (q <= Zpos mp * q) as Hqq by nia.
    rewrite Z.mul_assoc.
    assert (Zpos mc * 2 ^ s * 2 <= Zpos mc * 2 ^ s * 2 ^ ep) as Hbig
      by (apply Z.mul_le_mono_nonneg_l; lia).
    assert (0 < Zpos mc * 2 ^ s) by (apply Z.mul_pos_pos; lia).
    lia.
  - assert (0 <= s + ep) as Hsep by lia.
    pose proof (Z.pow_pos_nonneg 2 (s + ep) ltac:(lia) Hsep) as HX.
    pose proof (Z.pow_pos_nonneg 2 (- ep) ltac:(lia) ltac:(lia)) as HY.
    assert (2 ^ (s + ep) * 2 ^ (- ep) = 2 ^ s) as E
      by (rewrite <- Z.pow_add_r by lia; f_equal; lia).
    destruct (Z.ltb_spec q (Zpos mc * 2 ^ (s + ep))) as [|Hge]; [assumption|].
    exfalso. nia.
Qed.

Lemma SFleb_refl_finite (m : positive) (e : Z) :
  SFleb (S754_finite false m e) (S754_finite false m e) = true.
Proof.
  unfold SFleb, SFcompare. rewrite Z.compare_refl.
  change (Pos.compare_cont Eq m m) with (m ?= m)%positive.
  now rewrite Pos.compare_refl.
Qed.

(** A valid double whose value is 1 is [1.0]. *)
Lemma value_one (mp : positive) (ep : Z) :
  valid_binary (S754_finite false mp ep) = true ->
  Zpos mp = 2 ^ (- ep) ->
  S754_finite false mp ep = Prim2SF 1.
Proof.
  intros Hv Hp. simpl in Hv. unfold bounded, canonical_mantissa in Hv.
  apply andb_true_iff in Hv. destruct Hv as [Hc _]. apply Z.eqb_eq in Hc.
  assert (0 <= - ep) as Hep.
  { destruct (Z.ltb_spec (- ep) 0); [|assumption].
    rewrite Z.pow_neg_r in Hp by lia. lia. }
  assert (Zdigits2 (Zpos mp) = - ep + 1) as Hd.
  { apply Zdigits2_unique; [|lia].
    replace (- ep + 1 - 1) with (- ep) by lia.
    rewrite Z.pow_add_r by lia. change (2 ^ 1) with 2. lia. }
  change (Zpos (digits2_pos mp)) with (Zdigits2 (Zpos mp)) in Hc.
  rewrite Hd in Hc. unfold fexp, SpecFloat.emin, prec, emax in Hc.
  assert (ep = -52) as -> by lia.
  change (Prim2SF 1) with (S754_finite false 4503599627370496 (-52)).
  f_equal. apply Pos2Z.inj. rewrite Hp. reflexivity.
Qed.

Section DiscountedBelow.

Local Open Scope float_scope.

(** Dividing a positive finite double by a double of at least 1 does not
    increase it. *)
Lemma div_le_dividend (c p : float) :
  (0 <? c) = true -> (c <? infinity) = true ->
  at_least_one (Prim2SF p) ->
  (c / p <=? c) = true.
Proof.
  rewrite !ltb_spec, leb_spec, div_spec.
  change (Prim2SF 0) with (S754_zero false).
  change (Prim2SF infinity) with (S754_infinity false).
  intros Hpos Hfin Hp.
  pose proof (Prim2SF_valid c) as Hvc. pose proof (Prim2SF_valid p) as Hvp.
  destruct (Prim2SF c) as [sc|sc| |sc mc ec] eqn:Ec; try discriminate.
  { destruct sc; discriminate. }
  destruct sc; [discriminate|].
  destruct (Prim2SF p) as [sp|sp| |sp mp ep] eqn:Ep; try contradiction.
  - destruct sp; [contradiction|]. reflexivity.
  - destruct sp; [contradiction|]. simpl in Hp.
    destruct (Z.eq_dec (Zpos mp) (2 ^ (- ep))%Z) as [Hone|Habove].
    + rewrite (@value_one _ _ Hvp Hone), <- Ec, <- div_spec, div_one, Ec.
      apply SFleb_refl_finite.
    + unfold SF64div, SFdiv. change (xorb false false) with false.
      simpl in Hvc. unfold bounded, canonical_mantissa in Hvc.
      apply andb_true_iff in Hvc. destruct Hvc as [Hc Hb].
      apply Z.eqb_eq in Hc. apply Z.leb_le in Hb.
      destruct (SFdiv_core_binary prec emax (Zpos mc) ec (Zpos mp) ep)
        as [[q e] l] eqn:E.
      destruct (@div_core_below mc mp ec ep Hc ltac:(lia) q e l E)
        as (Hq & He & Hlt).
      apply round_le; try assumption.
Qed.

(** In double precision, with a rate that is not negative, the discounted
    value of a positive finite cash flow is at most the cash flow. *)
Lemma discounted_le_binary64 (rate inv : float) (flows : list float)
    (c : calculation) :
  (0 <=? rate) = true ->
  compute_npv rate inv flows = Ok c ->
  forall i c_i d_i,
    nth_error flows i = Some c_i ->
    nth_error (discounted_cash_flows c) i = Some d_i ->
    (0 <? c_i) = true -> (c_i <? infinity) = true ->
    (d_i <=? c_i) = true.
Proof.
  intros Hrate H i c_i d_i Hc Hd Hpos Hfin.
  destruct (compute_npv_returns _ _ _ H) as (r & Hr & Ht & _).
  change (num_div rate num_100) with (Ok (rate / 100)) in Hr.
  inversion Hr; subst r.
  destruct (traverse_nth _ _ Ht _ (enumerate_nth flows 0 i Hc))
    as (y & Hy & Hdisc).
  rewrite Hd in Hy. inversion Hy; subst y. clear Hy.
  simpl fst in Hdisc. simpl snd in Hdisc. unfold discount in Hdisc.
  change (num_add num_1 (rate / 100)) with (1 + rate / 100) in Hdisc.
  rewrite Nat.add_1_r in Hdisc.
  change (num_pow (1 + rate / 100) (S i)) with (pow (1 + rate / 100) (S i))
    in Hdisc.
  destruct (pow (1 + rate / 100) (S i)) as [p|] eqn:Ep; [|discriminate].
  simpl in Hdisc. unfold div in Hdisc.
  destruct (is_zero p); [discriminate|]. inversion Hdisc; subst d_i.
  apply div_le_dividend; try assumption.
  apply (@pow_at_least_one (1 + rate / 100) i p); [|exact Ep].
  apply one_plus_at_least_one, rate_decimal_nonneg, Hrate.
Qed.

End DiscountedBelow.

End Binary64Rounding.

(** ** Double precision *)

Module Binary64Engine.

Import Binary64 Binary64Rounding.
Local Open Scope float_scope.

(** [0 + x] is [x], except that [0 + -0.0] is [0.0]. *)
Lemma add_zero_l (x : float) : same_value (0 + x) x.
Proof.
  pose proof (add_spec 0 x) as H.
  change (Prim2SF 0) with (S754_zero false) in H.
  destruct (Prim2SF x) as [s|s| |s m e] eqn:Ex.
  - right. split; apply is_zero_spec; [|eauto].
    destruct s; simpl in H; eauto.
  - left. apply Prim2SF_inj. now rewrite H, Ex.
  - left. apply Prim2SF_inj. now rewrite H, Ex.
  - left. apply Prim2SF_inj. now rewrite H, Ex.
Qed.

(** Adding the same double to two zeros gives the same double, or two
    zeros. *)
Lemma add_same_value (a b d : float) :
  same_value a b -> same_value (a + d) (b + d).
Proof.
  intros [->|[Ha Hb]]; [now left|].
  apply is_zero_spec in Ha, Hb. destruct Ha as (sa & Ha), Hb as (sb & Hb).
  pose proof (add_spec a d) as Had. pose proof (add_spec b d) as Hbd.
  rewrite Ha in Had. rewrite Hb in Hbd.
  destruct (Prim2SF d) as [s|s| |s m e] eqn:Ed.
  - right. split; apply is_zero_spec.
    + destruct sa, s; simpl in Had; eauto.
    + destruct sb, s; simpl in Hbd; eauto.
  - left. apply Prim2SF_inj. now rewrite Had, Hbd.
  - left. apply Prim2SF_inj. now rewrite Had, Hbd.
  - left. apply Prim2SF_inj. now rewrite Had, Hbd.
Qed.

Lemma fold_same_value (ds : list float) :
  forall a b,
    same_value a b ->
    same_value (fold_left PrimFloat.add ds a) (fold_left PrimFloat.add ds b).
Proof.
  induction ds as [|d rest IH]; intros a b H; simpl; [exact H|].
  apply IH, add_same_value, H.
Qed.

(** In double precision, whenever the callback returns: the discounted
    value of the cash flow [c_i] of period [i + 1] is [c_i / factor] for the
    [factor] that [(1 + r) ** (i + 1)] returns, and [npv] is
    [- initial_investment] with the discounted values added from left to
    right. *)
Lemma npv_formula_binary64 (rate inv : float) (flows : list float)
    (c : calculation) :
  compute_npv rate inv flows = Ok c ->
  (forall i c_i,
      nth_error flows i = Some c_i ->
      exists factor,
        pow (1 + rate / 100) (i + 1) = Ok factor /\
        nth_error (discounted_cash_flows c) i = Some (c_i / factor)) /\
  npv c = fold_left PrimFloat.add (discounted_cash_flows c) (- inv).
Proof.
  intros H.
  destruct (compute_npv_returns _ _ _ H) as (r & Hr & Ht & Hnpv & _).
  change (num_div rate num_100) with (Ok (rate / 100)) in Hr.
  inversion Hr; subst r. split; [|exact Hnpv].
  intros i c_i Hc.
  destruct (traverse_nth _ _ Ht _ (enumerate_nth flows 0 i Hc))
    as (y & Hy & Hdisc).
  simpl fst in Hdisc. simpl snd in Hdisc. unfold discount in Hdisc.
  change (num_pow (num_add num_1 (rate / 100)) (i + 1))
    with (pow (1 + rate / 100) (i + 1)) in Hdisc.
  destruct (pow (1 + rate / 100) (i + 1)) as [p|]; [|discriminate].
  exists p. split; [reflexivity|].
  simpl in Hdisc. unfold div in Hdisc.
  destruct (is_zero p); [discriminate|]. now inversion Hdisc; subst y.
Qed.

(** In double precision, with [sum] adding from left to right: whenever the
    callback returns, the first cumulative value is [- initial_investment]
    and the last one is [npv], up to the sign of a zero. *)
Lemma cumulative_series_binary64 (rate inv : float) (flows : list float)
    (c : calculation) :
  compute_npv rate inv flows = Ok c ->
  List.length (discounted_cash_flows c) = List.length flows /\
  List.length (cumulative_values c) = S (List.length flows) /\
  (exists first, nth_error (cumulative_values c) 0 = Some first /\
                 same_value first (- inv)) /\
  same_value (last (cumulative_values c) 0) (npv c).
Proof.
  intros H.
  destruct (compute_npv_lengths _ _ _ H) as (Hlen & Hcum & _).
  destruct (compute_npv_returns _ _ _ H) as (r & _ & _ & Hnpv & Hvalues).
  repeat split; try assumption.
  - rewrite Hvalues. simpl. eexists. split; [reflexivity|].
    unfold py_sum. simpl. apply add_zero_l.
  - rewrite (cumulative_values_last _ _ _ 0 H), Hnpv.
    apply fold_same_value. simpl. apply add_zero_l.
Qed.

(** The verdict in double precision: [viable] is the test [0 < npv], and
    an [npv] that is zero for [==] is not viable. *)
Lemma viable_binary64 (rate inv : float) (flows : list float)
    (c : calculation) :
  compute_npv rate inv flows = Ok c ->
  viable c = (0 <? npv c) /\
  ((npv c =? 0) = true -> viable c = false).
Proof.
  intros H. destruct (compute_npv_lengths _ _ _ H) as (_ & _ & _ & _ & Hv).
  split; [exact Hv|].
  intros Hz. rewrite Hv. simpl.
  apply is_zero_spec in Hz. destruct Hz as (s & Hs).
  rewrite ltb_spec, Hs. reflexivity.
Qed.

(** C7, as stated, fails in double precision.  With a rate of 0, an
    investment of 1e16 and the cash flows ["1, 1"], the loop adds 1 to
    -1e16 twice, and each sum rounds back to -1e16; [sum(cash_flows) -
    initial_investment] is 2 - 1e16 = -9999999999999998. *)
Lemma zero_rate_identity_rounds :
  (0 <=? 0) = true /\ (0 <=? 1e16) = true /\
  exists c,
    calculate_npv (Some 1%nat) (Some 0) (Some 1e16) "1, 1" = Charts c /\
    bars c = [1; 1] /\
    npv c = -1e16 /\
    py_sum (bars c) - 1e16 = -9999999999999998 /\
    (npv c =? py_sum (bars c) - 1e16) = false.
Proof.
  split; [reflexivity|]. split; [reflexivity|].
  eexists. split; [vm_compute; reflexivity|].
  repeat split; reflexivity.
Qed.

(** C8, as stated, fails in double precision.  With the rate [2^-50] (in
    percent) the decimal rate is positive but [1 + r] rounds to 1, and the
    cash flow 100 is discounted to 100.  With the ordinary rate of 10 % the
    smallest positive double, [5e-324], divided by 1.1, rounds back to
    itself. *)
Lemma discounted_equals_cash_flow :
  (exists r,
      Binary64.div 0x1p-50 100 = Ok r /\ (0 <? r) = true /\ 1 + r = 1) /\
  (exists c,
      calculate_npv (Some 1%nat) (Some 0x1p-50) (Some 0) "100" = Charts c /\
      bars c = [100] /\ discounted_cash_flows c = [100] /\
      (100 <? 100) = false) /\
  (exists c,
      calculate_npv (Some 1%nat) (Some 10) (Some 0) "5e-324" = Charts c /\
      bars c = [0x1p-1074] /\ discounted_cash_flows c = [0x1p-1074] /\
      (0 <? 0x1p-1074) = true /\ (0x1p-1074 <? 0x1p-1074) = false).
Proof.
  split; [|split].
  - eexists. repeat split; reflexivity.
  - eexists. split; [vm_compute; reflexivity|]. repeat split; reflexivity.
  - eexists. split; [vm_compute; reflexivity|]. repeat split; reflexivity.
Qed.

(** C9, as stated, fails in double precision.  With the rate [2^1023]
    (about 9e307, in percent) and two cash flows, the factor of the second
    period, [(1 + r) ** 2], is beyond the doubles: Python raises
    [OverflowError], and the callback does not return. *)
Lemma computation_overflows :
  (0 <=? 0x1p1023) = true /\ (0 <=? 0) = true /\
  Binary64.pow (1 + 0x1p1023 / 100) 2 = Raise OverflowError /\
  calculate_npv (Some 1%nat) (Some 0x1p1023) (Some 0) "1, 1"
    = Uncaught OverflowError.
Proof.
  repeat split; vm_compute; reflexivity.
Qed.

(** The first example of the specification, in double precision. *)
#[local] Set Warnings "-inexact-float".
Example specification_example :
  calculate_npv (Some 1%nat) (Some 10) (Some 5000)
    "1000, 1500, 2000, 2500, 3000"
  = Charts {| years := [1; 2; 3; 4; 5]%nat;
              bars := [1000; 1500; 2000; 2500; 3000];
              discounted_cash_flows :=
                [909.09090909090901; 1239.6694214876031;
                 1502.6296018031551; 1707.5336384126763;
                 1862.7639691774648];
              cumulative_values :=
                [-5000; -4090.909090909091; -2851.2396694214876;
                 -1348.6100676183326; 358.92357079434373;
                 2221.6875399718083];
              npv := 2221.6875399718083;
              viable := true |}.
Proof. vm_compute. reflexivity. Qed.

(** The second example: a rate of zero leaves the cash flows as they are. *)
Example specification_example_zero_rate :
  calculate_npv (Some 1%nat) (Some 0) (Some 5000) "1000, 1000, 1000"
  = Charts {| years := [1; 2; 3]%nat;
              bars := [1000; 1000; 1000];
              discounted_cash_flows := [1000; 1000; 1000];
              cumulative_values := [-5000; -4000; -3000; -2000];
              npv := -2000;
              viable := false |}.
Proof. vm_compute. reflexivity. Qed.

End Binary64Engine.


(** * The claims on the engine, in both arithmetics

    In exact arithmetic the computation returns on every valid input, and
    the claims are stated of what it returns.  In double precision the
    computation returns unless a power overflows (claim C9), and the claims
    are stated of what it returns when it does. *)

(** A rate that is not negative passes the validation. *)
Lemma valid_rate_passes (rate : float) :
  (0 <=? rate)%float = true -> (rate <? 0)%float = false.
Proof.
  rewrite leb_spec, ltb_spec. change (Prim2SF 0) with (S754_zero false).
  destruct (Prim2SF rate) as [s|s| |s m e]; try destruct s; simpl;
    intros H; (reflexivity || discriminate H).
Qed.

(** C1.  The discounted value of the cash flow [c_i] of period [i + 1]
    (the periods count from 1) is [c_i / (1 + r)^(i + 1)] with
    [r = discount_rate / 100], and [npv] is [- initial_investment] plus the
    discounted values: in exact arithmetic on every valid input, with [npv]
    equal to [- initial_investment + sum(discounted)]; in double precision
    with the factor that [**] returns and the discounted values added to
    [- initial_investment] one by one, from left to right. *)
Theorem npv_formula :
  (forall (rate inv : Qc) (flows : list Qc),
      Exact.valid_input rate inv flows ->
      exists c,
        compute_npv rate inv flows = Ok c /\
        (forall i c_i,
            nth_error flows i = Some c_i ->
            nth_error (discounted_cash_flows c) i =
            Some (c_i / (1 + rate / Q2Qc 100) ^ (i + 1))%Qc) /\
        npv c = (- inv + Exact.total (discounted_cash_flows c))%Qc) /\
  (forall (rate inv : float) (flows : list float) (c : calculation),
      compute_npv rate inv flows = Ok c ->
      (forall i c_i,
          nth_error flows i = Some c_i ->
          exists factor,
            Binary64.pow (1 + rate / 100)%float (i + 1) = Ok factor /\
            nth_error (discounted_cash_flows c) i
              = Some (c_i / factor)%float) /\
      npv c = fold_left PrimFloat.add (discounted_cash_flows c) (- inv)%float).
Proof.
  split.
  - apply ExactEngine.npv_formula_exact.
  - apply Binary64Engine.npv_formula_binary64.
Qed.

(** The first example of the specification, in both arithmetics. *)
Lemma npv_formula_witness :
  (exists c,
      compute_npv (Q2Qc 10) (Q2Qc 5000)
        (map Q2Qc [1000#1; 1500#1; 2000#1; 2500#1; 3000#1]%Q) = Ok c /\
      npv c = (- Q2Qc 5000 + Exact.total (discounted_cash_flows c))%Qc) /\
  (exists c,
      compute_npv 10%float 5000%float [1000; 1500; 2000; 2500; 3000]%float
        = Ok c /\
      npv c = fold_left PrimFloat.add (discounted_cash_flows c) (-5000)%float).
Proof.
  split.
  - destruct (proj1 npv_formula _ _ _ ExactEngine.example_valid)
      as (c & Hc & _ & Hnpv).
    exists c. split; assumption.
  - destruct (compute_npv 10%float 5000%float
                [1000; 1500; 2000; 2500; 3000]%float) as [c|e] eqn:E.
    + exists c. split; [reflexivity|].
      exact (proj2 (proj2 npv_formula 10%float 5000%float
                      [1000; 1500; 2000; 2500; 3000]%float c E)).
    + vm_compute in E. discriminate E.
Defined.

(** C2.  There is one discounted value per cash flow and one cumulative
    value more; the first cumulative value is [- initial_investment], and
    the one of index [i >= 1] is the running sum of [- initial_investment]
    and the first [i] discounted values.  In double precision [sum] starts
    from [0], so that the first cumulative value is [0 + (-
    initial_investment)]: that is [- initial_investment] up to the sign of
    a zero. *)
Theorem cumulative_series :
  (forall (rate inv : Qc) (flows : list Qc),
      Exact.valid_input rate inv flows ->
      exists c,
        compute_npv rate inv flows = Ok c /\
        List.length (discounted_cash_flows c) = List.length flows /\
        List.length (cumulative_values c) = (List.length flows + 1)%nat /\
        nth_error (cumulative_values c) 0 = Some (- inv)%Qc /\
        (forall i, (1 <= i <= List.length flows)%nat ->
           nth_error (cumulative_values c) i =
           Some (- inv + Exact.total (firstn i (discounted_cash_flows c)))%Qc)) /\
  (forall (rate inv : float) (flows : list float) (c : calculation),
      compute_npv rate inv flows = Ok c ->
      List.length (discounted_cash_flows c) = List.length flows /\
      List.length (cumulative_values c) = (List.length flows + 1)%nat /\
      (exists first, nth_error (cumulative_values c) 0 = Some first /\
                     Binary64.same_value first (- inv)%float) /\
      (forall i, (i <= List.length flows)%nat ->
         nth_error (cumulative_values c) i =
         Some (fold_left PrimFloat.add (firstn i (discounted_cash_flows c))
                 (0 + - inv)%float))).
Proof.
  split.
  - apply ExactEngine.cumulative_series_exact.
  - intros rate inv flows c H.
    destruct (Binary64Engine.cumulative_series_binary64 _ _ _ H)
      as (Hlen & Hcum & Hfirst & _).
    split; [exact Hlen|]. split; [rewrite Hcum; lia|]. split; [exact Hfirst|].
    intros i Hi.
    destruct (compute_npv_returns _ _ _ H) as (r & _ & _ & _ & ->).
    rewrite nth_error_map, nth_error_seq.
    destruct (Nat.ltb_spec i (S (List.length flows))) as [_|Hge]; [|lia].
    simpl. now rewrite Nat.add_1_r.
Qed.

Lemma cumulative_series_witness :
  (exists c,
      compute_npv (Q2Qc 10) (Q2Qc 5000)
        (map Q2Qc [1000#1; 1500#1; 2000#1; 2500#1; 3000#1]%Q) = Ok c /\
      List.length (cumulative_values c) = 6%nat /\
      nth_error (cumulative_values c) 0 = Some (- Q2Qc 5000)%Qc) /\
  (exists c,
      compute_npv 10%float 5000%float [1000; 1500; 2000; 2500; 3000]%float
        = Ok c /\
      List.length (cumulative_values c) = 6%nat).
Proof.
  split.
  - destruct (proj1 cumulative_series _ _ _ ExactEngine.example_valid)
      as (c & Hc & _ & Hlen & H0 & _).
    exists c. repeat split; assumption.
  - destruct (compute_npv 10%float 5000%float
                [1000; 1500; 2000; 2500; 3000]%float) as [c|e] eqn:E.
    + exists c. split; [reflexivity|].
      exact (proj1 (proj2 (proj2 cumulative_series 10%float 5000%float
                             [1000; 1500; 2000; 2500; 3000]%float c E))).
    + vm_compute in E. discriminate E.
Defined.



(** C6.  The verdict is [viable] exactly when [npv] is greater than zero,
    and an [npv] of zero is not viable: in exact arithmetic on every valid
    input; in double precision, where zero is [0.0] or [-0.0], whenever the
    computation returns. *)
Theorem viable_iff_positive :
  (forall (rate inv : Qc) (flows : list Qc),
      Exact.valid_input rate inv flows ->
      exists c,
        compute_npv rate inv flows = Ok c /\
        (viable c = true <-> (0 < npv c)%Qc) /\
        (npv c = 0%Qc -> viable c = false)) /\
  (forall (rate inv : float) (flows : list float) (c : calculation),
      compute_npv rate inv flows = Ok c ->
      viable c = (0 <? npv c)%float /\
      ((npv c =? 0)%float = true -> viable c = false)).
Proof.
  split.
  - apply ExactEngine.viable_exact.
  - apply Binary64Engine.viable_binary64.
Qed.

(** The break-even input, rate 0, investment 1000 and one cash flow of
    1000, in both arithmetics. *)
Lemma viable_iff_positive_witness :
  (exists c,
      compute_npv 0%Qc (Q2Qc 1000) [Q2Qc 1000] = Ok c /\
      (viable c = true <-> (0 < npv c)%Qc) /\
      (npv c = 0%Qc -> viable c = false)) /\
  (exists c,
      compute_npv 0%float 1000%float [1000%float] = Ok c /\
      (npv c =? 0)%float = true /\ viable c = false).
Proof.
  split.
  - exact (proj1 viable_iff_positive _ _ _ ExactEngine.break_even_valid).
  - destruct (compute_npv 0%float 1000%float [1000%float]) as [c|e] eqn:E.
    + exists c. split; [reflexivity|].
      assert ((npv c =? 0)%float = true) as Hz
        by (vm_compute in E; inversion E; reflexivity).
      split; [exact Hz|].
      exact (proj2 (proj2 viable_iff_positive 0%float 1000%float
                      [1000%float] c E) Hz).
    + vm_compute in E. discriminate E.
Defined.

(** C7, in the form that holds in both arithmetics.  With a rate of zero
    every discounted value is its cash flow, in exact arithmetic and in
    double precision.  In exact
    arithmetic [npv] is then [sum(cash_flows) - initial_investment]; in
    double precision it is [- initial_investment] with the cash flows added
    one by one, from left to right. *)
Theorem zero_rate_identity :
  (forall (rate inv : Qc) (flows : list Qc),
      Exact.valid_input rate inv flows ->
      rate = 0%Qc ->
      exists c,
        compute_npv rate inv flows = Ok c /\
        discounted_cash_flows c = flows /\
        npv c = (Exact.total flows - inv)%Qc) /\
  (forall (rate inv : float) (flows : list float),
      (rate =? 0)%float = true ->
      exists c,
        compute_npv rate inv flows = Ok c /\
        discounted_cash_flows c = flows /\
        npv c = fold_left PrimFloat.add flows (- inv)%float).
Proof.
  split.
  - apply ExactEngine.zero_rate_exact.
  - apply Binary64Rounding.zero_rate_binary64.
Qed.

(** The second example of the specification, rate 0, investment 5000 and
    three cash flows of 1000, in both arithmetics. *)
Lemma zero_rate_identity_witness :
  (exists c,
      compute_npv 0%Qc (Q2Qc 5000) [Q2Qc 1000; Q2Qc 1000; Q2Qc 1000] = Ok c /\
      discounted_cash_flows c = [Q2Qc 1000; Q2Qc 1000; Q2Qc 1000] /\
      npv c = (Exact.total [Q2Qc 1000; Q2Qc 1000; Q2Qc 1000] - Q2Qc 5000)%Qc) /\
  (exists c,
      compute_npv 0%float 5000%float [1000; 1000; 1000]%float = Ok c /\
      discounted_cash_flows c = [1000; 1000; 1000]%float /\
      npv c = (-2000)%float).
Proof.
  split.
  - apply (proj1 zero_rate_identity).
    + repeat split; discriminate.
    + reflexivity.
  - destruct (proj2 zero_rate_identity 0%float 5000%float
                [1000; 1000; 1000]%float eq_refl) as (c & Hc & Hd & Hn).
    exists c. repeat split; assumption.
Defined.

(** C9, in the form that holds in both arithmetics.  On a valid input no
    division of the discounting has a zero divisor, in exact arithmetic and
    in double precision.  In exact
    arithmetic every factor [(1 + r)^(i + 1)] is at least 1 and the
    computation returns.  In double precision, for every rate that passes
    the validation, a factor is not zero when [**] returns it, and the only
    exception the computation can raise is the [OverflowError] of [**]. *)
Theorem engine_total_or_overflow :
  (forall (rate inv : Qc) (flows : list Qc),
      Exact.valid_input rate inv flows ->
      (exists c, compute_npv rate inv flows = Ok c) /\
      num_div rate num_100 = Ok (rate / Q2Qc 100)%Qc /\
      (forall i, exists factor,
          num_pow (num_add num_1 (rate / Q2Qc 100)%Qc) (i + 1) = Ok factor /\
          (1 <= factor)%Qc /\ factor <> 0%Qc /\
          forall x, num_div x factor = Ok (x / factor)%Qc)) /\
  (forall (rate inv : float) (flows : list float),
      (rate <? 0)%float = false ->
      num_div rate num_100 = Ok (rate / 100)%float /\
      (forall i,
          num_pow (1 + rate / 100)%float (i + 1) = Raise OverflowError \/
          exists factor,
            num_pow (1 + rate / 100)%float (i + 1) = Ok factor /\
            is_zero factor = false /\
            forall x, num_div x factor = Ok (x / factor)%float) /\
      (forall e, compute_npv rate inv flows = Raise e -> e = OverflowError)).
Proof.
  split.
  - apply ExactEngine.exact_total.
  - intros rate inv flows Hrate. split; [reflexivity|]. split.
    + intros i.
      destruct (Binary64Rounding.pow_safe_base (i + 1)
                  (Binary64Rounding.base_safe Hrate)) as [H|(p & Hp & Hz)].
      * now left.
      * right. exists p. split; [exact Hp|]. split; [exact Hz|].
        intros x. simpl. unfold Binary64.div. now rewrite Hz.
    + intros e. apply Binary64Rounding.compute_npv_raises_overflow, Hrate.
Qed.

(** The first example of the specification returns in both arithmetics. *)
Lemma engine_total_or_overflow_witness :
  (exists c,
      compute_npv (Q2Qc 10) (Q2Qc 5000)
        (map Q2Qc [1000#1; 1500#1; 2000#1; 2500#1; 3000#1]%Q) = Ok c) /\
  (forall e,
      compute_npv 10%float 5000%float [1000; 1500; 2000; 2500; 3000]%float
        = Raise e -> e = OverflowError).
Proof.
  split.
  - exact (proj1 (proj1 engine_total_or_overflow _ _ _
                    ExactEngine.example_valid)).
  - exact (proj2 (proj2 (proj2 engine_total_or_overflow 10%float 5000%float
                           [1000; 1500; 2000; 2500; 3000]%float eq_refl))).
Defined.

(** C8, in the form that holds in both arithmetics.  With a rate greater
    than zero and cash flows greater than zero, every discounted value is
    smaller than its cash flow in exact arithmetic.  In double precision, with a rate that is not
    negative, the discounted value of a positive finite cash flow is at most
    the cash flow, whenever the computation returns. *)
Theorem discounted_below_cash_flow :
  (forall (rate inv : Qc) (flows : list Qc),
      Exact.valid_input rate inv flows ->
      (0 < rate)%Qc ->
      (forall c_i, In c_i flows -> (0 < c_i)%Qc) ->
      exists c,
        compute_npv rate inv flows = Ok c /\
        List.length (discounted_cash_flows c) = List.length flows /\
        (forall i c_i d_i,
            nth_error flows i = Some c_i ->
            nth_error (discounted_cash_flows c) i = Some d_i ->
            (d_i < c_i)%Qc)) /\
  (forall (rate inv : float) (flows : list float) (c : calculation),
      (0 <=? rate)%float = true ->
      compute_npv rate inv flows = Ok c ->
      List.length (discounted_cash_flows c) = List.length flows /\
      (forall i c_i d_i,
          nth_error flows i = Some c_i ->
          nth_error (discounted_cash_flows c) i = Some d_i ->
          (0 <? c_i)%float = true -> (c_i <? infinity)%float = true ->
          (d_i <=? c_i)%float = true)).
Proof.
  split.
  - apply ExactEngine.discounted_below_exact.
  - intros rate inv flows c Hrate H. split.
    + apply (compute_npv_lengths _ _ _ H).
    + now apply (Binary64Rounding.discounted_le_binary64 _ _ Hrate H).
Qed.

(** The first example of the specification, in both arithmetics. *)
Lemma discounted_below_cash_flow_witness :
  (exists c,
      compute_npv (Q2Qc 10) (Q2Qc 5000)
        (map Q2Qc [1000#1; 1500#1; 2000#1; 2500#1; 3000#1]%Q) = Ok c /\
      List.length (discounted_cash_flows c) = 5%nat) /\
  (exists c,
      compute_npv 10%float 5000%float [1000; 1500; 2000; 2500; 3000]%float
        = Ok c /\
      forall d_1,
        nth_error (discounted_cash_flows c) 0 = Some d_1 ->
        (d_1 <=? 1000)%float = true).
Proof.
  split.
  - destruct (proj1 discounted_below_cash_flow (Q2Qc 10) (Q2Qc 5000)
                (map Q2Qc [1000#1; 1500#1; 2000#1; 2500#1; 3000#1]%Q))
      as (c & Hc & Hlen & _).
    + exact ExactEngine.example_valid.
    + reflexivity.
    + simpl. intros c_i H.
      repeat (destruct H as [<-|H]; [reflexivity|]). contradiction.
    + exists c. split; assumption.
  - destruct (compute_npv 10%float 5000%float
                [1000; 1500; 2000; 2500; 3000]%float) as [c|e] eqn:E.
    + exists c. split; [reflexivity|]. intros d_1 Hd.
      exact (proj2 (proj2 discounted_below_cash_flow 10%float 5000%float
                      [1000; 1500; 2000; 2500; 3000]%float c eq_refl E)
               0%nat 1000%float d_1 eq_refl Hd eq_refl eq_refl).
    + vm_compute in E. discriminate E.
Defined.

(** * The rest of the application *)

(** ** Integers as text, read back by [float] *)

Module TextFacts.

Import Decimal DecimalDigits.

Lemma digit_run_uint (d : uint) :
  FloatSyntax.digit_run (DecimalString.NilEmpty.string_of_uint d)
  = (uint_digits d, EmptyString).
Proof.
  induction d; simpl; try reflexivity;
    change (FloatSyntax.digit_of _) with (Some 0%N) ||
    idtac; cbn; rewrite IHd; reflexivity.
Qed.

Lemma digitpart_uint (d : uint) :
  FloatSyntax.digitpart (DecimalString.NilEmpty.string_of_uint d)
  = (uint_digits d, EmptyString).
Proof.
  destruct d; simpl; try reflexivity; cbn; rewrite digit_run_uint; reflexivity.
Qed.

Lemma fold_digits_acc (d : uint) :
  forall acc : positive,
    fold_left (fun a x => (10 * a + x)%N) (uint_digits d) (Npos acc)
    = Npos (Pos.of_uint_acc d acc).
Proof.
  induction d; intros acc; cbn [uint_digits fold_left Pos.of_uint_acc];
    try reflexivity; rewrite <- IHd; f_equal; lia.
Qed.

Lemma digits_value_uint (d : uint) :
  FloatSyntax.digits_value (uint_digits d) = N.of_uint d.
Proof.
  unfold FloatSyntax.digits_value, N.of_uint.
  induction d; simpl; try reflexivity; try apply fold_digits_acc.
  exact IHd.
Qed.


(** A string without white space at its two ends is left as it is. *)
Lemma lstrip_first (c : ascii) (s : string) :
  PyStr.is_space c = false -> PyStr.lstrip (String c s) = String c s.
Proof. intros H. simpl. now rewrite H. Qed.

Lemma rstrip_no_space (s : string) :
  (forall c, PyStr.last_char s = Some c -> PyStr.is_space c = false) ->
  PyStr.rstrip s = s.
Proof.
  induction s as [|a s IH]; intros H; [reflexivity|].
  simpl. destruct s as [|b s'].
  - simpl. rewrite (H a eq_refl). reflexivity.
  - rewrite IH; [reflexivity|]. intros c Hc. apply H. exact Hc.
Qed.

Lemma digit_not_space (c : ascii) :
  is_digit c = true -> PyStr.is_space c = false.
Proof.
  unfold is_digit, FloatSyntax.digit_of, PyStr.is_space.
  destruct (N_of_ascii c <=? 57)%N eqn:H1, (48 <=? N_of_ascii c)%N eqn:H2;
    simpl; try discriminate.
  intros _. apply N.leb_le in H1, H2.
  repeat match goal with
         | |- context [(?a <=? ?b)%N] => destruct (N.leb_spec a b)
         | |- context [(?a =? ?b)%N] => destruct (N.eqb_spec a b)
         end; simpl; try reflexivity; lia.
Qed.

Lemma all_digits_last (s : string) (c : ascii) :
  all_digits s = true -> PyStr.last_char s = Some c -> is_digit c = true.
Proof.
  induction s as [|a s IH]; simpl; [discriminate|].
  intros H Hc. apply andb_true_iff in H as [Ha Hs].
  destruct s as [|b s']; [now inversion Hc; subst|]. now apply IH.
Qed.

Lemma string_of_uint_digits (d : uint) :
  all_digits (DecimalString.NilEmpty.string_of_uint d) = true.
Proof. induction d; simpl; try reflexivity; exact IHd. Qed.

Lemma to_uint_digits (p : positive) :
  exists c rest,
    DecimalString.NilEmpty.string_of_uint (Pos.to_uint p) = String c rest /\
    is_digit c = true /\ all_digits rest = true /\
    DecimalString.NilZero.string_of_uint (Pos.to_uint p) = String c rest.
Proof.
  pose proof (DecimalPos.Unsigned.to_uint_nonnil p) as Hnil.
  pose proof (string_of_uint_digits (Pos.to_uint p)) as Hd.
  destruct (Pos.to_uint p) eqn:E; [congruence| ..];
    simpl in *; eexists _, _; (split; [reflexivity|]); repeat split;
      exact Hd.
Qed.


Lemma strip_digits (c : ascii) (rest : string) :
  is_digit c = true -> all_digits rest = true ->
  PyStr.strip (String c rest) = String c rest.
Proof.
  intros Hc Hrest. unfold PyStr.strip.
  rewrite lstrip_first by now apply digit_not_space.
  apply rstrip_no_space. intros a Ha. apply digit_not_space.
  apply (@all_digits_last (String c rest)); [|exact Ha].
  simpl. now rewrite Hc, Hrest.
Qed.

Lemma strip_minus_digits (c : ascii) (rest : string) :
  is_digit c = true -> all_digits rest = true ->
  PyStr.strip (String "-" (String c rest)) = String "-" (String c rest).
Proof.
  intros Hc Hrest. unfold PyStr.strip.
  rewrite lstrip_first by reflexivity.
  apply rstrip_no_space. intros a Ha. apply digit_not_space.
  apply (@all_digits_last (String c rest)); [|exact Ha].
  simpl. now rewrite Hc, Hrest.
Qed.

Lemma sign_digit (c : ascii) (rest : string) :
  is_digit c = true ->
  FloatSyntax.sign (String c rest) = (false, String c rest).
Proof.
  destruct c as [[] [] [] [] [] [] [] []]; try discriminate; reflexivity.
Qed.

Lemma digit_word (c : ascii) (rest : string) :
  is_digit c = true ->
  (String.eqb (PyStr.lower (String c rest)) "inf"
   || String.eqb (PyStr.lower (String c rest)) "infinity") = false /\
  String.eqb (PyStr.lower (String c rest)) "nan" = false.
Proof.
  destruct c as [[] [] [] [] [] [] [] []]; try discriminate;
    intros _; split; reflexivity.
Qed.

Lemma floatnumber_uint (negative : bool) (d : uint) :
  d <> Nil ->
  FloatSyntax.floatnumber negative (DecimalString.NilEmpty.string_of_uint d)
  = Some (FloatSyntax.Decimal negative (N.of_uint d) 0).
Proof.
  intros Hd. unfold FloatSyntax.floatnumber.
  rewrite digitpart_uint. cbv beta iota. rewrite app_nil_r.
  rewrite <- digits_value_uint.
  destruct (uint_digits d) eqn:E; [destruct d; simpl in E; congruence|].
  reflexivity.
Qed.

(** [float(str(n))] for a positive [n] and for its opposite. *)
Lemma parse_str_pos (p : positive) :
  FloatSyntax.parse (PyText.str (Zpos p))
  = Some (FloatSyntax.Decimal false (Npos p) 0) /\
  FloatSyntax.parse (PyText.str (Zneg p))
  = Some (FloatSyntax.Decimal true (Npos p) 0).
Proof.
  destruct (to_uint_digits p) as (c & rest & E & Hc & Hrest & E0).
  pose proof (@floatnumber_uint false (Pos.to_uint p)
                (DecimalPos.Unsigned.to_uint_nonnil p)) as Hf.
  pose proof (@floatnumber_uint true (Pos.to_uint p)
                (DecimalPos.Unsigned.to_uint_nonnil p)) as Ht.
  unfold N.of_uint in Hf, Ht. rewrite DecimalPos.Unsigned.of_to in Hf, Ht.
  rewrite E in Hf, Ht.
  destruct (@digit_word c rest Hc) as [Hinf Hnan].
  unfold FloatSyntax.parse, PyText.str. cbn [Z.to_int DecimalString.NilZero.string_of_int].
  rewrite E0. split.
  - rewrite strip_digits, sign_digit by assumption.
    rewrite Hinf, Hnan. exact Hf.
  - rewrite strip_minus_digits by assumption.
    cbn [FloatSyntax.sign]. rewrite Hinf, Hnan. exact Ht.
Qed.


Lemma parse_str (n : Z) :
  FloatSyntax.parse (PyText.str n) = Some (PyText.literal_of_int n).
Proof.
  destruct n as [|p|p]; [reflexivity| |]; apply parse_str_pos.
Qed.

(** [str(n)] has no white space at its ends and no comma. *)
Lemma strip_str (n : Z) : PyStr.strip (PyText.str n) = PyText.str n.
Proof.
  destruct n as [|p|p]; [reflexivity| |];
    destruct (to_uint_digits p) as (c & rest & _ & Hc & Hrest & E0);
    unfold PyText.str; cbn [Z.to_int DecimalString.NilZero.string_of_int];
    rewrite E0; [now apply strip_digits | now apply strip_minus_digits].
Qed.

Lemma split_cons (sep c : ascii) (s : string) :
  Ascii.eqb c sep = false ->
  PyStr.split sep (String c s) =
  String c (hd EmptyString (PyStr.split sep s)) :: tl (PyStr.split sep s).
Proof.
  intros H. simpl. rewrite H.
  destruct (PyStr.split sep s) eqn:E; [now apply split_not_nil in E|].
  reflexivity.
Qed.

Lemma digit_not_comma (c : ascii) : is_digit c = true -> Ascii.eqb c "," = false.
Proof.
  destruct c as [[] [] [] [] [] [] [] []]; try discriminate; reflexivity.
Qed.

Lemma split_digits (s : string) :
  all_digits s = true -> PyStr.split "," s = [s].
Proof.
  induction s as [|c s IH]; [reflexivity|].
  simpl all_digits. intros H. apply andb_true_iff in H as [Hc Hs].
  rewrite split_cons by now apply digit_not_comma.
  rewrite (IH Hs). reflexivity.
Qed.

Lemma split_str (n : Z) : PyStr.split "," (PyText.str n) = [PyText.str n].
Proof.
  destruct n as [|p|p]; [reflexivity| |];
    destruct (to_uint_digits p) as (c & rest & _ & Hc & Hrest & E0);
    unfold PyText.str; cbn [Z.to_int DecimalString.NilZero.string_of_int];
    rewrite E0.
  - apply split_digits. simpl. now rewrite Hc, Hrest.
  - rewrite split_cons by reflexivity.
    rewrite split_digits by (simpl; now rewrite Hc, Hrest). reflexivity.
Qed.

(** The tokens of [', '.join(map(str, flows))]: the first numeral, and every
    other numeral after one space. *)
Lemma split_cash_flows_text (n : Z) (flows : list Z) :
  PyStr.split "," (cash_flows_text (n :: flows)) =
  PyText.str n :: map (fun m => String " " (PyText.str m)) flows.
Proof.
  revert n. induction flows as [|m flows IH]; intros n.
  - apply split_str.
  - unfold cash_flows_text in *.
    change (PyText.join ", " (map PyText.str (n :: m :: flows)))
      with (PyText.str n ++
            String "," (String " " (PyText.join ", " (map PyText.str (m :: flows)))))%string.
    rewrite split_app, split_str. cbn [app].
    rewrite split_cons by reflexivity.
    rewrite (IH m). reflexivity.
Qed.

End TextFacts.

Section ReadBack.

Context {num : Type} {arith : Arith num} {literals : Literals num}.

Lemma py_float_str (n : Z) :
  py_float (PyText.str n) = Some (num_of_literal (PyText.literal_of_int n)).
Proof. unfold py_float. now rewrite TextFacts.parse_str. Qed.

Lemma floats_of_spaced_tokens (flows : list Z) :
  floats_of_tokens (map (fun m => String " " (PyText.str m)) flows) =
  Some (map (fun m => num_of_literal (PyText.literal_of_int m)) flows).
Proof.
  induction flows as [|m flows IH]; [reflexivity|].
  cbn [map floats_of_tokens].
  replace (PyStr.strip (String " " (PyText.str m))) with (PyText.str m)
    by (symmetry; apply TextFacts.strip_str).
  now rewrite py_float_str, IH.
Qed.

Lemma floats_of_cash_flows_text (n : Z) (flows : list Z) :
  floats_of_tokens (PyStr.split "," (cash_flows_text (n :: flows))) =
  Some (map (fun m => num_of_literal (PyText.literal_of_int m)) (n :: flows)).
Proof.
  rewrite TextFacts.split_cash_flows_text. cbn [map floats_of_tokens].
  rewrite TextFacts.strip_str, py_float_str, floats_of_spaced_tokens.
  reflexivity.
Qed.

End ReadBack.

(** ** The random cash flows and the reset *)

Lemma lcg_in_range : randint_in_range Lcg.source.
Proof.
  intros a b g Hab. unfold randint, Lcg.source, Lcg.randint. cbn [fst].
  pose proof (Z.mod_pos_bound (Z.of_N g) (b - a + 1) ltac:(lia)). lia.
Qed.

Section RandomFacts.

Context {rng : Type} {source : RandomSource rng}.
Hypothesis contract : randint_in_range source.

Lemma generate_random_cash_flows_spec (num_flows : nat) :
  forall g : rng,
    List.length (fst (generate_random_cash_flows num_flows g)) = num_flows /\
    Forall (fun flow => 500 <= flow <= 5000)%Z
      (fst (generate_random_cash_flows num_flows g)).
Proof.
  induction num_flows as [|n IH]; intros g; [split; [reflexivity|constructor]|].
  cbn [generate_random_cash_flows].
  assert (500 <= fst (randint 500 5000 g) <= 5000)%Z as Hr
    by (apply contract; lia).
  destruct (randint 500 5000 g) as [flow g1].
  specialize (IH g1). destruct (generate_random_cash_flows n g1) as [flows g2].
  cbn [fst] in *. destruct IH as [Hlen Hall]. split.
  - simpl. now rewrite Hlen.
  - constructor; assumption.
Qed.

End RandomFacts.

Lemma small_flows_exact :
  forallb small_flow_exact (seq 500 4501) = true.
Proof. vm_compute. reflexivity. Qed.

Lemma small_flow_double (n : Z) :
  (500 <= n <= 5000)%Z ->
  Binary64.of_literal (PyText.literal_of_int n)
  = PrimFloat.of_uint63 (Uint63.of_Z n).
Proof.
  intros Hn.
  pose proof small_flows_exact as H. rewrite forallb_forall in H.
  specialize (H (Z.to_nat n)). unfold small_flow_exact in H.
  rewrite Z2Nat.id in H by lia.
  apply Leibniz.eqb_spec, H, in_seq. lia.
Qed.

(** ** When the computation returns *)

Section ReturnFacts.

Context {num : Type} {arith : Arith num}.

Lemma traverse_returns_iff {A B : Type} (f : A -> result B) (xs : list A) :
  (exists ys, traverse f xs = Ok ys) <->
  (forall x, In x xs -> exists y, f x = Ok y).
Proof.
  induction xs as [|x xs IH]; simpl.
  - split; [intros _ x []|intros _; now exists []].
  - split.
    + intros [ys H] x' [<-|Hin].
      * destruct (f x) as [y|e]; [now exists y|discriminate H].
      * apply IH; [|exact Hin].
        destruct (f x) as [y|e]; [|discriminate H]. simpl in H.
        destruct (traverse f xs) as [ys'|e]; [now exists ys'|discriminate H].
    + intros H. destruct (H x (or_introl eq_refl)) as [y Hy].
      destruct (proj2 IH (fun x' Hin => H x' (or_intror Hin))) as [ys Hys].
      exists (y :: ys). now rewrite Hy, Hys.
Qed.

Lemma traverse_raises {A B : Type} (f : A -> result B) (xs : list A)
    (e : exception) :
  traverse f xs = Raise e -> exists x, In x xs /\ f x = Raise e.
Proof.
  induction xs as [|x xs IH]; simpl; [discriminate|].
  destruct (f x) as [y|e'] eqn:E; simpl.
  - destruct (traverse f xs) as [ys|e'']; simpl; [discriminate|].
    intros H. inversion H; subst. destruct (IH eq_refl) as (x' & Hin & Hx').
    exists x'. split; [now right|exact Hx'].
  - intros H. inversion H; subst. exists x. split; [now left|exact E].
Qed.

Lemma in_enumerate {A : Type} (xs : list A) :
  forall (k i : nat) (x : A),
    In (i, x) (enumerate k xs) <->
    (k <= i)%nat /\ nth_error xs (i - k) = Some x.
Proof.
  unfold enumerate.
  induction xs as [|a xs IH]; intros k i x; simpl.
  - split; [intros []|]. intros [_ H]. destruct (i - k)%nat; discriminate H.
  - rewrite IH. split.
    + intros [H|[Hk Hn]].
      * inversion H; subst. split; [lia|]. now rewrite Nat.sub_diag.
      * split; [lia|]. replace (i - k)%nat with (S (i - S k)) by lia. exact Hn.
    + intros [Hk Hn]. destruct (i - k)%nat as [|j] eqn:Ej.
      * left. inversion Hn; subst. f_equal. lia.
      * right. split; [lia|]. replace (i - S k)%nat with j by lia. exact Hn.
Qed.

Lemma compute_npv_returns_iff (rate inv : num) (flows : list num) :
  (exists c, compute_npv rate inv flows = Ok c) <->
  exists r,
    num_div rate num_100 = Ok r /\
    forall i x, nth_error flows i = Some x ->
                exists d, discount (num_add num_1 r) i x = Ok d.
Proof.
  unfold compute_npv. split.
  - intros [c H]. destruct (num_div rate num_100) as [r|e]; [|discriminate H].
    exists r. split; [reflexivity|]. rewrite bind_Ok, discount_loop_spec in H.
    intros i x Hx.
    apply (proj1 (traverse_returns_iff
                    (fun ic => discount (num_add num_1 r) (fst ic) (snd ic))
                    (enumerate 0 flows))) with (x := (i, x)).
    + destruct (traverse _ (enumerate 0 flows)) as [ds|e];
        [now exists ds|discriminate H].
    + apply in_enumerate. split; [lia|]. now rewrite Nat.sub_0_r.
  - intros (r & Hr & H). rewrite Hr, bind_Ok, discount_loop_spec.
    destruct (proj2 (traverse_returns_iff
                       (fun ic => discount (num_add num_1 r) (fst ic) (snd ic))
                       (enumerate 0 flows))) as [ds Hds].
    + intros [i x] Hin. apply in_enumerate in Hin as [_ Hn].
      rewrite Nat.sub_0_r in Hn. exact (H i x Hn).
    + rewrite Hds. simpl. eexists. reflexivity.
Qed.

End ReturnFacts.

Module Binary64Returns.

Import Binary64 Binary64Rounding.
Local Open Scope float_scope.

Lemma discount_returns_iff (rate : float) (i : nat) (x : float) :
  (rate <? 0) = false ->
  (exists d, discount (1 + rate / 100) i x = Ok d) <->
  (exists factor, pow (1 + rate / 100) (i + 1) = Ok factor).
Proof.
  intros Hrate. unfold discount. cbn [num_pow num_div arith].
  split.
  - intros [d H]. destruct (pow (1 + rate / 100) (i + 1)) as [f|e];
      [now exists f|discriminate H].
  - intros [f Hf]. rewrite Hf. simpl.
    destruct (pow_safe_base (i + 1) (base_safe Hrate)) as [H|(p & Hp & Hz)];
      [congruence|].
    assert (p = f) by congruence. subst p.
    unfold div. rewrite Hz. now eexists.
Qed.

Lemma returns_iff_no_overflow (rate inv : float) (flows : list float) :
  (rate <? 0) = false ->
  (exists c, compute_npv rate inv flows = Ok c) <->
  (forall i, (i < List.length flows)%nat ->
             exists factor, pow (1 + rate / 100) (i + 1) = Ok factor).
Proof.
  intros Hrate. rewrite compute_npv_returns_iff. split.
  - intros (r & Hr & H) i Hi. inversion Hr; subst r.
    destruct (nth_error flows i) as [x|] eqn:Ex;
      [|apply nth_error_None in Ex; lia].
    apply (discount_returns_iff i x Hrate), H, Ex.
  - intros H. exists (rate / 100). split; [reflexivity|].
    intros i x Hx. apply (discount_returns_iff i x Hrate), H.
    apply nth_error_Some. congruence.
Qed.

Lemma raises_iff_overflow (rate inv : float) (flows : list float) :
  (rate <? 0) = false ->
  compute_npv rate inv flows = Raise OverflowError <->
  (exists i, (i < List.length flows)%nat /\
             pow (1 + rate / 100) (i + 1) = Raise OverflowError).
Proof.
  intros Hrate. pose proof (returns_iff_no_overflow inv flows Hrate) as Hiff.
  split.
  - intros H.
    destruct (compute_npv rate inv flows) as [c|e] eqn:E; [discriminate|].
    clear H.
    assert (~ forall i, (i < List.length flows)%nat ->
                exists factor, pow (1 + rate / 100) (i + 1) = Ok factor) as Hn.
    { intros Hall. apply Hiff in Hall as [c Hc]. discriminate Hc. }
    clear Hiff E e.
    induction flows as [|x flows IH] using rev_ind.
    + exfalso. apply Hn. intros i Hi. simpl in Hi. lia.
    + rewrite length_app, Nat.add_1_r.
      destruct (pow (1 + rate / 100) (List.length flows + 1)) as [f|e] eqn:Ef.
      * destruct IH as (i & Hi & Hp).
        -- intros Hall. apply Hn. intros i Hi.
           rewrite length_app, Nat.add_1_r in Hi.
           destruct (Nat.eq_dec i (List.length flows)) as [->|Hne];
             [now exists f|]. apply Hall. lia.
        -- exists i. split; [lia|exact Hp].
      * exists (List.length flows). split; [lia|].
        rewrite Ef. f_equal. now apply (pow_raises_overflow _ _ Ef).
  - intros (i & Hi & Hp).
    destruct (compute_npv rate inv flows) as [c|e] eqn:E.
    + destruct (proj1 Hiff (ex_intro _ c eq_refl) i Hi) as [f Hf]. congruence.
    + f_equal. exact (compute_npv_raises_overflow Hrate _ _ E).
Qed.

End Binary64Returns.

(** ** Tokens and white space *)

Lemma split_count (sep : ascii) (s : string) :
  List.length (PyStr.split sep s) = S (PyText.count sep s).
Proof.
  induction s as [|c s IH]; [reflexivity|]. simpl.
  destruct (Ascii.eqb c sep); simpl; [now rewrite IH|].
  destruct (PyStr.split sep s); simpl in *; [discriminate IH|exact IH].
Qed.

Lemma lstrip_all_space (l : string) :
  PyStr.all_space l = true -> forall s, PyStr.lstrip (l ++ s) = PyStr.lstrip s.
Proof.
  induction l as [|c l IH]; simpl; [reflexivity|].
  intros H s. apply andb_true_iff in H as [Hc Hl]. rewrite Hc. now apply IH.
Qed.

Lemma rstrip_all_space (r : string) :
  PyStr.all_space r = true -> PyStr.rstrip r = EmptyString.
Proof.
  induction r as [|c r IH]; simpl; [reflexivity|].
  intros H. apply andb_true_iff in H as [Hc Hr]. now rewrite (IH Hr), Hc.
Qed.

Lemma rstrip_app_space (r : string) :
  PyStr.all_space r = true -> forall s, PyStr.rstrip (s ++ r) = PyStr.rstrip s.
Proof.
  intros Hr. induction s as [|c s IH]; simpl.
  - now apply rstrip_all_space.
  - now rewrite IH.
Qed.

Lemma lstrip_idempotent (s : string) :
  PyStr.lstrip (PyStr.lstrip s) = PyStr.lstrip s.
Proof.
  induction s as [|c s IH]; [reflexivity|]. simpl.
  destruct (PyStr.is_space c) eqn:E; [exact IH|]. simpl. now rewrite E.
Qed.

Lemma strip_padded (l r t : string) :
  PyStr.all_space l = true -> PyStr.all_space r = true ->
  PyStr.strip (l ++ t ++ r) = PyStr.strip t.
Proof.
  intros Hl Hr. unfold PyStr.strip. rewrite (@lstrip_all_space l Hl).
  induction t as [|c t IH]; cbn [append PyStr.lstrip].
  - destruct (lstrip_spec r) as (l' & Heq & Hl' & _).
    assert (PyStr.all_space (PyStr.lstrip r) = true) as Hs.
    { clear - Hr. induction r as [|c r IH]; [reflexivity|]. simpl in *.
      apply andb_true_iff in Hr as [Hc Hr]. rewrite Hc. now apply IH. }
    now rewrite rstrip_all_space.
  - destruct (PyStr.is_space c); [exact IH|].
    change (String c (t ++ r)) with (String c t ++ r)%string.
    now apply rstrip_app_space.
Qed.

Lemma rstrip_first_kept (s : string) (c : ascii) :
  PyStr.is_space c = false ->
  PyStr.first_char s = Some c -> PyStr.first_char (PyStr.rstrip s) = Some c.
Proof.
  intros Hc Hs. destruct (rstrip_spec s) as (r & _ & _ & _ & H). now apply H.
Qed.

Lemma strip_idempotent (s : string) :
  PyStr.strip (PyStr.strip s) = PyStr.strip s.
Proof.
  unfold PyStr.strip.
  destruct (lstrip_spec s) as (l & _ & _ & Hfirst).
  set (t := PyStr.lstrip s) in *.
  assert (PyStr.lstrip (PyStr.rstrip t) = PyStr.rstrip t) as ->.
  { destruct (PyStr.rstrip t) as [|c u] eqn:E; [reflexivity|].
    assert (PyStr.first_char t = Some c) as Hc.
    { destruct t as [|a t']; [discriminate E|]. simpl in E.
      destruct (PyStr.rstrip t'); [destruct (PyStr.is_space a)|];
        inversion E; reflexivity. }
    simpl. now rewrite (Hfirst c Hc). }
  destruct (rstrip_spec t) as (r & _ & _ & Hlast & _).
  now apply TextFacts.rstrip_no_space.
Qed.

Section TokenFacts.

Context {num : Type} {arith : Arith num} {literals : Literals num}.

Lemma py_float_strip (s : string) : py_float (PyStr.strip s) = py_float s.
Proof.
  unfold py_float, FloatSyntax.parse. now rewrite strip_idempotent.
Qed.

Lemma floats_of_stripped_tokens (tokens tokens' : list string) :
  map PyStr.strip tokens = map PyStr.strip tokens' ->
  floats_of_tokens tokens = floats_of_tokens tokens'.
Proof.
  revert tokens'. induction tokens as [|c tokens IH]; intros [|c' tokens'] H;
    simpl in H; try discriminate H; [reflexivity|].
  inversion H as [[Hc Hrest]]. simpl. rewrite Hc, (IH _ Hrest). reflexivity.
Qed.

End TokenFacts.

Section CallbackFacts.

Context {num : Type} {arith : Arith num} {literals : Literals num}.

Lemma validate_accepted (rate inv : option num) (s : string)
    (r i : num) (flows : list num) :
  validate rate inv s = Accepted r i flows <->
  rate = Some r /\ inv = Some i /\
  num_ltb r num_0 = false /\ num_ltb i num_0 = false /\
  floats_of_tokens (PyStr.split "," s) = Some flows.
Proof.
  unfold validate. split.
  - destruct rate as [r'|]; [|discriminate].
    destruct (num_ltb r' num_0) eqn:Hr; [discriminate|].
    destruct inv as [i'|]; [|discriminate].
    destruct (num_ltb i' num_0) eqn:Hi; [discriminate|].
    destruct (floats_of_tokens (PyStr.split "," s)) as [xs|]; [|discriminate].
    destruct (List.length xs =? 0)%nat; [discriminate|].
    intros H. inversion H; subst. repeat split; assumption.
  - intros (-> & -> & Hr & Hi & Hf). rewrite Hr, Hi, Hf.
    destruct flows as [|x flows]; [|reflexivity].
    destruct (PyStr.split "," s) as [|c tokens] eqn:E;
      [now apply split_not_nil in E|].
    simpl in Hf. destruct (py_float (PyStr.strip c)); [|discriminate Hf].
    destruct (floats_of_tokens tokens); discriminate Hf.
Qed.

Lemma charts_inversion (n : option nat) (rate inv : option num) (s : string)
    (c : calculation) :
  calculate_npv n rate inv s = Charts c ->
  exists r i flows,
    validate rate inv s = Accepted r i flows /\
    compute_npv r i flows = Ok c.
Proof.
  unfold calculate_npv. destruct n as [k|]; [|discriminate].
  destruct (validate rate inv s) as [e|r i flows]; [discriminate|].
  destruct (compute_npv r i flows) as [c'|e] eqn:E; [|discriminate].
  intros H. inversion H; subst. now exists r, i, flows.
Qed.

End CallbackFacts.

(** One cash flow per comma, and one more: when the callback returns the
    charts for a text with [k] commas, the bar chart has [k + 1] bars, for
    the years 1 to [k + 1], and the line has [k + 2] points. *)
Theorem one_cash_flow_per_comma :
  forall (num : Type) (arith : Arith num) (literals : Literals num)
         (n : option nat) (rate inv : option num) (s : string)
         (c : calculation),
    calculate_npv n rate inv s = Charts c ->
    List.length (bars c) = S (PyText.count "," s) /\
    years c = seq 1 (S (PyText.count "," s)) /\
    List.length (discounted_cash_flows c) = S (PyText.count "," s) /\
    List.length (cumulative_values c) = S (S (PyText.count "," s)).
Proof.
  intros num arith literals n rate inv s c H.
  apply charts_inversion in H as (r & i & flows & Hv & Hc).
  apply validate_accepted in Hv as (_ & _ & _ & _ & Hf).
  apply floats_of_tokens_length in Hf. rewrite split_count in Hf.
  destruct (compute_npv_lengths _ _ _ Hc) as (Hd & Hcum & Hy & Hb & _).
  rewrite Hb, Hy, Hd, Hcum, Hf. repeat split.
Qed.

Lemma one_cash_flow_per_comma_witness :
  exists c : calculation,
    calculate_npv (Some 1%nat) (Some 10%float) (Some 5000%float)
      "1000, 1500, 2000, 2500, 3000" = Charts c /\
    List.length (bars c) = 5%nat /\
    years c = [1; 2; 3; 4; 5]%nat /\
    List.length (discounted_cash_flows c) = 5%nat /\
    List.length (cumulative_values c) = 6%nat.
Proof.
  destruct (calculate_npv (Some 1%nat) (Some 10%float) (Some 5000%float)
              "1000, 1500, 2000, 2500, 3000") as [|e|c|e] eqn:E;
    try (vm_compute in E; discriminate E).
  exists c. split; [reflexivity|].
  exact (@one_cash_flow_per_comma float _ _ (Some 1%nat) (Some 10%float)
           (Some 5000%float) "1000, 1500, 2000, 2500, 3000" c E).
Defined.

(** ** The figures and the alert *)


(** ** White space in the text of the cash flows *)



(** ** The reset, and the calculation on what it writes *)

(** [generate_random_cash_flows(num_flows)] returns [num_flows] integers,
    each between 500 and 5000.  [reset_cash_flows] raises [PreventUpdate]
    and leaves the generator as it is when [n_clicks] is [None] or [0]; for
    any other count it draws five integers from the generator and returns
    their decimal numerals joined by a comma and a space. *)
Theorem reset_cash_flows_spec :
  forall (rng : Type) (source : RandomSource rng),
    randint_in_range source ->
    forall (g : rng),
      (forall num_flows : nat,
          List.length (fst (generate_random_cash_flows num_flows g))
          = num_flows /\
          Forall (fun flow => 500 <= flow <= 5000)%Z
            (fst (generate_random_cash_flows num_flows g))) /\
      reset_cash_flows None g = (ResetPreventUpdate, g) /\
      reset_cash_flows (Some 0%nat) g = (ResetPreventUpdate, g) /\
      forall k : nat,
        exists (f1 f2 f3 f4 f5 : Z) (g' : rng),
          generate_random_cash_flows 5 g = ([f1; f2; f3; f4; f5], g') /\
          Forall (fun flow => 500 <= flow <= 5000)%Z [f1; f2; f3; f4; f5] /\
          reset_cash_flows (Some (S k)) g =
          (NewCashFlows
             (PyText.str f1 ++ ", " ++ PyText.str f2 ++ ", " ++
              PyText.str f3 ++ ", " ++ PyText.str f4 ++ ", " ++
              PyText.str f5)%string, g').
Proof.
  intros rng source contract g.
  split; [intros n; now apply generate_random_cash_flows_spec|].
  split; [reflexivity|]. split; [reflexivity|].
  intros k.
  destruct (generate_random_cash_flows_spec contract 5 g) as [Hlen Hall].
  unfold reset_cash_flows.
  destruct (generate_random_cash_flows 5 g) as [flows g'].
  cbn [fst] in Hlen, Hall.
  destruct flows as [|f1 [|f2 [|f3 [|f4 [|f5 [|f6 rest]]]]]];
    try discriminate Hlen.
  exists f1, f2, f3, f4, f5, g'. repeat split. exact Hall.
Qed.

Lemma reset_cash_flows_spec_witness :
  exists (f1 f2 f3 f4 f5 : Z) (g' : N),
    generate_random_cash_flows 5 42%N = ([f1; f2; f3; f4; f5], g') /\
    Forall (fun flow => 500 <= flow <= 5000)%Z [f1; f2; f3; f4; f5] /\
    reset_cash_flows (Some 1%nat) 42%N =
    (NewCashFlows
       (PyText.str f1 ++ ", " ++ PyText.str f2 ++ ", " ++
        PyText.str f3 ++ ", " ++ PyText.str f4 ++ ", " ++
        PyText.str f5)%string, g').
Proof.
  exact (proj2 (proj2 (proj2 (reset_cash_flows_spec lcg_in_range 42%N)))
           0%nat).
Defined.

(** The text [', '.join(map(str, flows))] of a list of integers that is not
    empty (each of at most 4300 digits, which [str] converts) is read back
    by [[float(c.strip()) for c in text.split(',')]] as the numbers of the
    list, one per integer and in the same order: [float(str(n))] is the
    number the numeral [n] denotes.  For the empty list the text is empty,
    and [float] raises [ValueError] on it. *)
Theorem cash_flows_text_read_back :
  forall (num : Type) (literals : Literals num) (n : Z) (flows : list Z),
    Forall (fun m => Z.abs m < 10 ^ 4300)%Z (n :: flows) ->
    floats_of_tokens (PyStr.split "," (cash_flows_text (n :: flows)))
    = Some (map (fun m => num_of_literal (PyText.literal_of_int m))
              (n :: flows)) /\
    py_float (PyText.str n)
    = Some (num_of_literal (PyText.literal_of_int n)) /\
    floats_of_tokens (num := num) (PyStr.split "," (cash_flows_text []))
    = None.
Proof.
  intros num literals n flows _. split; [apply floats_of_cash_flows_text|].
  split; [apply py_float_str|reflexivity].
Qed.

Lemma cash_flows_text_read_back_witness :
  cash_flows_text [500; -3; 0]%Z = "500, -3, 0"%string /\
  floats_of_tokens (PyStr.split "," (cash_flows_text [500; -3; 0]%Z))
  = Some [500; -3; 0]%float.
Proof.
  split; [reflexivity|].
  assert (Forall (fun m => Z.abs m < 10 ^ 4300)%Z [500; -3; 0]%Z) as H
    by (repeat constructor; vm_compute; reflexivity).
  rewrite (proj1 (@cash_flows_text_read_back float Binary64.literals
                    500%Z [-3; 0]%Z H)).
  reflexivity.
Defined.

Module Binary64Reset.

Import Binary64 Binary64Rounding Binary64Returns.
Local Open Scope float_scope.

Lemma initial_values :
  initial_discount_rate = 10 /\ initial_investment = 5000.
Proof. split; vm_compute; reflexivity. Qed.

Lemma initial_rate_five_flows (inv : float) (flows : list float) :
  List.length flows = 5%nat ->
  exists c, compute_npv 10 inv flows = Ok c.
Proof.
  intros Hlen. apply returns_iff_no_overflow; [reflexivity|].
  rewrite Hlen. intros i Hi.
  do 5 (destruct i as [|i]; [eexists; vm_compute; reflexivity|]). lia.
Qed.

End Binary64Reset.

(** What [Resetear] writes into the field of the cash flows is what the
    application starts with for the same state of the generator, and
    [Calcular VPN] accepts it: with a rate and an investment that pass the
    validation, in any arithmetic, the validation returns the five integers
    as numbers; in double precision, beside the initial rate [10.0] and the
    initial investment [5000.0], the callback returns the charts, for the
    years 1 to 5 and with the five integers, as doubles, as the bars. *)
Theorem reset_then_calculate :
  forall (rng : Type) (source : RandomSource rng),
    randint_in_range source ->
    forall (g : rng) (k n : nat),
      exists (flows : list Z) (g' : rng),
        reset_cash_flows (Some (S k)) g
        = (NewCashFlows (cash_flows_text flows), g') /\
        initial_form g
        = ({| discount_rate_value := Some 10%float;
              initial_investment_value := Some 5000%float;
              cash_flows_value := cash_flows_text flows |}, g') /\
        (forall (num : Type) (arith : Arith num) (literals : Literals num)
                (rate inv : num),
            num_ltb rate num_0 = false ->
            num_ltb inv num_0 = false ->
            validate (Some rate) (Some inv) (cash_flows_text flows)
            = Accepted rate inv
                (map (fun m => num_of_literal (PyText.literal_of_int m))
                   flows)) /\
        exists c : calculation,
          calculate_npv (Some n) (Some 10%float) (Some 5000%float)
            (cash_flows_text flows) = Charts c /\
          years c = [1; 2; 3; 4; 5]%nat /\
          bars c = map (fun m => PrimFloat.of_uint63 (Uint63.of_Z m)) flows.
Proof.
  intros rng source contract g k n.
  destruct (generate_random_cash_flows_spec contract 5 g) as [Hlen Hall].
  unfold reset_cash_flows, initial_form.
  destruct (Binary64Reset.initial_values) as [-> ->].
  destruct (generate_random_cash_flows 5 g) as [flows g'].
  cbn [fst] in Hlen, Hall.
  exists flows, g'. split; [reflexivity|]. split; [reflexivity|].
  destruct flows as [|f flows]; [discriminate Hlen|].
  assert (forall (num : Type) (arith : Arith num) (literals : Literals num)
                 (rate inv : num),
             num_ltb rate num_0 = false ->
             num_ltb inv num_0 = false ->
             validate (Some rate) (Some inv) (cash_flows_text (f :: flows))
             = Accepted rate inv
                 (map (fun m => num_of_literal (PyText.literal_of_int m))
                    (f :: flows))) as Hvalid.
  { intros num arith literals rate inv Hrate Hinv.
    rewrite (@validate_cash_flows _ _ _ rate inv _ Hrate Hinv).
    now rewrite floats_of_cash_flows_text. }
  split; [exact Hvalid|].
  unfold calculate_npv.
  rewrite (Hvalid float Binary64.arith Binary64.literals 10%float 5000%float
             eq_refl eq_refl).
  destruct (@Binary64Reset.initial_rate_five_flows 5000%float
              (map (fun m => num_of_literal (PyText.literal_of_int m))
                 (f :: flows))) as [c Hc].
  { now rewrite length_map. }
  rewrite Hc. exists c. split; [reflexivity|].
  destruct (compute_npv_lengths _ _ _ Hc) as (_ & _ & Hyears & Hbars & _).
  rewrite Hyears, Hbars, length_map, Hlen. split; [reflexivity|].
  apply map_ext_in. intros m Hm. apply small_flow_double.
  rewrite Forall_forall in Hall. now apply Hall.
Qed.

Lemma reset_then_calculate_witness :
  exists (flows : list Z) (g' : N),
    reset_cash_flows (Some 1%nat) 42%N
    = (NewCashFlows (cash_flows_text flows), g') /\
    exists c : calculation,
      calculate_npv (Some 1%nat) (Some 10%float) (Some 5000%float)
        (cash_flows_text flows) = Charts c /\
      years c = [1; 2; 3; 4; 5]%nat.
Proof.
  destruct (reset_then_calculate lcg_in_range 42%N 0 1)
    as (flows & g' & Hreset & _ & _ & c & Hc & Hyears & _).
  exists flows, g'. split; [exact Hreset|]. exists c. split; assumption.
Defined.

(** ** The powers that overflow *)

Module Binary64Overflow.

Import Binary64 Binary64Rounding Binary64Returns.
Local Open Scope Z_scope.

Lemma is_infinity_spec (x : float) :
  is_infinity x =
  match Prim2SF x with S754_infinity _ => true | _ => false end.
Proof.
  unfold is_infinity. rewrite eqb_spec, abs_spec.
  change (Prim2SF infinity) with (S754_infinity false).
  destruct (Prim2SF x) as [s|s| |s m e]; reflexivity.
Qed.

(** The quotient [SFdiv_core_binary] hands to the rounding. *)
Lemma div_core_spec (N D : positive) (q e : Z) (l : location) :
  SFdiv_core_binary prec emax (Zpos N) 0 (Zpos D) 0 = (q, e, l) ->
  e <= 0 /\ q = Zpos N * 2 ^ (- e) / Zpos D.
Proof.
  unfold SFdiv_core_binary.
  change (0 - 0) with 0.
  set (e' := Z.min _ 0).
  assert (e' <= 0) as He' by (unfold e'; lia).
  set (s := 0 - e').
  assert (0 <= s) as Hs by (unfold s; lia).
  assert (s = - e') as Hse by (unfold s; lia).
  clearbody s e'.
  assert (match s with
          | Z0 => Zpos N
          | Zpos _ => Z.shiftl (Zpos N) s
          | Zneg _ => 0
          end = Zpos N * 2 ^ s) as ->.
  { destruct s as [|p|p]; try lia.
    rewrite Z.shiftl_mul_pow2 by lia. reflexivity. }
  rewrite div_eucl_div_mod. intros [= <- <- _]. split; [exact He'|].
  now rewrite <- Hse.
Qed.

(** Rounding a value of at least [2^1024] overflows. *)
Lemma round_overflow (M e : Z) (l : location) :
  0 < M ->
  e <= fexp prec emax (Zdigits2 M + e) ->
  1025 <= Zdigits2 M + e ->
  binary_round_aux prec emax false M e l = S754_infinity false.
Proof.
  intros HM Hdigits Hbig.
  destruct (Zdigits2_bounds HM) as [Dlo Dhi].
  set (d := Zdigits2 M) in *.
  assert (1 <= d + e) as Hde by lia.
  rewrite (fexp_normal Hde) in Hdigits.
  unfold binary_round_aux.
  destruct (shr_fexp_m e l (Z.lt_le_incl _ _ HM)) as [Hm1 He1].
  fold d in Hm1, He1. rewrite (fexp_normal Hde) in Hm1, He1.
  replace (d + e - 53 - e) with (d - 53) in Hm1, He1 by lia.
  rewrite Z.max_r in Hm1, He1 by lia.
  destruct (shr_fexp prec emax M e l) as [mrs1 e1]. simpl in Hm1, He1.
  assert (2 ^ 52 <= shr_m mrs1) as Hb1.
  { rewrite Hm1.
    apply Z.div_le_lower_bound; [apply Z.pow_pos_nonneg; lia|].
    rewrite <- Z.pow_add_r by lia.
    replace (d - 53 + 52) with (d - 1) by lia. assumption. }
  pose proof (round_nearest_even_bounds (shr_m mrs1) (loc_of_shr_record mrs1))
    as Hr.
  set (m1 := round_nearest_even (shr_m mrs1) (loc_of_shr_record mrs1)) in *.
  assert (972 <= e1) as He1lo by lia.
  assert (0 < m1) as Hm1pos by lia.
  destruct (shr_fexp_m e1 loc_Exact (Z.lt_le_incl _ _ Hm1pos)) as [Hm2 He2].
  destruct (shr_fexp prec emax m1 e1 loc_Exact) as [mrs2 e2].
  cbn [fst snd] in Hm2, He2.
  set (n2 := Z.max 0 (fexp prec emax (Zdigits2 m1 + e1) - e1)) in *.
  assert (0 <= n2) as Hn2 by (unfold n2; lia).
  assert (n2 <= Zdigits2 m1 - 53) as Hn2'.
  { unfold n2. pose proof (Zdigits2_le (a := 2 ^ 52) (b := m1)) as Hd.
    change (Zdigits2 (2 ^ 52)) with 53 in Hd.
    specialize (Hd ltac:(lia) ltac:(lia)).
    rewrite fexp_normal by lia. lia. }
  assert (0 < shr_m mrs2) as Hpos.
  { rewrite Hm2.
    destruct (Zdigits2_bounds Hm1pos) as [Blo _].
    apply Z.div_str_pos. split; [apply Z.pow_pos_nonneg; lia|].
    etransitivity; [|exact Blo]. apply Z.pow_le_mono_r; lia. }
  destruct (shr_m mrs2) as [|p2|p2]; try lia.
  assert ((e2 <=? emax - prec) = false) as ->.
  { apply Z.leb_gt. unfold emax, prec. lia. }
  reflexivity.
Qed.

(** A ratio of at least [2^1024] rounds to plus infinity. *)
Lemma round_ratio_overflow (N D : positive) :
  Zpos D * 2 ^ 1024 <= Zpos N ->
  Prim2SF (round_ratio false N D) = S754_infinity false.
Proof.
  intros H. unfold round_ratio.
  destruct (SFdiv_core_binary prec emax (Zpos N) 0 (Zpos D) 0)
    as [[q e] l] eqn:E.
  assert (Zpos D <= Zpos N) as HDN.
  { assert (Zpos D * 1 <= Zpos D * 2 ^ 1024)
      by (apply Z.mul_le_mono_nonneg_l; lia). lia. }
  destruct (div_core_at_least_one HDN E) as (Hq & Hone & Hdig).
  destruct (@div_core_spec N D q e l E) as [He Hqv].
  assert (2 ^ (1024 - e) <= q) as Hbig.
  { rewrite Hqv. apply Z.div_le_lower_bound; [lia|].
    replace (1024 - e) with (1024 + - e) by lia.
    rewrite Z.pow_add_r by lia.
    rewrite Z.mul_assoc.
    apply Z.mul_le_mono_nonneg_r; [apply Z.pow_nonneg; lia|exact H]. }
  assert (1025 <= Zdigits2 q + e) as Hd.
  { pose proof (Zdigits2_le (a := 2 ^ (1024 - e)) (b := q)) as Hle.
    specialize (Hle ltac:(apply Z.pow_pos_nonneg; lia) Hbig).
    rewrite (@Zdigits2_unique (2 ^ (1024 - e)) (1024 - e + 1)) in Hle.
    - lia.
    - replace (1024 - e + 1 - 1) with (1024 - e) by lia. split; [lia|].
      apply Z.pow_lt_mono_r; lia.
    - apply Z.pow_pos_nonneg; lia. }
  rewrite (round_overflow l Hq Hdig Hd). reflexivity.
Qed.

(** A ratio of at least 1 and below the largest double rounds to a finite
    double. *)
Lemma round_ratio_finite (N D : positive) :
  Zpos D <= Zpos N ->
  Zpos N < Zpos D * ((2 ^ 53 - 1) * 2 ^ 971) ->
  is_infinity (round_ratio false N D) = false.
Proof.
  intros HDN H. rewrite is_infinity_spec. unfold round_ratio.
  destruct (SFdiv_core_binary prec emax (Zpos N) 0 (Zpos D) 0)
    as [[q e] l] eqn:E.
  destruct (div_core_at_least_one HDN E) as (Hq & Hone & Hdig).
  destruct (@div_core_spec N D q e l E) as [He Hqv].
  destruct (round_at_least_one l Hq Hone Hdig) as [Hge Hvalid].
  rewrite Prim2SF_SF2Prim by exact Hvalid.
  pose proof (@round_le q e l (2 ^ 53 - 1)%positive 971) as Hle.
  assert (q < Zpos (2 ^ 53 - 1) * 2 ^ (971 - e)) as Hlt.
  { rewrite Hqv. apply Z.div_lt_upper_bound; [lia|].
    replace (971 - e) with (971 + - e) by lia.
    rewrite Z.pow_add_r by lia.
    change (Zpos (2 ^ 53 - 1)) with (2 ^ 53 - 1).
    pose proof (Z.pow_pos_nonneg 2 (- e) ltac:(lia) ltac:(lia)) as Hp.
    rewrite !Z.mul_assoc.
    apply Z.mul_lt_mono_pos_r; [exact Hp|].
    rewrite <- Z.mul_assoc. exact H. }
  specialize (Hle ltac:(lia) ltac:(lia) eq_refl ltac:(lia) Hlt).
  destruct (binary_round_aux prec emax false q e l) as [s|s| |s m' e'];
    try reflexivity.
  destruct s; [contradiction Hge|discriminate Hle].
Qed.


Import Binary64Ratio.

Lemma pos_pow_1_l (k : positive) : (1 ^ k)%positive = 1%positive.
Proof. apply Pos2Z.inj. rewrite Pos2Z.inj_pow. apply Z.pow_1_l. lia. Qed.

(** [x ** n] for a finite positive [x] and [n >= 1]: the power of the ratio,
    rounded. *)
Lemma pow_finite (x : float) (m : positive) (e : Z) (n : nat) :
  Prim2SF x = S754_finite false m e ->
  pow x (S n) =
  let r := round_ratio false (numerator m e ^ Pos.of_nat (S n))
             (denominator e ^ Pos.of_nat (S n)) in
  if is_infinity r then Raise OverflowError else Ok r.
Proof.
  intros Hx. unfold pow. rewrite Hx. simpl andb.
  set (k := Pos.of_nat (S n)).
  assert (Z.of_nat (S n) = Zpos k) as ->
    by (unfold k; rewrite <- positive_nat_Z, Nat2Pos.id;
        [reflexivity | discriminate]).
  destruct e as [|j|j]; cbn [Z.mul numerator denominator].
  - now rewrite pos_pow_1_l.
  - rewrite pos_pow_1_l.
    replace ((m * 2 ^ j) ^ k)%positive with (m ^ k * 2 ^ (j * k))%positive;
      [reflexivity|].
    apply Pos2Z.inj. rewrite !Pos2Z.inj_mul, !Pos2Z.inj_pow, !Pos2Z.inj_mul.
    rewrite Pos2Z.inj_pow, Z.pow_mul_l, <- Z.pow_mul_r by lia. reflexivity.
  - replace ((2 ^ j) ^ k)%positive with (2 ^ (j * k))%positive;
      [reflexivity|].
    apply Pos2Z.inj. rewrite !Pos2Z.inj_pow, Pos2Z.inj_mul.
    now rewrite Z.pow_mul_r by lia.
Qed.

Lemma valid_mantissa_bound (m : positive) (e : Z) :
  valid_binary (S754_finite false m e) = true -> Zpos m < 2 ^ 53.
Proof.
  unfold valid_binary, bounded, canonical_mantissa.
  intros H. apply andb_true_iff in H as [H _]. apply Z.eqb_eq in H.
  change (Zpos (digits2_pos m)) with (Zdigits2 (Zpos m)) in H.
  destruct (Zdigits2_bounds (m := Zpos m)) as [_ Hhi]; [lia|].
  assert (Zdigits2 (Zpos m) <= 53)
    by (unfold fexp, SpecFloat.emin, prec, emax in H; lia).
  assert (2 ^ Zdigits2 (Zpos m) <= 2 ^ 53)
    by (apply Z.pow_le_mono_r; lia).
  lia.
Qed.

(** The ratio of a double greater than 1 is at least [1 + 2^-52]. *)
Lemma ratio_above_one (m : positive) (e : Z) :
  valid_binary (S754_finite false m e) = true ->
  2 ^ (- e) <= Zpos m ->
  Zpos m <> 2 ^ (- e) ->
  Zpos (denominator e) + 1 <= Zpos (numerator m e) /\
  Zpos (denominator e) <= 2 ^ 52.
Proof.
  intros Hvalid Hone Hne.
  pose proof (@valid_mantissa_bound m e Hvalid) as Hm.
  destruct e as [|j|j]; cbn [numerator denominator].
  - change (2 ^ (- 0)) with 1 in *. split; lia.
  - rewrite Z.pow_neg_r in Hne by lia.
    rewrite Pos2Z.inj_mul, Pos2Z.inj_pow.
    pose proof (Z.pow_le_mono_r 2 1 (Zpos j) ltac:(lia) ltac:(lia)) as Hp.
    change (2 ^ 1) with 2 in Hp. split; [nia|lia].
  - change (- Zneg j) with (Zpos j) in *. rewrite Pos2Z.inj_pow.
    split; [lia|].
    destruct (Z.ltb_spec 52 (Zpos j)) as [Hlt|]; [|apply Z.pow_le_mono_r; lia].
    exfalso.
    assert (2 ^ 53 <= 2 ^ Zpos j) by (apply Z.pow_le_mono_r; lia). lia.
Qed.

Lemma below_largest (X Y a b : Z) :
  0 < X -> 0 < Y -> 1 <= b <= 2 ^ 52 -> b + 1 <= a ->
  X * a < Y * b * 2 ^ 1024 ->
  X < Y * ((2 ^ 53 - 1) * 2 ^ 971).
Proof.
  intros HX HY Hb Hab H.
  destruct (Z.ltb_spec X (Y * ((2 ^ 53 - 1) * 2 ^ 971))) as [|Hge];
    [assumption|exfalso].
  assert (X * (b + 1) <= X * a) by (apply Z.mul_le_mono_nonneg_l; lia).
  assert (Y * ((2 ^ 53 - 1) * 2 ^ 971) * (b + 1) <= X * (b + 1))
    by (apply Z.mul_le_mono_nonneg_r; lia).
  assert (Y * b * 2 ^ 1024 <= Y * ((2 ^ 53 - 1) * 2 ^ 971) * (b + 1)).
  { replace (Y * b * 2 ^ 1024) with (Y * (b * 2 ^ 53 * 2 ^ 971)).
    - rewrite <- !Z.mul_assoc. apply Z.mul_le_mono_nonneg_l; [lia|].
      replace ((2 ^ 53 - 1) * (2 ^ 971 * (b + 1)))
        with ((2 ^ 53 - 1) * (b + 1) * 2 ^ 971) by ring.
      replace (b * (2 ^ 53 * 2 ^ 971)) with (b * 2 ^ 53 * 2 ^ 971) by ring.
      apply Z.mul_le_mono_nonneg_r; [apply Z.pow_nonneg; lia|]. lia.
    - change (2 ^ 1024) with (2 ^ 53 * 2 ^ 971). ring. }
  lia.
Qed.

(** When a power of a base of at least 1 does not overflow, the power
    before it does not either. *)
Lemma pow_returns_before (x : float) (n : nat) (p : float) :
  at_least_one (Prim2SF x) ->
  pow x (S n) = Ok p -> exists p', pow x n = Ok p'.
Proof.
  intros Hx Hp. destruct n as [|n]; [now exists one|].
  pose proof (Prim2SF_valid x) as Hvalid.
  destruct (Prim2SF x) as [s|s| |s m e] eqn:Ex; try contradiction.
  - destruct s; [contradiction|]. unfold pow. rewrite Ex. now eexists.
  - destruct s; [contradiction|]. cbn [at_least_one] in Hx.
    destruct (Z.eq_dec (Zpos m) (2 ^ (- e))) as [Heq|Hne].
    + assert (x = 1%float) as ->.
      { apply Prim2SF_inj. rewrite Ex. now apply value_one. }
      rewrite pow_one. now eexists.
    + destruct (@ratio_above_one m e Hvalid Hx Hne) as [Hab Hb].
      rewrite (@pow_finite x m e (S n) Ex) in Hp.
      rewrite (@pow_finite x m e n Ex).
      cbv zeta in *.
      set (a := numerator m e) in *. set (b := denominator e) in *.
      set (k := Pos.of_nat (S n)) in *.
      replace (Pos.of_nat (S (S n))) with (Pos.succ k) in Hp
        by (unfold k; now rewrite <- Nat2Pos.inj_succ).
      rewrite !Pos.pow_succ_r in Hp.
      destruct (is_infinity (round_ratio false (a * a ^ k) (b * b ^ k)))
        eqn:Einf; [discriminate Hp|].
      assert (Zpos (a * a ^ k) < Zpos (b * b ^ k) * 2 ^ 1024) as Hlt.
      { destruct (Z.ltb_spec (Zpos (a * a ^ k)) (Zpos (b * b ^ k) * 2 ^ 1024))
          as [|Hge]; [assumption|exfalso].
        rewrite is_infinity_spec, (@round_ratio_overflow _ _ Hge) in Einf.
        discriminate Einf. }
      rewrite !Pos2Z.inj_mul in Hlt.
      assert (Zpos (b ^ k) <= Zpos (a ^ k)) as Hle.
      { rewrite !Pos2Z.inj_pow. apply Z.pow_le_mono_l. lia. }
      rewrite round_ratio_finite; [now eexists|exact Hle|].
      apply (@below_largest (Zpos (a ^ k)) (Zpos (b ^ k)) (Zpos a) (Zpos b));
        lia.
Qed.

Lemma pow_returns_below (x : float) (n : nat) (p : float) :
  at_least_one (Prim2SF x) ->
  pow x n = Ok p ->
  forall k, (k <= n)%nat -> exists p', pow x k = Ok p'.
Proof.
  intros Hx. revert p. induction n as [|n IH]; intros p Hp k Hk.
  - replace k with 0%nat by lia. now exists p.
  - destruct (Nat.eq_dec k (S n)) as [->|Hne]; [now exists p|].
    destruct (@pow_returns_before x n p Hx Hp) as [p' Hp'].
    apply (IH p' Hp'). lia.
Qed.

End Binary64Overflow.

Module Binary64Crash.

Import Binary64 Binary64Rounding Binary64Returns Binary64Overflow.
Local Open Scope float_scope.

Lemma pow_nan (x : float) (n : nat) :
  Prim2SF x = S754_nan -> exists p, pow x n = Ok p.
Proof.
  intros H. unfold pow. destruct n; [now eexists|]. rewrite H. now eexists.
Qed.

Lemma returns_iff_last_power (rate inv : float) (flows : list float) :
  (rate <? 0) = false ->
  (exists c, compute_npv rate inv flows = Ok c) <->
  (exists factor, pow (1 + rate / 100) (List.length flows) = Ok factor).
Proof.
  intros Hrate. rewrite (returns_iff_no_overflow inv flows Hrate). split.
  - intros H. destruct flows as [|x flows]; [now exists one|].
    destruct (H (List.length flows)) as [f Hf]; [simpl; lia|].
    exists f. simpl List.length. now rewrite <- Nat.add_1_r.
  - intros [f Hf] i Hi. destruct (base_safe Hrate) as [Hnan|Hone].
    + now apply pow_nan.
    + apply (@pow_returns_below _ _ f Hone Hf). lia.
Qed.

Lemma raises_iff_last_power (rate inv : float) (flows : list float) :
  (rate <? 0) = false ->
  compute_npv rate inv flows = Raise OverflowError <->
  pow (1 + rate / 100) (List.length flows) = Raise OverflowError.
Proof.
  intros Hrate. pose proof (returns_iff_last_power inv flows Hrate) as Hiff.
  split; intros H.
  - destruct (pow (1 + rate / 100) (List.length flows)) as [f|e] eqn:E.
    + destruct (proj2 Hiff (ex_intro _ f eq_refl)) as [c Hc]. congruence.
    + now rewrite (pow_raises_overflow _ _ E).
  - destruct (compute_npv rate inv flows) as [c|e] eqn:E.
    + destruct (proj1 Hiff (ex_intro _ c eq_refl)) as [f Hf]. congruence.
    + now rewrite (compute_npv_raises_overflow Hrate _ _ E).
Qed.

End Binary64Crash.

(** ** When the callback fails *)



(** ** Not a number *)

Module Binary64NaN.

Import Binary64 Binary64Rounding.
Local Open Scope float_scope.

Lemma is_nan_spec (x : float) :
  is_nan x = true <-> Prim2SF x = S754_nan.
Proof.
  unfold is_nan. rewrite eqb_spec.
  destruct (Prim2SF x) as [s|s| |s m e]; simpl.
  - destruct s; split; discriminate.
  - destruct s; split; discriminate.
  - split; reflexivity.
  - unfold SFeqb, SFcompare. rewrite Z.compare_refl, Pos.compare_cont_refl.
    destruct s; split; discriminate.
Qed.

Lemma add_nan_l (a b : float) : is_nan a = true -> is_nan (a + b) = true.
Proof.
  rewrite !is_nan_spec, add_spec. intros ->. reflexivity.
Qed.

Lemma add_nan_r (a b : float) : is_nan b = true -> is_nan (a + b) = true.
Proof.
  rewrite !is_nan_spec, add_spec. intros ->.
  destruct (Prim2SF a); reflexivity.
Qed.

Lemma div_nan_l (a b : float) : is_nan a = true -> is_nan (a / b) = true.
Proof.
  rewrite !is_nan_spec, div_spec. intros ->. reflexivity.
Qed.

Lemma div_nan_r (a b : float) : is_nan b = true -> is_nan (a / b) = true.
Proof.
  rewrite !is_nan_spec, div_spec. intros ->.
  destruct (Prim2SF a); reflexivity.
Qed.

Lemma opp_nan (a : float) : is_nan a = true -> is_nan (- a) = true.
Proof.
  rewrite !is_nan_spec, opp_spec. intros ->. reflexivity.
Qed.

Lemma pow_nan_base (x p : float) (n : nat) :
  is_nan x = true -> pow x (S n) = Ok p -> is_nan p = true.
Proof.
  rewrite is_nan_spec. intros Hx. unfold pow. rewrite Hx.
  intros [= <-]. reflexivity.
Qed.

Lemma fold_nan_acc (ds : list float) :
  forall a, is_nan a = true -> is_nan (fold_left PrimFloat.add ds a) = true.
Proof.
  induction ds as [|d ds IH]; intros a Ha; [exact Ha|].
  simpl. apply IH. now apply add_nan_l.
Qed.

Lemma fold_nan_in (ds : list float) (d : float) :
  In d ds -> is_nan d = true ->
  forall a, is_nan (fold_left PrimFloat.add ds a) = true.
Proof.
  induction ds as [|d' ds IH]; intros Hin Hd a; [destruct Hin|].
  simpl. destruct Hin as [->|Hin].
  - apply fold_nan_acc. now apply add_nan_r.
  - now apply IH.
Qed.

Lemma ltb_nan_r (a b : float) : is_nan b = true -> (a <? b) = false.
Proof.
  rewrite is_nan_spec, ltb_spec. intros ->.
  destruct (Prim2SF a) as [s|s| |s m e]; reflexivity.
Qed.

Lemma format_nan (x : float) : is_nan x = true -> PyFormat.of_float x = "nan"%string.
Proof.
  rewrite is_nan_spec. unfold PyFormat.of_float. intros ->. reflexivity.
Qed.

(** The discounted value of the cash flow of index [i]. *)
Lemma discounted_at (rate inv : float) (flows : list float) (c : calculation)
    (i : nat) (c_i : float) :
  compute_npv rate inv flows = Ok c ->
  nth_error flows i = Some c_i ->
  exists factor,
    pow (1 + rate / 100) (S i) = Ok factor /\
    nth_error (discounted_cash_flows c) i = Some (c_i / factor).
Proof.
  intros H Hc.
  destruct (compute_npv_returns _ _ _ H) as (r & Hr & Ht & _).
  change (num_div rate num_100) with (Ok (rate / 100)) in Hr.
  inversion Hr; subst r.
  destruct (traverse_nth _ _ Ht _ (enumerate_nth flows 0 i Hc))
    as (y & Hy & Hdisc).
  simpl fst in Hdisc. simpl snd in Hdisc. unfold discount in Hdisc.
  change (num_add num_1 (rate / 100)) with (1 + rate / 100) in Hdisc.
  rewrite Nat.add_1_r in Hdisc.
  change (num_pow (1 + rate / 100) (S i)) with (pow (1 + rate / 100) (S i))
    in Hdisc.
  destruct (pow (1 + rate / 100) (S i)) as [p|] eqn:Ep; [|discriminate].
  simpl in Hdisc. unfold div in Hdisc.
  destruct (is_zero p); [discriminate|]. inversion Hdisc; subst y.
  exists p. split; [reflexivity|exact Hy].
Qed.

Lemma npv_nan (rate inv : float) (flows : list float) (c : calculation) :
  compute_npv rate inv flows = Ok c ->
  flows <> [] ->
  is_nan rate = true \/ is_nan inv = true \/
  (exists x, In x flows /\ is_nan x = true) ->
  is_nan (npv c) = true.
Proof.
  intros H Hne Hnan.
  destruct (compute_npv_returns _ _ _ H) as (r & _ & _ & Hnpv & _).
  change (npv c = fold_left PrimFloat.add (discounted_cash_flows c) (- inv))
    in Hnpv.
  rewrite Hnpv.
  destruct Hnan as [Hrate|[Hinv|(x & Hin & Hx)]].
  - destruct flows as [|c_0 flows]; [congruence|].
    destruct (@discounted_at rate inv (c_0 :: flows) c 0 c_0 H eq_refl)
      as (f & Hf & Hd).
    apply nth_error_In in Hd.
    apply (fold_nan_in _ _ Hd). apply div_nan_r.
    apply (@pow_nan_base (1 + rate / 100) f 0); [|exact Hf].
    apply add_nan_r, div_nan_l, Hrate.
  - apply fold_nan_acc, opp_nan, Hinv.
  - apply In_nth_error in Hin as [i Hi].
    destruct (@discounted_at rate inv flows c i x H Hi) as (f & Hf & Hd).
    apply nth_error_In in Hd.
    apply (fold_nan_in _ _ Hd). now apply div_nan_l.
Qed.

End Binary64NaN.

(** A NaN among the inputs (the cash flow [nan] passes the validation, and
    so does a rate or an investment that is a NaN, which is not less than
    zero) makes the net present value a NaN whenever the callback returns
    the charts: the project is then declared not viable, and the alert reads
    [VPN = nan]. *)
Theorem nan_is_not_viable :
  forall (n : nat) (rate inv : float) (s : string) (c : calculation),
    calculate_npv (Some n) (Some rate) (Some inv) s = Charts c ->
    is_nan rate = true \/ is_nan inv = true \/
    (exists x, In x (bars c) /\ is_nan x = true) ->
    is_nan (npv c) = true /\
    viable c = false /\
    viability_of c = {| alert_children := "El proyecto no es viable. VPN = nan";
                        alert_color := "danger" |}.
Proof.
  intros n rate inv s c H Hnan.
  destruct (charts_inversion _ _ _ _ H) as (r & i & flows & Hv & Hc).
  apply validate_accepted in Hv as ([= <-] & [= <-] & _ & _ & Hf).
  destruct (compute_npv_lengths _ _ _ Hc) as (_ & _ & _ & Hbars & Hviable).
  rewrite Hbars in Hnan.
  assert (flows <> []) as Hne.
  { apply floats_of_tokens_length in Hf. rewrite split_count in Hf.
    destruct flows; [discriminate Hf|discriminate]. }
  pose proof (@Binary64NaN.npv_nan rate inv flows c Hc Hne Hnan) as Hnpv.
  assert (viable c = false) as Hnot.
  { rewrite Hviable. now apply Binary64NaN.ltb_nan_r. }
  split; [exact Hnpv|]. split; [exact Hnot|].
  unfold viability_of. rewrite Hnot.
  change (num_format (npv c)) with (PyFormat.of_float (npv c)).
  now rewrite (@Binary64NaN.format_nan (npv c) Hnpv).
Qed.

Lemma nan_is_not_viable_witness :
  exists c : calculation,
    calculate_npv (Some 1%nat) (Some 10%float) (Some 5000%float) "9000, nan"
    = Charts c /\
    viability_of c = {| alert_children := "El proyecto no es viable. VPN = nan";
                        alert_color := "danger" |}.
Proof.
  destruct (calculate_npv (Some 1%nat) (Some 10%float) (Some 5000%float)
              "9000, nan") as [|e|c|e] eqn:E;
    try (vm_compute in E; discriminate E).
  exists c. split; [reflexivity|].
  apply (@nan_is_not_viable 1 10%float 5000%float "9000, nan" c E).
  right. right. exists nan. split; [|reflexivity].
  vm_compute in E. inversion E. simpl. right. now left.
Defined.

(** ** The amount of the alert *)

Module AmountFacts.

Import PyFormat Binary64Ratio.

(** [round_half_even n d] is within one half of [n / d]. *)
Lemma round_half_even_spec (n d : N) :
  (0 < d)%N ->
  (2 * Z.abs (Z.of_N n - Z.of_N (round_half_even n d) * Z.of_N d)
   <= Z.of_N d)%Z.
Proof.
  intros Hd. unfold round_half_even.
  pose proof (N.div_mod n d ltac:(lia)) as Hn.
  pose proof (N.mod_lt n d ltac:(lia)) as Hr.
  set (q := (n / d)%N) in *. set (r := (n mod d)%N) in *.
  destruct (N.compare_spec (2 * r) d) as [Heq|Hlt|Hgt];
    [destruct (N.even q)| |]; nia.
Qed.

Lemma round_half_even_zero (n d : N) :
  (2 * n < d)%N -> round_half_even n d = 0%N.
Proof.
  intros H. unfold round_half_even.
  rewrite N.div_small, N.mod_small by lia.
  destruct (N.compare_spec (2 * n) d); [lia|reflexivity|lia].
Qed.

Lemma fixed_2_zero (negative : bool) (n d : N) :
  (200 * n < d)%N ->
  fixed_2 negative n d = (if negative then "-0.00" else "0.00")%string.
Proof.
  intros H. unfold fixed_2. rewrite round_half_even_zero by lia.
  destruct negative; reflexivity.
Qed.

End AmountFacts.

Module Binary64Amount.

Import PyFormat Binary64Ratio Binary64 Binary64Rounding Binary64Overflow.
Local Open Scope float_scope.

(** The largest double below 0.005. *)
Lemma below_half_cent :
  Prim2SF 0x1.47ae147ae147ap-8
  = S754_finite false 5764607523034234 (-60).
Proof. reflexivity. Qed.

(** A finite double of magnitude at most the largest double below 0.005 is
    less than half a hundredth. *)
Lemma small_ratio (s : bool) (m : positive) (e : Z) :
  valid_binary (S754_finite s m e) = true ->
  (e < -60 \/ e = -60 /\ Zpos m <= 5764607523034234)%Z ->
  (200 * Npos (numerator m e) < Npos (denominator e))%N.
Proof.
  intros Hvalid He.
  assert (Zpos m < 2 ^ 53)%Z as Hm.
  { apply (@valid_mantissa_bound m e). destruct s; exact Hvalid. }
  destruct e as [|k|k]; try lia.
  cbn [numerator denominator].
  assert (Zpos (2 ^ k) = 2 ^ Zpos k)%Z as Hk by apply Pos2Z.inj_pow.
  destruct He as [He|[He Hle]].
  - assert (2 ^ 61 <= 2 ^ Zpos k)%Z by (apply Z.pow_le_mono_r; lia).
    change (2 ^ 53)%Z with 9007199254740992%Z in Hm.
    change (2 ^ 61)%Z with 2305843009213693952%Z in *. lia.
  - assert (k = 60%positive) as -> by lia.
    change (2 ^ 60)%positive with 1152921504606846976%positive. lia.
Qed.

Lemma amount_small_positive (x : float) :
  (0 <? x) = true -> (x <=? 0x1.47ae147ae147ap-8) = true ->
  of_float x = "0.00"%string.
Proof.
  rewrite ltb_spec, leb_spec, below_half_cent.
  change (Prim2SF 0) with (S754_zero false).
  pose proof (Prim2SF_valid x) as Hvalid. unfold of_float.
  intros Hpos Hle.
  destruct (Prim2SF x) as [s|s| |s m e]; try destruct s;
    try discriminate Hpos; try discriminate Hle.
  rewrite (@AmountFacts.fixed_2_zero false); [reflexivity|].
  apply (@small_ratio false m e Hvalid).
  unfold SFleb, SFcompare in Hle.
  destruct (Z.compare_spec e (-60)) as [He|He|He]; [right|left|discriminate].
  - split; [exact He|].
    rewrite Pos.compare_cont_spec in Hle. cbn [Pos.switch_Eq] in Hle.
    destruct (Pos.compare_spec m 5764607523034234) as [Hm|Hm|Hm];
      [|apply Z.lt_le_incl, Pos2Z.pos_lt_pos, Hm|discriminate Hle].
    rewrite Hm. apply Z.le_refl.
  - exact He.
Qed.

Lemma above_minus_half_cent :
  Prim2SF (-0x1.47ae147ae147ap-8)
  = S754_finite true 5764607523034234 (-60).
Proof. reflexivity. Qed.

Lemma amount_small_negative (x : float) :
  (x <? 0) = true -> (-0x1.47ae147ae147ap-8 <=? x) = true ->
  of_float x = "-0.00"%string.
Proof.
  rewrite ltb_spec, leb_spec, above_minus_half_cent.
  change (Prim2SF 0) with (S754_zero false).
  pose proof (Prim2SF_valid x) as Hvalid. unfold of_float.
  intros Hneg Hle.
  destruct (Prim2SF x) as [s|s| |s m e]; try destruct s;
    try discriminate Hneg; try discriminate Hle.
  rewrite (@AmountFacts.fixed_2_zero true); [reflexivity|].
  apply (@small_ratio true m e Hvalid).
  unfold SFleb, SFcompare in Hle.
  destruct (Z.compare_spec (-60) e) as [He|He|He];
    [right|discriminate Hle|left; exact He].
  split; [now symmetry|].
  rewrite Pos.compare_cont_spec in Hle. cbn [Pos.switch_Eq] in Hle.
  rewrite (Pos.compare_antisym m) in Hle.
  destruct (Pos.compare_spec m 5764607523034234) as [Hm|Hm|Hm];
    [|apply Z.lt_le_incl, Pos2Z.pos_lt_pos, Hm|discriminate Hle].
  rewrite Hm. apply Z.le_refl.
Qed.

Lemma amount_zero (x : float) :
  (x =? 0) = true ->
  of_float x = "0.00"%string \/ of_float x = "-0.00"%string.
Proof.
  intros H. apply is_zero_spec in H as [s Hs]. unfold of_float. rewrite Hs.
  destruct s; [right|left]; reflexivity.
Qed.

End Binary64Amount.

Lemma hundredths_close (n d : positive) (H : N) :
  (2 * Z.abs (Z.of_N (100 * Npos n) - Z.of_N H * Z.of_N (Npos d))
   <= Z.of_N (Npos d))%Z ->
  (Qabs.Qabs ((Z.of_N H # 100) - (Zpos n # d)) <= 1 # 200)%Q.
Proof.
  intros Hspec. apply Qabs.Qabs_Qle_condition.
  unfold Qle, Qminus, Qplus, Qopp. cbn [Qnum Qden].
  rewrite N2Z.inj_mul in Hspec. cbn [Z.of_N] in Hspec.
  rewrite !Pos2Z.inj_mul.
  set (a := Zpos n) in *. set (b := Zpos d) in *. set (k := Z.of_N H) in *.
  assert (0 < b)%Z by (unfold b; lia).
  clearbody a b k.
  change (Z.neg 1) with (-1)%Z. change (Zpos 200) with 200%Z.
  change (Zpos 100) with 100%Z. change (Zpos 1) with 1%Z.
  split; nia.
Qed.

Module Binary64Verdict.

Import Binary64 Binary64Rounding.
Local Open Scope float_scope.

Lemma not_positive (x : float) :
  (x <? 0) = true \/ (x =? 0) = true -> (0 <? x) = false.
Proof.
  rewrite !ltb_spec, eqb_spec. change (Prim2SF 0) with (S754_zero false).
  destruct (Prim2SF x) as [s|s| |s m e]; try destruct s; simpl;
    intros [H|H]; try discriminate H; reflexivity.
Qed.

End Binary64Verdict.

(** The amount of the alert, near zero.  In double precision, when the
    computation returns: a net present value greater than zero and less than
    half a hundredth (at most [0.004999999999999999], the largest double
    below 0.005) is declared viable with the amount [0.00]; a net present
    value of zero is declared not viable with the amount [0.00], or [-0.00]
    for the negative zero; a negative one of less than half a hundredth is
    declared not viable with the amount [-0.00]. *)
Theorem amounts_near_zero :
  forall (rate inv : float) (flows : list float) (c : calculation),
    compute_npv rate inv flows = Ok c ->
    ((0 <? npv c)%float = true ->
     (npv c <=? 0x1.47ae147ae147ap-8)%float = true ->
     viability_of c = {| alert_children := "El proyecto es viable. VPN = 0.00";
                         alert_color := "success" |}) /\
    ((npv c =? 0)%float = true ->
     viability_of c
     = {| alert_children := "El proyecto no es viable. VPN = 0.00";
          alert_color := "danger" |} \/
     viability_of c
     = {| alert_children := "El proyecto no es viable. VPN = -0.00";
          alert_color := "danger" |}) /\
    ((npv c <? 0)%float = true ->
     (-0x1.47ae147ae147ap-8 <=? npv c)%float = true ->
     viability_of c
     = {| alert_children := "El proyecto no es viable. VPN = -0.00";
          alert_color := "danger" |}).
Proof.
  intros rate inv flows c H.
  destruct (compute_npv_lengths _ _ _ H) as (_ & _ & _ & _ & Hviable).
  change (viable c = (0 <? npv c)%float) in Hviable.
  unfold viability_of.
  change (num_format (npv c)) with (PyFormat.of_float (npv c)).
  split; [|split].
  - intros Hpos Hle. rewrite Hviable, Hpos.
    now rewrite (@Binary64Amount.amount_small_positive (npv c) Hpos Hle).
  - intros Hz.
    rewrite Hviable, (@Binary64Verdict.not_positive (npv c) (or_intror Hz)).
    destruct (@Binary64Amount.amount_zero (npv c) Hz) as [-> | ->];
      [left|right]; reflexivity.
  - intros Hneg Hle.
    rewrite Hviable, (@Binary64Verdict.not_positive (npv c) (or_introl Hneg)).
    now rewrite (@Binary64Amount.amount_small_negative (npv c) Hneg Hle).
Qed.

(** A rate of zero, an investment of 1000 and one cash flow of
    1000.001953125: the net present value is [2^-9], and the alert declares
    the project viable with [VPN = 0.00]. *)
Lemma amounts_near_zero_witness :
  exists c : calculation,
    calculate_npv (Some 1%nat) (Some 0%float) (Some 1000%float)
      "1000.001953125" = Charts c /\
    npv c = 0x1p-9%float /\
    viability_of c = {| alert_children := "El proyecto es viable. VPN = 0.00";
                        alert_color := "success" |}.
Proof.
  destruct (calculate_npv (Some 1%nat) (Some 0%float) (Some 1000%float)
              "1000.001953125") as [|e|c|e] eqn:E;
    try (vm_compute in E; discriminate E).
  exists c. split; [reflexivity|].
  assert (npv c = 0x1p-9%float) as Hnpv
    by (vm_compute in E; inversion E; reflexivity).
  split; [exact Hnpv|].
  destruct (charts_inversion _ _ _ _ E) as (r & i & flows & _ & Hc).
  apply (proj1 (@amounts_near_zero r i flows c Hc));
    rewrite Hnpv; reflexivity.
Defined.

(** The amount of the alert is the net present value to the nearest
    hundredth.  For a finite net present value of sign [s], mantissa [m] and
    exponent [e], the alert reads: the verdict; a minus sign when [s] is
    set; the integer part of a number of hundredths [h], with commas between
    its groups of three digits; a point; the last two digits of [h].  And
    [h / 100] differs from the magnitude [m * 2^e] of the net present value
    by at most [1 / 200]. *)
Theorem amount_to_the_hundredth :
  forall (c : calculation) (s : bool) (m : positive) (e : Z),
    Prim2SF (npv c) = S754_finite s m e ->
    exists h : N,
      alert_children (viability_of c)
      = ((if viable c then "El proyecto es viable. VPN = "
          else "El proyecto no es viable. VPN = ") ++
         (if s then "-" else EmptyString) ++
         PyFormat.group_thousands (PyText.str (Z.of_N (h / 100))) ++
         String "."
           (String (PyFormat.digit_char (h mod 100 / 10))
              (String (PyFormat.digit_char (h mod 10)) EmptyString)))%string
      /\
      (Qabs.Qabs ((Z.of_N h # 100) -
             (Zpos (Binary64Ratio.numerator m e) # Binary64Ratio.denominator e))
       <= 1 # 200)%Q.
Proof.
  intros c s m e H.
  exists (PyFormat.round_half_even
            (100 * Npos (Binary64Ratio.numerator m e))
            (Npos (Binary64Ratio.denominator e))).
  split.
  - unfold viability_of.
    change (num_format (npv c)) with (PyFormat.of_float (npv c)).
    unfold PyFormat.of_float. rewrite H. unfold PyFormat.fixed_2.
    destruct (viable c); reflexivity.
  - apply hundredths_close, AmountFacts.round_half_even_spec. lia.
Qed.

(** A net present value of 2221.6875, that is [4885542479069184 / 2^41]. *)
Lemma amount_to_the_hundredth_witness :
  exists h : N,
    alert_children
      (viability_of {| years := [1%nat]; bars := [7221.6875%float];
                       discounted_cash_flows := [7221.6875%float];
                       cumulative_values := [(-5000)%float; 2221.6875%float];
                       npv := 2221.6875%float; viable := true |})
    = ("El proyecto es viable. VPN = " ++
       PyFormat.group_thousands (PyText.str (Z.of_N (h / 100))) ++
       String "."
         (String (PyFormat.digit_char (h mod 100 / 10))
            (String (PyFormat.digit_char (h mod 10)) EmptyString)))%string /\
    (Qabs.Qabs ((Z.of_N h # 100) - (4885542479069184 # 2199023255552))
     <= 1 # 200)%Q.
Proof.
  exact (@amount_to_the_hundredth
           {| years := [1%nat]; bars := [7221.6875%float];
              discounted_cash_flows := [7221.6875%float];
              cumulative_values := [(-5000)%float; 2221.6875%float];
              npv := 2221.6875%float; viable := true |}
           false 4885542479069184 (-41) eq_refl).
Defined.

(** ** The sign and the magnitude of a discounted value *)

Module Binary64Magnitude.

Import Binary64 Binary64Rounding Binary64NaN.
Local Open Scope float_scope.

(** The rounding does not look at the sign. *)
Lemma round_aux_abs (s : bool) (m e : Z) (l : location) :
  SFabs (binary_round_aux prec emax s m e l)
  = binary_round_aux prec emax false m e l.
Proof.
  unfold binary_round_aux.
  destruct (shr_fexp prec emax m e l) as [mrs1 e1].
  destruct (shr_fexp prec emax _ e1 loc_Exact) as [mrs2 e2].
  destruct (shr_m mrs2); [reflexivity| |reflexivity].
  destruct (e2 <=? emax - prec)%Z; reflexivity.
Qed.

(** [abs(c / p)] is [abs(c) / p] for a positive [p]. *)
Lemma abs_div (c p : float) :
  at_least_one (Prim2SF p) -> abs (c / p) = abs c / p.
Proof.
  intros Hp. apply Prim2SF_inj.
  rewrite abs_spec, !div_spec, abs_spec. unfold SF64div, SFdiv.
  destruct (Prim2SF p) as [sp|sp| |sp mp ep]; try contradiction;
    (destruct sp; [contradiction|]).
  - destruct (Prim2SF c) as [sc|sc| |sc mc ec]; reflexivity.
  - destruct (Prim2SF c) as [sc|sc| |sc mc ec]; try reflexivity.
    cbn [SFabs].
    destruct (SFdiv_core_binary prec emax (Zpos mc) ec (Zpos mp) ep)
      as [[q e] l].
    apply round_aux_abs.
Qed.

Lemma abs_finite_cases (c : float) :
  (abs c <? infinity) = true ->
  (0 <? abs c) = true \/ abs c = 0.
Proof.
  rewrite !ltb_spec, abs_spec.
  change (Prim2SF 0) with (S754_zero false).
  change (Prim2SF infinity) with (S754_infinity false).
  intros H.
  destruct (Prim2SF c) as [s|s| |s m e] eqn:E; try discriminate H.
  - right. apply Prim2SF_inj. now rewrite abs_spec, E.
  - left. reflexivity.
Qed.

Lemma zero_div (p : float) :
  at_least_one (Prim2SF p) -> (0 / p <=? 0) = true.
Proof.
  intros Hp. rewrite leb_spec, div_spec. unfold SF64div, SFdiv.
  change (Prim2SF 0) with (S754_zero false).
  destruct (Prim2SF p) as [sp|sp| |sp mp ep]; try contradiction;
    (destruct sp; [contradiction|]); reflexivity.
Qed.

(** Dividing a finite double by a double of at least 1 does not increase
    its magnitude. *)
Lemma abs_div_le (c p : float) :
  (abs c <? infinity) = true ->
  at_least_one (Prim2SF p) ->
  (abs (c / p) <=? abs c) = true.
Proof.
  intros Hfin Hp. rewrite (@abs_div c p Hp).
  destruct (@abs_finite_cases c Hfin) as [Hpos|Hz].
  - now apply div_le_dividend.
  - rewrite Hz. now apply zero_div.
Qed.

(** Dividing by a positive double keeps the sign. *)
Lemma div_sign (c p : float) :
  (abs c <? infinity) = true ->
  at_least_one (Prim2SF p) ->
  ((0 <=? c) = true -> (0 <=? c / p) = true) /\
  ((c <=? 0) = true -> (c / p <=? 0) = true).
Proof.
  rewrite ltb_spec, abs_spec.
  change (Prim2SF infinity) with (S754_infinity false).
  intros Hfin Hp. rewrite !leb_spec, div_spec.
  change (Prim2SF 0) with (S754_zero false).
  unfold SF64div, SFdiv.
  destruct (Prim2SF p) as [sp|sp| |sp mp ep]; try contradiction;
    (destruct sp; [contradiction|]).
  - destruct (Prim2SF c) as [sc|sc| |sc mc ec]; try destruct sc;
      try discriminate Hfin;
      split; intros H; try discriminate H; reflexivity.
  - destruct (Prim2SF c) as [sc|sc| |sc mc ec]; try destruct sc;
      try discriminate Hfin;
      try (split; intros H; try discriminate H; reflexivity).
    + destruct (SFdiv_core_binary prec emax (Zpos mc) ec (Zpos mp) ep)
        as [[q e] l] eqn:E.
      pose proof (div_core_nonneg mc mp ec ep) as Hq. rewrite E in Hq.
      pose proof (binary_round_aux_sign true q e l) as Hs.
      pose proof (@round_not_nan true q e l Hq) as Hn.
      cbn [xorb].
      destruct (binary_round_aux prec emax true q e l) as [s|s| |s m' e'];
        try congruence; subst s; split; intros H; try discriminate H;
          reflexivity.
    + destruct (SFdiv_core_binary prec emax (Zpos mc) ec (Zpos mp) ep)
        as [[q e] l] eqn:E.
      pose proof (div_core_nonneg mc mp ec ep) as Hq. rewrite E in Hq.
      pose proof (binary_round_aux_sign false q e l) as Hs.
      pose proof (@round_not_nan false q e l Hq) as Hn.
      cbn [xorb].
      destruct (binary_round_aux prec emax false q e l) as [s|s| |s m' e'];
        try congruence; subst s; split; intros H; try discriminate H;
          reflexivity.
Qed.

End Binary64Magnitude.

(** In double precision, with a rate that is not negative, the discounted
    value of a finite cash flow is never larger in magnitude than the cash
    flow, and never of the other sign: it is not negative when the cash flow is not, and not
    positive when the cash flow is not. *)
Theorem discounting_shrinks :
  forall (rate inv : float) (flows : list float) (c : calculation),
    (0 <=? rate)%float = true ->
    compute_npv rate inv flows = Ok c ->
    forall (i : nat) (c_i d_i : float),
      nth_error flows i = Some c_i ->
      nth_error (discounted_cash_flows c) i = Some d_i ->
      (abs c_i <? infinity)%float = true ->
      (abs d_i <=? abs c_i)%float = true /\
      ((0 <=? c_i)%float = true -> (0 <=? d_i)%float = true) /\
      ((c_i <=? 0)%float = true -> (d_i <=? 0)%float = true).
Proof.
  intros rate inv flows c Hrate H i c_i d_i Hc Hd Hfin.
  destruct (@Binary64NaN.discounted_at rate inv flows c i c_i H Hc)
    as (factor & Hf & Hd').
  rewrite Hd in Hd'. inversion Hd'; subst d_i. clear Hd'.
  assert (Binary64.at_least_one (Prim2SF factor)) as Hone.
  { apply (@Binary64Rounding.pow_at_least_one (1 + rate / 100)%float i factor);
      [|exact Hf].
    apply Binary64Rounding.one_plus_at_least_one,
      Binary64Rounding.rate_decimal_nonneg, Hrate. }
  split.
  - now apply Binary64Magnitude.abs_div_le.
  - now apply Binary64Magnitude.div_sign.
Qed.

Lemma discounting_shrinks_witness :
  exists c : calculation,
    compute_npv 10%float 0%float [(-1000)%float; 1000%float] = Ok c /\
    forall d_1,
      nth_error (discounted_cash_flows c) 0 = Some d_1 ->
      (abs d_1 <=? abs (-1000))%float = true /\ (d_1 <=? 0)%float = true.
Proof.
  destruct (compute_npv 10%float 0%float [(-1000)%float; 1000%float])
    as [c|e] eqn:E; [|vm_compute in E; discriminate E].
  exists c. split; [reflexivity|]. intros d_1 Hd.
  destruct (@discounting_shrinks 10%float 0%float
              [(-1000)%float; 1000%float] c eq_refl E 0%nat (-1000)%float d_1
              eq_refl Hd eq_refl) as (Habs & _ & Hneg).
  split; [exact Habs|apply Hneg; reflexivity].
Defined.

(** ** Without a positive cash flow *)

Module Binary64NotPositive.

Import Binary64 Binary64Rounding Binary64NaN.
Local Open Scope float_scope.

(** [0 < x] does not hold: [x] is a zero, is negative or is a NaN. *)
Lemma not_positive_spec (x : float) :
  (0 <? x) = false <->
  match Prim2SF x with
  | S754_zero _ | S754_nan | S754_infinity true | S754_finite true _ _ => True
  | _ => False
  end.
Proof.
  rewrite ltb_spec. change (Prim2SF 0) with (S754_zero false).
  destruct (Prim2SF x) as [s|s| |s m e]; try destruct s; simpl;
    split; intros H; try reflexivity; try exact I; try discriminate H;
      try contradiction.
Qed.

Lemma round_true_not_positive (m e : Z) (l : location) :
  match binary_round_aux prec emax true m e l with
  | S754_zero _ | S754_nan | S754_infinity true | S754_finite true _ _ => True
  | _ => False
  end.
Proof.
  pose proof (binary_round_aux_sign true m e l) as H.
  destruct (binary_round_aux prec emax true m e l) as [s|s| |s m' e'];
    try exact I; subst s; exact I.
Qed.

Lemma add_not_positive (x y : float) :
  (0 <? x) = false -> (0 <? y) = false -> (0 <? x + y) = false.
Proof.
  rewrite !not_positive_spec, add_spec. unfold SF64add, SFadd.
  destruct (Prim2SF x) as [sx|sx| |sx mx ex]; try destruct sx;
    try contradiction;
    destruct (Prim2SF y) as [sy|sy| |sy my ey]; try destruct sy;
      try contradiction; intros _ _; try exact I.
  cbn [cond_Zopp].
  match goal with
  | |- context [binary_normalize _ _ ?m _ _] =>
      assert (exists k, m = Zneg k) as [k ->]
        by (destruct m as [|k|k] eqn:E; [lia|lia|now exists k])
  end.
  unfold binary_normalize, binary_round.
  destruct (shl_align k _ _) as [mz ez].
  apply round_true_not_positive.
Qed.

Lemma fold_not_positive (ds : list float) :
  Forall (fun d => (0 <? d) = false) ds ->
  forall a, (0 <? a) = false ->
            (0 <? fold_left PrimFloat.add ds a) = false.
Proof.
  induction 1 as [|d ds Hd _ IH]; intros a Ha; [exact Ha|].
  simpl. apply IH. now apply add_not_positive.
Qed.

Lemma opp_not_positive (x : float) :
  (x <? 0) = false -> (0 <? - x) = false.
Proof.
  rewrite not_positive_spec, opp_spec, ltb_spec.
  change (Prim2SF 0) with (S754_zero false).
  destruct (Prim2SF x) as [s|s| |s m e]; try destruct s; simpl;
    intros H; try exact I; discriminate H.
Qed.

Lemma div_not_positive (c p : float) :
  safe_base p -> (0 <? c) = false -> (0 <? c / p) = false.
Proof.
  intros Hp. rewrite !not_positive_spec, div_spec. unfold SF64div, SFdiv.
  destruct Hp as [Hnan|Hone].
  - rewrite Hnan. destruct (Prim2SF c); intros _; exact I.
  - destruct (Prim2SF p) as [sp|sp| |sp mp ep]; try contradiction;
      (destruct sp; [contradiction|]);
      destruct (Prim2SF c) as [sc|sc| |sc mc ec]; try destruct sc;
        try contradiction; intros _; try exact I.
    cbn [xorb].
    destruct (SFdiv_core_binary prec emax (Zpos mc) ec (Zpos mp) ep)
      as [[q e] l].
    apply round_true_not_positive.
Qed.

Lemma pow_safe (x p : float) (n : nat) :
  safe_base x -> pow x (S n) = Ok p -> safe_base p.
Proof.
  intros [Hnan|Hone] Hp.
  - left. apply is_nan_spec. apply (@pow_nan_base x p n); [|exact Hp].
    now apply is_nan_spec.
  - right. exact (@pow_at_least_one x n p Hone Hp).
Qed.

Lemma npv_not_positive (rate inv : float) (flows : list float)
    (c : calculation) :
  (rate <? 0) = false -> (inv <? 0) = false ->
  compute_npv rate inv flows = Ok c ->
  Forall (fun x => (0 <? x) = false) flows ->
  (0 <? npv c) = false.
Proof.
  intros Hrate Hinv H Hflows.
  destruct (compute_npv_returns _ _ _ H) as (r & _ & _ & Hnpv & _).
  change (npv c = fold_left PrimFloat.add (discounted_cash_flows c) (- inv))
    in Hnpv.
  rewrite Hnpv. apply fold_not_positive; [|now apply opp_not_positive].
  apply Forall_forall. intros d Hd.
  apply In_nth_error in Hd as [i Hi].
  destruct (compute_npv_lengths _ _ _ H) as (Hlen & _).
  destruct (nth_error flows i) as [c_i|] eqn:Ec.
  - destruct (@discounted_at rate inv flows c i c_i H Ec) as (f & Hf & Hd).
    rewrite Hi in Hd. inversion Hd; subst d.
    apply div_not_positive.
    + exact (@pow_safe (1 + rate / 100) f i (base_safe Hrate) Hf).
    + rewrite Forall_forall in Hflows. apply Hflows.
      now apply nth_error_In with i.
  - apply nth_error_None in Ec.
    assert (i < List.length (discounted_cash_flows c))%nat
      by (apply nth_error_Some; congruence).
    lia.
Qed.

End Binary64NotPositive.

(** In double precision, a project none of whose cash flows is greater than
    zero is never declared viable: whenever the callback returns the charts
    for such cash flows, the net present value is not greater than zero and
    the alert is the [danger] one. *)
Theorem no_positive_cash_flow_is_not_viable :
  forall (n : option nat) (rate inv : option float) (s : string)
         (c : calculation),
    calculate_npv n rate inv s = Charts c ->
    (forall x, In x (bars c) -> (0 <? x)%float = false) ->
    (0 <? npv c)%float = false /\
    viable c = false /\
    alert_color (viability_of c) = "danger"%string.
Proof.
  intros n rate inv s c H Hflows.
  destruct (charts_inversion _ _ _ _ H) as (r & i & flows & Hv & Hc).
  apply validate_accepted in Hv as (_ & _ & Hr & Hi & _).
  destruct (compute_npv_lengths _ _ _ Hc) as (_ & _ & _ & Hbars & Hviable).
  rewrite Hbars in Hflows.
  assert ((0 <? npv c)%float = false) as Hnpv.
  { apply (@Binary64NotPositive.npv_not_positive r i flows c Hr Hi Hc).
    now apply Forall_forall. }
  assert (viable c = false) as Hnot by (now rewrite Hviable).
  split; [exact Hnpv|]. split; [exact Hnot|].
  unfold viability_of. now rewrite Hnot.
Qed.

Lemma no_positive_cash_flow_is_not_viable_witness :
  exists c : calculation,
    calculate_npv (Some 1%nat) (Some 10%float) (Some 0%float) "-100, 0, -0.0"
    = Charts c /\
    viable c = false /\
    alert_color (viability_of c) = "danger"%string.
Proof.
  destruct (calculate_npv (Some 1%nat) (Some 10%float) (Some 0%float)
              "-100, 0, -0.0") as [|e|c|e] eqn:E;
    try (vm_compute in E; discriminate E).
  exists c. split; [reflexivity|].
  apply (@no_positive_cash_flow_is_not_viable (Some 1%nat) (Some 10%float)
           (Some 0%float) "-100, 0, -0.0" c E).
  intros x Hx. vm_compute in E. inversion E as [Hc]. rewrite <- Hc in Hx.
  cbn [bars] in Hx.
  destruct Hx as [<-|[<-|[<-|[]]]]; reflexivity.
Defined.
